(** * fitx: schedule parser, calendar generator, cache store and refresh cycle

    A shallow embedding of the Python sources under [app/]:
    [models.py], [parser.py], [ics.py], [store.py], the retry loop of
    [fetcher.py] and startup, the refresh cycle and the handlers of
    [main.py].  Logging and the interleaving of concurrent refresh cycles
    are not modelled; a file that cannot be read is a file that is absent.

    Conventions.
    - A Python [str] is a list of Unicode code points ([str := list N]);
      ASCII literals are written [lit "..."].
    - A Python [bytes] is a [list byte].
    - Exceptions are explicit: a function that may raise returns [result].
    - Calls into the interpreter's library that the sources rely on but do
      not define (the JSON decoder, the HTML parser, the zone table, the
      Unicode case table, ...) are the fields of the class [PyLib], and so
      is whether the system lets the data directory be made and a file be
      written. *)

From Stdlib Require Import List ZArith NArith Lia Bool Ascii String.
From Stdlib Require Import Permutation Sorted.
From Stdlib Require Import Strings.Byte.
From Stdlib Require Import Floats.SpecFloat.
From Equations Require Import Equations.
Import ListNotations.

Set Implicit Arguments.
Set Warnings "-register-all".
Open Scope Z_scope.

(* ===================================================================== *)
(** * Part I: the Python values the sources manipulate                    *)
(* ===================================================================== *)

(** ** Strings *)

Definition char := N.
Definition str := list char.

Definition lit (s : string) : str :=
  List.map N_of_ascii (list_ascii_of_string s).

Definition char_eqb (a b : char) : bool := N.eqb a b.

Fixpoint str_eqb (a b : str) : bool :=
  match a, b with
  | [], [] => true
  | x :: a', y :: b' => char_eqb x y && str_eqb a' b'
  | _, _ => false
  end.

(** [a.startswith(p)], returning the remainder after the prefix. *)
Fixpoint strip_prefix (p s : str) : option str :=
  match p, s with
  | [], _ => Some s
  | x :: p', y :: s' => if char_eqb x y then strip_prefix p' s' else None
  | _ :: _, [] => None
  end.

Definition startswith (p s : str) : bool :=
  match strip_prefix p s with Some _ => true | None => false end.

(** [needle in hay] on strings. *)
Fixpoint contains (needle hay : str) : bool :=
  startswith needle hay ||
  match hay with
  | [] => false
  | _ :: t => contains needle t
  end.

(** [s.replace(old, new)]: non-overlapping occurrences, left to right.
    [skip] counts the characters of a matched occurrence still to drop. *)
Fixpoint replace_from (old new : str) (skip : nat) (s : str) : str :=
  match s with
  | [] => []
  | c :: t =>
      match skip with
      | S k => replace_from old new k t
      | O =>
          if startswith old s
          then new ++ replace_from old new (Nat.pred (List.length old)) t
          else c :: replace_from old new O t
      end
  end.

Definition str_replace (old new s : str) : str :=
  match old with
  | [] => new ++ flat_map (fun c => c :: new) s
  | _ :: _ => replace_from old new O s
  end.

(** [sep.join(parts)] *)
Fixpoint join (sep : str) (parts : list str) : str :=
  match parts with
  | [] => []
  | [p] => p
  | p :: rest => p ++ sep ++ join sep rest
  end.

(** [s.split(sep)] for a one-character separator. *)
Fixpoint split_on (sep : char) (s : str) : list str :=
  match s with
  | [] => [[]]
  | c :: t =>
      if char_eqb c sep then [] :: split_on sep t
      else match split_on sep t with
           | [] => [[c]]
           | w :: ws => (c :: w) :: ws
           end
  end.

(** The characters [str.strip()] removes (Py_UNICODE_ISSPACE). *)
Definition is_space (c : char) : bool :=
  ((9 <=? c) && (c <=? 13) || (28 <=? c) && (c <=? 32) ||
   (c =? 133) || (c =? 160) || (c =? 5760) ||
   (8192 <=? c) && (c <=? 8202) || (c =? 8232) || (c =? 8233) ||
   (c =? 8239) || (c =? 8287) || (c =? 12288))%N.

Fixpoint lstrip (s : str) : str :=
  match s with
  | c :: t => if is_space c then lstrip t else s
  | [] => []
  end.

Definition strip (s : str) : str := rev (lstrip (rev (lstrip s))).

Definition is_ascii (s : str) : bool := forallb (fun c => (c <? 128)%N) s.

Definition ascii_lower (c : char) : char :=
  if ((65 <=? c) && (c <=? 90))%N then (c + 32)%N else c.

(** Decimal rendering of integers: [str(n)]. *)
Definition digit_char (d : Z) : char := Z.to_N (48 + d).

Fixpoint digits_fuel (fuel : nat) (n : Z) (acc : str) : str :=
  match fuel with
  | O => acc
  | S f =>
      let acc' := digit_char (n mod 10) :: acc in
      if n <? 10 then acc' else digits_fuel f (n / 10) acc'
  end.

Definition str_of_nonneg (n : Z) : str :=
  digits_fuel (S (Z.to_nat (Z.log2 n))) n [].

Definition str_of_Z (n : Z) : str :=
  if n <? 0 then lit "-" ++ str_of_nonneg (- n) else str_of_nonneg n.

(** [%0<width>d] for a non-negative value. *)
Definition zero_pad (width : nat) (n : Z) : str :=
  let d := str_of_nonneg n in
  repeat (digit_char 0) (width - List.length d) ++ d.

(** Lexicographic order on code points: [a <= b] on Python strings. *)
Fixpoint str_leb (a b : str) : bool :=
  match a, b with
  | [], _ => true
  | _ :: _, [] => false
  | x :: a', y :: b' =>
      if (x <? y)%N then true
      else if (y <? x)%N then false
      else str_leb a' b'
  end.

(** ** Bytes and UTF-8 *)

Definition bytes := list byte.

Definition REPLACEMENT : char := 65533%N.

Definition is_cont (b : N) : bool := ((128 <=? b) && (b <? 192))%N.

(** One step of the UTF-8 decoder at lead byte [b0] followed by [rest]:
    the decoded code point ([None] for an ill-formed sequence) and the
    number of bytes of [rest] the step consumes.  An ill-formed sequence
    extends over its maximal well-formed prefix, and over the whole
    remaining input when the input ends inside a sequence. *)
Definition utf8_next (b0 : N) (rest : list N) : option char * nat :=
  (if b0 <? 128 then (Some b0, O)
   else if b0 <? 194 then (None, O)
   else if b0 <? 224 then
     match rest with
     | [] => (None, O)
     | b1 :: _ =>
         if is_cont b1 then (Some ((b0 - 192) * 64 + (b1 - 128)), 1%nat)
         else (None, O)
     end
   else if b0 <? 240 then
     match rest with
     | [] => (None, O)
     | b1 :: r1 =>
         if negb (is_cont b1)
            || (if b1 <? 160 then b0 =? 224 else b0 =? 237)
         then (None, O)
         else match r1 with
              | [] => (None, 1%nat)
              | b2 :: _ =>
                  if is_cont b2
                  then (Some ((b0 - 224) * 4096 + (b1 - 128) * 64 + (b2 - 128)),
                        2%nat)
                  else (None, 1%nat)
              end
     end
   else if b0 <? 245 then
     match rest with
     | [] => (None, O)
     | b1 :: r1 =>
         if negb (is_cont b1)
            || (if b1 <? 144 then b0 =? 240 else b0 =? 244)
         then (None, O)
         else match r1 with
              | [] => (None, 1%nat)
              | b2 :: r2 =>
                  if negb (is_cont b2) then (None, 1%nat)
                  else match r2 with
                       | [] => (None, 2%nat)
                       | b3 :: _ =>
                           if is_cont b3
                           then (Some ((b0 - 240) * 262144 + (b1 - 128) * 4096
                                       + (b2 - 128) * 64 + (b3 - 128)), 3%nat)
                           else (None, 2%nat)
                       end
              end
     end
   else (None, O))%N.

(** [data.decode("utf-8", errors="replace")] *)
Fixpoint decode_replace_from (skip : nat) (bs : list N) : str :=
  match bs with
  | [] => []
  | b :: r =>
      match skip with
      | S k => decode_replace_from k r
      | O =>
          let '(c, n) := utf8_next b r in
          match c with
          | Some cp => cp :: decode_replace_from n r
          | None => REPLACEMENT :: decode_replace_from n r
          end
      end
  end.

Definition decode_utf8_replace (data : bytes) : str :=
  decode_replace_from O (List.map Byte.to_N data).

(** [data.decode("utf-8")] with the strict error handler. *)
Fixpoint decode_strict_from (skip : nat) (bs : list N) : option str :=
  match bs with
  | [] => Some []
  | b :: r =>
      match skip with
      | S k => decode_strict_from k r
      | O =>
          let '(c, n) := utf8_next b r in
          match c, decode_strict_from n r with
          | Some cp, Some s => Some (cp :: s)
          | _, _ => None
          end
      end
  end.

Definition decode_utf8_strict (data : bytes) : option str :=
  decode_strict_from O (List.map Byte.to_N data).

Definition byte_of_N (n : N) : byte :=
  match Byte.of_N n with Some b => b | None => x00 end.

(** UTF-8 bytes of one code point; surrogates are not encodable, and code
    points end at U+10FFFF. *)
Definition encode_char (c : char) : option bytes :=
  (if c <? 128 then Some [byte_of_N c]
   else if c <? 2048 then
     Some [byte_of_N (192 + c / 64); byte_of_N (128 + c mod 64)]
   else if (55296 <=? c) && (c <? 57344) then None
   else if c <? 65536 then
     Some [byte_of_N (224 + c / 4096); byte_of_N (128 + (c / 64) mod 64);
           byte_of_N (128 + c mod 64)]
   else if c <? 1114112 then
     Some [byte_of_N (240 + c / 262144); byte_of_N (128 + (c / 4096) mod 64);
           byte_of_N (128 + (c / 64) mod 64); byte_of_N (128 + c mod 64)]
   else None)%N.

(** [s.encode("utf-8")] *)
Fixpoint encode_utf8 (s : str) : option bytes :=
  match s with
  | [] => Some []
  | c :: t =>
      match encode_char c, encode_utf8 t with
      | Some b, Some r => Some (b ++ r)
      | _, _ => None
      end
  end.

Definition blit (s : string) : bytes := list_byte_of_string s.

(** ** Exceptions *)

Inductive exn : Type :=
| ValueError (msg : str)
| RuntimeError (msg : str)
| OverflowError
| UnicodeEncodeError
| ParserRejectedMarkup   (* raised by BeautifulSoup; an AssertionError of
                            html.parser with older versions of bs4 *)
| OSError
| TypeError
| AttributeError.

Inductive result (A : Type) : Type :=
| Ok (a : A)
| Raise (e : exn).

Arguments Ok {A} a.
Arguments Raise {A} e.

Definition bind {A B} (r : result A) (k : A -> result B) : result B :=
  match r with
  | Ok a => k a
  | Raise e => Raise e
  end.

Notation "x <- r ;; k" := (bind r (fun x => k))
  (at level 61, r at next level, right associativity).

(** ** JSON values as [json.loads] builds them *)

Inductive json : Type :=
| JNull
| JBool (b : bool)
| JInt (n : Z)
| JFloat (f : spec_float)
| JStr (s : str)
| JList (l : list json)
| JDict (d : list (str * json)).

(** A [dict] keeps its items in insertion order. *)
Fixpoint dict_get {V} (d : list (str * V)) (k : str) : option V :=
  match d with
  | [] => None
  | (k', v) :: t => if str_eqb k' k then Some v else dict_get t k
  end.

(** [it.get(k)]: a missing key reads as [None]. *)
Definition get (it : list (str * json)) (k : string) : json :=
  match dict_get it (lit k) with
  | Some v => v
  | None => JNull
  end.

(** Truth value of an object, as [if v:] and [v or w] test it. *)
Definition truthy (v : json) : bool :=
  match v with
  | JNull => false
  | JBool b => b
  | JInt n => negb (n =? 0)
  | JFloat (S754_zero _) => false
  | JFloat _ => true
  | JStr s => match s with [] => false | _ => true end
  | JList l => match l with [] => false | _ => true end
  | JDict d => match d with [] => false | _ => true end
  end.

Definition py_or (a b : json) : json := if truthy a then a else b.

(** [int(f)] on a float: truncation toward zero; infinities and NaN raise. *)
Definition int_of_float (f : spec_float) : option Z :=
  match f with
  | S754_zero _ => Some 0
  | S754_infinity _ | S754_nan => None
  | S754_finite s m e =>
      let a := if 0 <=? e then Z.pos m * 2 ^ e else Z.pos m / 2 ^ (- e) in
      Some (if s then - a else a)
  end.

(** ** Datetimes

    Every datetime an event holds carries the zone Europe/Berlin, so the zone
    is not stored.  [wall] counts the microseconds of the civil (wall-clock)
    fields since 0001-01-01T00:00:00; [fold] is the PEP 495 flag.  Comparison
    of two such values compares their civil fields. *)

Record datetime : Type := mkdt { wall : Z; fold : bool }.

Definition US_PER_DAY : Z := 86400000000.
Definition MAXORDINAL : Z := 3652059.
Definition MAXWALL : Z := MAXORDINAL * US_PER_DAY.
(** civil 1970-01-01T00:00:00 (ordinal 719163) *)
Definition EPOCH_WALL : Z := 719162 * US_PER_DAY.

Definition wall_in_range (w : Z) : bool := (0 <=? w) && (w <? MAXWALL).

(** [dt + timedelta(minutes=m)]: arithmetic on the civil fields, the zone
    kept, [fold] reset; [OverflowError] outside years 1..9999. *)
Definition add_minutes (dt : datetime) (m : Z) : result datetime :=
  let w := wall dt + m * 60000000 in
  if wall_in_range w then Ok (mkdt w false) else Raise OverflowError.

(** What [datetime.fromisoformat] and [datetime.strptime] return: civil
    fields and, when the text carries one, a fixed UTC offset (microseconds). *)
Record rawdt : Type := mkraw { r_wall : Z; r_offset : option Z }.

(** [_ord2ymd] of the datetime module: ordinal day to (year, month, day). *)
Definition is_leap (y : Z) : bool :=
  (y mod 4 =? 0) && (negb (y mod 100 =? 0) || (y mod 400 =? 0)).

Definition days_in_month (y m : Z) : Z :=
  if m =? 2 then (if is_leap y then 29 else 28)
  else if (m =? 4) || (m =? 6) || (m =? 9) || (m =? 11) then 30 else 31.

Fixpoint days_before_month_fuel (fuel : nat) (y m : Z) : Z :=
  match fuel with
  | O => 0
  | S f =>
      if m <=? 1 then 0
      else days_in_month y (m - 1) + days_before_month_fuel f y (m - 1)
  end.

Definition days_before_month (y m : Z) : Z := days_before_month_fuel 12 y m.

Definition ord2ymd (ordinal : Z) : Z * Z * Z :=
  let n := ordinal - 1 in
  let n400 := n / 146097 in
  let n := n mod 146097 in
  let year := n400 * 400 + 1 in
  let n100 := n / 36524 in
  let n := n mod 36524 in
  let n4 := n / 1461 in
  let n := n mod 1461 in
  let n1 := n / 365 in
  let n := n mod 365 in
  let year := year + n100 * 100 + n4 * 4 + n1 in
  if (n1 =? 4) || (n100 =? 4) then (year - 1, 12, 31)
  else
    let month := Z.shiftr (n + 50) 5 in
    let preceding := days_before_month year month in
    if n <? preceding
    then (year, month - 1, n - (preceding - days_in_month year (month - 1)) + 1)
    else (year, month, n - preceding + 1).

(** [strftime("%Y%m%dT%H%M%S")] of the civil fields.  [%Y] is the year
    without padding, as the C library of the deployment (glibc) prints it:
    year 999 gives [999], not [0999]. *)
Definition strftime_basic (w : Z) : str :=
  let days := w / US_PER_DAY in
  let secs := (w mod US_PER_DAY) / 1000000 in
  let '(y, m, d) := ord2ymd (days + 1) in
  str_of_Z y ++ zero_pad 2 m ++ zero_pad 2 d ++ lit "T" ++
  zero_pad 2 (secs / 3600) ++ zero_pad 2 ((secs / 60) mod 60) ++
  zero_pad 2 (secs mod 60).

(** ** models.py *)

Record CourseEvent : Type := mkEvent {
  id : str;
  title : str;
  start : datetime;   (* timezone-aware, Europe/Berlin *)
  end_ : datetime;    (* timezone-aware, Europe/Berlin *)
  location : option str;
  instructor : option str;
  room : option str;
  description : option str
}.

(** A [<script>] element as BeautifulSoup exposes it: its [type] attribute,
    [.string] and [.text]. *)
Record script : Type := mkScript {
  sc_type : option str;
  sc_string : option str;
  sc_text : str
}.

(** The two files of the data directory ([store.py]). *)
Inductive path : Type := CACHE_ICS | CACHE_JSON.

(* ===================================================================== *)
(** * Part II: the library and the system the sources call                *)
(* ===================================================================== *)

Class PyLib : Type := {
  (** [s.lower()] on a string that is not pure ASCII (Unicode case table) *)
  unicode_lower : str -> str;
  (** [int(s)] on a string *)
  int_of_str : str -> option Z;
  (** [str(v)] on a float, a list or a dict *)
  repr_value : json -> str;
  (** [json.loads]; [None] when it raises *)
  json_loads : str -> option json;
  (** [json.dumps(v, ensure_ascii=False, indent=2)] *)
  json_dumps : json -> str;
  (** [BeautifulSoup(text, "html.parser").find_all("script")]; [None] when
      the parser rejects the markup and the constructor raises *)
  find_all_script : str -> option (list script);
  (** [datetime.fromisoformat]; [None] when it raises *)
  fromisoformat : str -> option rawdt;
  (** [datetime.strptime(s, fmt)]; [None] when it raises *)
  strptime : str -> str -> option rawdt;
  (** [ZoneInfo("Europe/Berlin").fromutc] on UTC civil microseconds;
      [None] when the result leaves years 1..9999 *)
  berlin_fromutc : Z -> option datetime;
  (** [dt.astimezone(BERLIN)] on a naive value (read in the process zone) *)
  astimezone_naive : Z -> option datetime;
  (** [datetime.fromtimestamp(ms / 1000.0, tz=utc)] as UTC civil
      microseconds; [None] when it raises *)
  fromtimestamp_ms : Z -> option Z;
  (** [int(dt.timestamp())] *)
  timestamp_int : datetime -> Z;
  (** [dt.isoformat()] *)
  isoformat : datetime -> str;
  (** whether [DATA_DIR.mkdir(parents=True, exist_ok=True)] raises *)
  mkdir_fails : bool;
  (** whether writing these bytes to the temporary file of this path and
      renaming it ([open], [write], [fsync], [os.replace]) raises *)
  write_fails : path -> bytes -> bool
}.

(* ===================================================================== *)
(** * Part III: the sources                                               *)
(* ===================================================================== *)

Section Sources.

Context {L : PyLib}.

(** [s.lower()] *)
Definition str_lower (s : str) : str :=
  if is_ascii s then List.map ascii_lower s else unicode_lower s.

Definition endswith (suffix s : str) : bool :=
  startswith (rev suffix) (rev s).

(** [str(v)] *)
Definition py_str (v : json) : str :=
  match v with
  | JStr s => s
  | JInt n => str_of_Z n
  | JBool true => lit "True"
  | JBool false => lit "False"
  | JNull => lit "None"
  | _ => repr_value v
  end.

(** [int(v)]; [None] when it raises *)
Definition py_int (v : json) : option Z :=
  match v with
  | JInt n => Some n
  | JBool b => Some (if b then 1 else 0)
  | JFloat f => int_of_float f
  | JStr s => int_of_str s
  | JNull | JList _ | JDict _ => None
  end.

(** [dt.astimezone(BERLIN)]; [None] when it raises *)
Definition astimezone_berlin (r : rawdt) : option datetime :=
  match r_offset r with
  | Some off =>
      let u := r_wall r - off in
      if wall_in_range u then berlin_fromutc u else None
  | None => astimezone_naive (r_wall r)
  end.

(** [dt.replace(tzinfo=BERLIN)] *)
Definition replace_tz_berlin (r : rawdt) : datetime := mkdt (r_wall r) false.

(** ** parser.py *)

Definition _parse_epoch (val : json) : option datetime :=
  match py_int val with
  | None => None
  | Some v =>
      let utc :=
        if 1000000000000 <? v then fromtimestamp_ms v
        else
          let w := EPOCH_WALL + v * 1000000 in
          if wall_in_range w then Some w else None in
      match utc with
      | Some w => berlin_fromutc w
      | None => None
      end
  end.

Definition ISO_FORMATS : list str :=
  [ lit "%Y-%m-%dT%H:%M:%S%z";
    lit "%Y-%m-%d %H:%M:%S%z";
    lit "%Y-%m-%dT%H:%M:%S";
    lit "%Y-%m-%d %H:%M:%S";
    lit "%Y-%m-%d" ].

Fixpoint try_formats (s : str) (fmts : list str) : option datetime :=
  match fmts with
  | [] => None
  | fmt :: rest =>
      match strptime s fmt with
      | None => try_formats s rest
      | Some dt =>
          if endswith (lit "%z") fmt then
            match astimezone_berlin dt with
            | Some d => Some d
            | None => try_formats s rest
            end
          else Some (replace_tz_berlin dt)
      end
  end.

Definition _parse_iso (val : json) : option datetime :=
  match val with
  | JStr v =>
      let s := strip v in
      let straight :=
        match fromisoformat (str_replace (lit "Z") (lit "+00:00") s) with
        | None => None
        | Some dt =>
            match r_offset dt with
            | None => Some (replace_tz_berlin dt)
            | Some _ => astimezone_berlin dt
            end
        end in
      match straight with
      | Some d => Some d
      | None => try_formats s ISO_FORMATS
      end
  | _ => None
  end.

Definition parse_any_datetime (val : json) : option datetime :=
  match _parse_iso val with
  | Some d => Some d
  | None => _parse_epoch val
  end.

Definition EVENT_KEYS : list string :=
  [ "events"; "appointments"; "schedule"; "courseSchedule"; "times";
    "sessions"; "payload" ]%string.

Definition dict_items (l : list json) : list (list (str * json)) :=
  flat_map (fun it => match it with JDict d => [d] | _ => [] end) l.

(** [extract_events_from_json]: [walk] appends to [found] in visit order. *)
Fixpoint walk (obj : json) : list (list (str * json)) :=
  match obj with
  | JDict d =>
      flat_map (fun k => match dict_get d (lit k) with
                         | Some (JList l) => dict_items l
                         | _ => []
                         end) EVENT_KEYS
      ++ (fix walk_values (kvs : list (str * json)) :=
            match kvs with
            | [] => []
            | (_, v) :: rest => walk v ++ walk_values rest
            end) d
  | JList l =>
      (fix walk_list (vs : list json) :=
         match vs with
         | [] => []
         | v :: rest => walk v ++ walk_list rest
         end) l
  | _ => []
  end.

Definition extract_events_from_json (data : json) : list (list (str * json)) :=
  walk data.

(** [parse_any_datetime(it.get(k1)) or parse_any_datetime(it.get(k2)) or ...] *)
Fixpoint first_datetime (it : list (str * json)) (keys : list string)
  : option datetime :=
  match keys with
  | [] => None
  | k :: rest =>
      match parse_any_datetime (get it k) with
      | Some d => Some d
      | None => first_datetime it rest
      end
  end.

Definition START_KEYS : list string :=
  [ "start"; "startTime"; "startDate"; "startDateTime"; "begin"; "from";
    "date"; "dateStart" ]%string.

Definition END_KEYS : list string :=
  [ "end"; "endTime"; "endDate"; "endDateTime"; "to"; "dateEnd" ]%string.

Definition DURATION_KEYS : list string :=
  [ "durationMinutes"; "duration"; "length"; "minutes" ]%string.

(** The [for dk in (...)] loop of [coerce_event]: the value left in
    [dur_min]. *)
Fixpoint find_duration (it : list (str * json)) (keys : list string)
  : option Z :=
  match keys with
  | [] => None
  | dk :: rest =>
      match get it dk with
      | JNull => find_duration it rest
      | v =>
          match py_int v with
          | Some d => Some d
          | None => find_duration it rest
          end
      end
  end.

Definition _coerce_str (v : json) : option str :=
  match v with
  | JNull => None
  | JStr s => Some s
  | _ => Some (py_str v)
  end.

(** [a or b] on [Optional[str]] values *)
Definition opt_or (a b : option str) : option str :=
  match a with
  | Some (_ :: _) => a
  | _ => b
  end.

Definition coerce_event (it : list (str * json)) : result (option CourseEvent) :=
  let title :=
    py_or (get it "title") (py_or (get it "name") (py_or (get it "courseName")
      (py_or (get it "course") (JStr (lit "FitX Course"))))) in
  match first_datetime it START_KEYS with
  | None => Ok None
  | Some start =>
      end_ <-
        match first_datetime it END_KEYS with
        | Some e => Ok e
        | None =>
            match find_duration it DURATION_KEYS with
            | Some dur_min =>
                if negb (dur_min =? 0) then add_minutes start dur_min
                else add_minutes start 60
            | None => add_minutes start 60
            end
        end ;;
      let cid :=
        py_or (get it "id") (py_or (get it "eventId") (py_or (get it "uid")
          (JStr (py_str title ++ lit "-" ++ str_of_Z (timestamp_int start))))) in
      let location :=
        opt_or (_coerce_str (get it "location"))
          (opt_or (_coerce_str (get it "place"))
             (opt_or (_coerce_str (get it "studio")) None)) in
      let instructor :=
        opt_or (_coerce_str (get it "instructor"))
          (opt_or (_coerce_str (get it "trainer"))
             (opt_or (_coerce_str (get it "coach")) None)) in
      let room :=
        opt_or (_coerce_str (get it "room"))
          (opt_or (_coerce_str (get it "hall")) None) in
      let description :=
        opt_or (_coerce_str (get it "description"))
          (opt_or (_coerce_str (get it "details")) None) in
      Ok (Some (mkEvent (py_str cid) (py_str title) start end_
                        location instructor room description))
  end.

(** [sorted(l, key=...)]: the stable sort, for a key order given by [leb]. *)
Fixpoint insert_by {A} (leb : A -> A -> bool) (x : A) (l : list A) : list A :=
  match l with
  | [] => [x]
  | y :: t => if leb x y then x :: l else y :: insert_by leb x t
  end.

Definition sorted_by {A} (leb : A -> A -> bool) (l : list A) : list A :=
  fold_right (insert_by leb) [] l.

(** [(a.start, a.title) <= (b.start, b.title)] *)
Definition event_leb (a b : CourseEvent) : bool :=
  if wall (start a) <? wall (start b) then true
  else if wall (start b) <? wall (start a) then false
  else str_leb (title a) (title b).

Definition dedup_key : Type := str * Z * Z.

Definition key_eqb (a b : dedup_key) : bool :=
  let '(i, s, e) := a in
  let '(i', s', e') := b in
  str_eqb i i' && (s =? s') && (e =? e').

Definition event_key (e : CourseEvent) : dedup_key :=
  (id e, timestamp_int (start e), timestamp_int (end_ e)).

(** [uniq[key] = e]: an existing key keeps its position and takes the new
    value, a new key is appended. *)
Fixpoint dict_set (u : list (dedup_key * CourseEvent)) (k : dedup_key)
  (e : CourseEvent) : list (dedup_key * CourseEvent) :=
  match u with
  | [] => [(k, e)]
  | (k', e') :: t =>
      if key_eqb k' k then (k', e) :: t else (k', e') :: dict_set t k e
  end.

Definition dedup (events : list CourseEvent) : list CourseEvent :=
  List.map snd
    (fold_left (fun u e => dict_set u (event_key e) e) events []).

(** The part of [_build_events_from_obj] after coercion. *)
Definition dedup_sort (events : list CourseEvent) : list CourseEvent :=
  sorted_by event_leb (dedup events).

Fixpoint coerce_all (candidates : list (list (str * json)))
  : result (list CourseEvent) :=
  match candidates with
  | [] => Ok []
  | it :: rest =>
      ev <- coerce_event it ;;
      evs <- coerce_all rest ;;
      Ok (match ev with Some e => e :: evs | None => evs end)
  end.

Definition _build_events_from_obj (obj : json) : result (list CourseEvent) :=
  events <- coerce_all (extract_events_from_json obj) ;;
  Ok (dedup_sort events).

(** [re.finditer(r"(\{.*?\}|\[.*?\])", s, re.DOTALL)]: at a brace (bracket)
    the match runs through the next closing brace (bracket); matches do not
    overlap.  [take_through close t] is the part of [t] up to and including
    the first [close]. *)
Fixpoint take_through (close : char) (s : str) : option str :=
  match s with
  | [] => None
  | c :: t =>
      if char_eqb c close then Some [c]
      else option_map (cons c) (take_through close t)
  end.

Definition LBRACE : char := 123%N.
Definition RBRACE : char := 125%N.
Definition LBRACKET : char := 91%N.
Definition RBRACKET : char := 93%N.

Fixpoint finditer_from (skip : nat) (s : str) : list str :=
  match s with
  | [] => []
  | c :: t =>
      match skip with
      | S k => finditer_from k t
      | O =>
          let m :=
            if char_eqb c LBRACE then take_through RBRACE t
            else if char_eqb c LBRACKET then take_through RBRACKET t
            else None in
          match m with
          | Some body => (c :: body) :: finditer_from (List.length body) t
          | None => finditer_from O t
          end
      end
  end.

Definition json_like_chunks (s : str) : list str := finditer_from O s.

(** [sc.string or sc.text], the empty string when both are empty *)
Definition script_content (sc : script) : str :=
  match sc_string sc with
  | Some (c :: s) => c :: s
  | _ => sc_text sc
  end.

(** The body of both [try: obj = json.loads(c); events =
    _build_events_from_obj(obj); if events: return events; except: continue]
    loops: the events to return, or [None] to continue. *)
Definition try_json (content : str) : option (list CourseEvent) :=
  match json_loads content with
  | None => None
  | Some obj =>
      match _build_events_from_obj obj with
      | Ok (e :: es) => Some (e :: es)
      | Ok [] => None
      | Raise _ => None
      end
  end.

Fixpoint first_typed (scripts : list script) : option (list CourseEvent) :=
  match scripts with
  | [] => None
  | sc :: rest =>
      let t := str_lower (match sc_type sc with Some t => t | None => [] end) in
      if contains (lit "json") t then
        match strip (script_content sc) with
        | [] => first_typed rest
        | content =>
            match try_json content with
            | Some events => Some events
            | None => first_typed rest
            end
        end
      else first_typed rest
  end.

Definition scan_candidates (scripts : list script) : list str :=
  flat_map
    (fun sc =>
       match strip (script_content sc) with
       | [] => []
       | s => filter (fun chunk => negb (List.length chunk <? 10)%nat)
                     (json_like_chunks s)
       end)
    scripts.

(** key order of [candidates.sort(key=len, reverse=True)] *)
Definition longer_first (a b : str) : bool :=
  (List.length b <=? List.length a)%nat.

Fixpoint first_candidate (cs : list str) : option (list CourseEvent) :=
  match cs with
  | [] => None
  | c :: rest =>
      match try_json c with
      | Some events => Some events
      | None => first_candidate rest
      end
  end.

Definition UNDECODABLE : exn :=
  ValueError (lit "Response is not decodable as UTF-8 text").

Definition NO_EVENTS : exn :=
  ValueError (lit "Unable to parse schedule from response (no events found)").

(** Step 2 of [parse_schedule].  Decoding with [errors="replace"] never
    raises, so [text] is never [None]; [not text] tests the empty string.
    [BeautifulSoup(text, "html.parser")] stands outside every [try]: when
    the parser rejects the markup its exception leaves [parse_schedule]. *)
Definition parse_html (data : bytes) : result (list CourseEvent) :=
  match decode_utf8_replace data with
  | [] => Raise UNDECODABLE
  | text =>
      match find_all_script text with
      | None => Raise ParserRejectedMarkup
      | Some scripts =>
          match first_typed scripts with
          | Some events => Ok events
          | None =>
              let candidates :=
                sorted_by longer_first (scan_candidates scripts) in
              match first_candidate (firstn 50 candidates) with
              | Some events => Ok events
              | None => Raise NO_EVENTS
              end
          end
      end
  end.

(** [data[:1] in (b"{", b"[")] *)
Definition looks_like_json (data : bytes) : bool :=
  match data with
  | b :: _ => (Byte.to_N b =? LBRACE)%N || (Byte.to_N b =? LBRACKET)%N
  | [] => false
  end.

Definition direct_json (data : bytes) (content_type : option str) : bool :=
  let ct := str_lower (match content_type with Some c => c | None => [] end) in
  contains (lit "application/json") ct || looks_like_json data.

Definition parse_schedule (data : bytes) (content_type : option str)
  : result (list CourseEvent) :=
  if direct_json data content_type then
    match json_loads (decode_utf8_replace data) with
    | Some obj =>
        match _build_events_from_obj obj with
        | Ok events => Ok events
        | Raise _ => parse_html data
        end
    | None => parse_html data
    end
  else parse_html data.

(** ** ics.py *)

Definition BACKSLASH : char := 92%N.
Definition SEMICOLON : char := 59%N.
Definition COMMA : char := 44%N.
Definition CR : char := 13%N.
Definition LF : char := 10%N.
Definition SPACE : char := 32%N.
Definition LOWER_N : char := 110%N.

Definition _escape_ics (text : str) : str :=
  str_replace [LF] [BACKSLASH; LOWER_N]
    (str_replace [CR; LF] [BACKSLASH; LOWER_N]
       (str_replace [COMMA] [BACKSLASH; COMMA]
          (str_replace [SEMICOLON] [BACKSLASH; SEMICOLON]
             (str_replace [BACKSLASH] [BACKSLASH; BACKSLASH] text)))).

Definition max_len : nat := 75.

Equations? _fold_line (line : str) : list str by wf (List.length line) lt :=
  _fold_line line with le_lt_dec (List.length line) max_len := {
    | left _ => [line]
    | right H =>
        firstn max_len line :: _fold_line (SPACE :: skipn max_len line) }.
Proof.
  change (S (List.length (skipn max_len line)) < List.length line)%nat.
  rewrite length_skipn. unfold max_len in *. lia.
Qed.

Definition _vtz_europe_berlin : list str :=
  List.map lit
    [ "BEGIN:VTIMEZONE";
      "TZID:Europe/Berlin";
      "X-LIC-LOCATION:Europe/Berlin";
      "BEGIN:DAYLIGHT";
      "TZOFFSETFROM:+0100";
      "TZOFFSETTO:+0200";
      "TZNAME:CEST";
      "DTSTART:19700329T020000";
      "RRULE:FREQ=YEARLY;BYMONTH=3;BYDAY=-1SU";
      "END:DAYLIGHT";
      "BEGIN:STANDARD";
      "TZOFFSETFROM:+0200";
      "TZOFFSETTO:+0100";
      "TZNAME:CET";
      "DTSTART:19701025T030000";
      "RRULE:FREQ=YEARLY;BYMONTH=10;BYDAY=-1SU";
      "END:STANDARD";
      "END:VTIMEZONE" ]%string.

(** [now] is the current moment as UTC civil microseconds. *)
Definition _fmt_dt_utc (now : Z) : str := strftime_basic now ++ lit "Z".

Definition _fmt_local (dt : datetime) : str := strftime_basic (wall dt).

(** [if s:] on an [Optional[str]] *)
Definition nonempty (o : option str) : option str :=
  match o with
  | Some (c :: s) => Some (c :: s)
  | _ => None
  end.

Definition opt_list {A} (o : option A) : list A :=
  match o with Some a => [a] | None => [] end.

(** The lines one event contributes, [BEGIN:VEVENT] to [END:VEVENT]. *)
Definition vevent_lines (now : Z) (course_id : Z) (ev : CourseEvent) : list str :=
  let desc_parts :=
    opt_list (option_map (fun s => lit "Instructor: " ++ s)
                         (nonempty (instructor ev)))
    ++ opt_list (option_map (fun s => lit "Room: " ++ s) (nonempty (room ev)))
    ++ opt_list (nonempty (description ev)) in
  [ lit "BEGIN:VEVENT";
    lit "UID:fitx-" ++ str_of_Z course_id ++ lit "-" ++ _escape_ics (id ev)
      ++ lit "@local";
    lit "DTSTAMP:" ++ _fmt_dt_utc now;
    lit "DTSTART;TZID=Europe/Berlin:" ++ _fmt_local (start ev);
    lit "DTEND;TZID=Europe/Berlin:" ++ _fmt_local (end_ ev);
    lit "SUMMARY:" ++ _escape_ics (title ev) ]
  ++ match desc_parts with
     | [] => []
     | _ => [lit "DESCRIPTION:" ++ _escape_ics (join [LF] desc_parts)]
     end
  ++ opt_list (option_map (fun s => lit "LOCATION:" ++ _escape_ics s)
                          (nonempty (location ev)))
  ++ [lit "END:VEVENT"].

Definition HEADER : list str :=
  List.map lit
    [ "BEGIN:VCALENDAR"; "PRODID:-//fitx-local//ics//EN"; "VERSION:2.0";
      "CALSCALE:GREGORIAN"; "METHOD:PUBLISH" ]%string.

(** The list [lines] of [generate_ics] before folding. *)
Definition ics_lines (now : Z) (course_id : Z) (events : list CourseEvent)
  : list str :=
  HEADER ++ _vtz_europe_berlin
  ++ flat_map (vevent_lines now course_id) (sorted_by event_leb events)
  ++ [lit "END:VCALENDAR"].

(** The list [folded] of [generate_ics]. *)
Definition folded_lines (lines : list str) : list str :=
  flat_map _fold_line lines.

Definition generate_ics (now : Z) (course_id : Z) (events : list CourseEvent)
  : str :=
  join [CR; LF] (folded_lines (ics_lines now course_id events)) ++ [CR; LF].

(** ** store.py

    The data directory holds two files; a file is absent ([None]) or has a
    byte content.  [atomic_write] writes a temporary file and renames it
    over the target: when any of its steps raises, the target is as it
    was. *)

Record disk : Type := mkDisk {
  cache_json_file : option bytes;
  cache_ics_file : option bytes
}.

Definition read_bytes (p : path) (d : disk) : option bytes :=
  match p with
  | CACHE_ICS => cache_ics_file d
  | CACHE_JSON => cache_json_file d
  end.

Definition ensure_data_dir : result unit :=
  if mkdir_fails then Raise OSError else Ok tt.

Definition atomic_write (p : path) (data : bytes) (d : disk)
  : disk * result unit :=
  if write_fails p data then (d, Raise OSError)
  else
    (match p with
     | CACHE_ICS => mkDisk (cache_json_file d) (Some data)
     | CACHE_JSON => mkDisk (Some data) (cache_ics_file d)
     end, Ok tt).

Definition opt_json (o : option str) : json :=
  match o with
  | Some s => JStr s
  | None => JNull
  end.

Definition event_to_json (e : CourseEvent) : json :=
  JDict [ (lit "id", JStr (id e));
          (lit "title", JStr (title e));
          (lit "start", JStr (isoformat (start e)));
          (lit "end", JStr (isoformat (end_ e)));
          (lit "location", opt_json (location e));
          (lit "instructor", opt_json (instructor e));
          (lit "room", opt_json (room e));
          (lit "description", opt_json (description e)) ].

(** [save_cache]: the disk it leaves and whether it raised.  The JSON file
    is written before the calendar text is encoded. *)
Definition save_cache (events : list CourseEvent) (ics_text : str) (d : disk)
  : disk * result unit :=
  match ensure_data_dir with
  | Raise e => (d, Raise e)
  | Ok _ =>
      let json_payload := JList (List.map event_to_json events) in
      match encode_utf8 (json_dumps json_payload) with
      | None => (d, Raise UnicodeEncodeError)
      | Some jb =>
          match atomic_write CACHE_JSON jb d with
          | (d1, Raise e) => (d1, Raise e)
          | (d1, Ok _) =>
              match encode_utf8 ics_text with
              | None => (d1, Raise UnicodeEncodeError)
              | Some ib => atomic_write CACHE_ICS ib d1
              end
          end
      end
  end.

(** Newline translation of a file opened in text mode with the default
    [newline=None]: each of CR LF, CR and LF reads as LF. *)
Fixpoint universal_newlines (s : str) : str :=
  match s with
  | [] => []
  | c :: t =>
      if char_eqb c CR then
        LF :: match t with
              | [] => []
              | c' :: t' =>
                  if char_eqb c' LF then universal_newlines t'
                  else universal_newlines t
              end
      else c :: universal_newlines t
  end.

(** [p.read_text(encoding="utf-8")] inside [try]; [None] when the file is
    absent or the read raises. *)
Definition read_text (p : path) (d : disk) : option str :=
  match read_bytes p d with
  | None => None
  | Some b => option_map universal_newlines (decode_utf8_strict b)
  end.

(** [for it in raw]: the items a loaded JSON value iterates over. *)
Definition iter_json (raw : json) : option (list json) :=
  match raw with
  | JList l => Some l
  | JDict d => Some (List.map (fun kv => JStr (fst kv)) d)
  | JStr s => Some (List.map (fun c => JStr [c]) s)
  | _ => None
  end.

(** A [CourseEvent] as [load_cache] builds it.  The dataclass does not
    check the declared field types, and [load_cache] passes
    [it.get("location")] and the like through as they are: an optional
    field holds whatever JSON value the file gives, [null] read as
    [None]. *)
Record CachedEvent : Type := mkCached {
  cached_id : str;
  cached_title : str;
  cached_start : datetime;
  cached_end : datetime;
  cached_location : json;
  cached_instructor : json;
  cached_room : json;
  cached_description : json
}.

(** An optional field read back with [it.get(name)]. *)
Definition load_optional (it : list (str * json)) (name : string) : json :=
  get it name.

Definition load_datetime (it : list (str * json)) (name : string)
  : option datetime :=
  match dict_get it (lit name) with
  | Some (JStr s) =>
      match fromisoformat s with
      | Some r => astimezone_berlin r
      | None => None
      end
  | _ => None
  end.

Definition get_default (it : list (str * json)) (name : string) (dflt : json)
  : json :=
  match dict_get it (lit name) with
  | Some v => v
  | None => dflt
  end.

(** One turn of the loop of [load_cache]; [None] when it raises ([it] is
    not a dict, or [start] or [end] is missing or is not an ISO text). *)
Definition load_event (it : json) : option CachedEvent :=
  match it with
  | JDict d =>
      match load_datetime d "start", load_datetime d "end" with
      | Some s, Some e =>
          Some (mkCached (py_str (get_default d "id" (JStr [])))
                         (py_str (get_default d "title" (JStr [])))
                         s e
                         (load_optional d "location")
                         (load_optional d "instructor")
                         (load_optional d "room")
                         (load_optional d "description"))
      | _, _ => None
      end
  | _ => None
  end.

Fixpoint load_events (items : list json) : option (list CachedEvent) :=
  match items with
  | [] => Some []
  | it :: rest =>
      match load_event it, load_events rest with
      | Some e, Some es => Some (e :: es)
      | _, _ => None
      end
  end.

Definition load_cache (d : disk) : option str * option (list CachedEvent) :=
  let ics_text := read_text CACHE_ICS d in
  let events :=
    match read_text CACHE_JSON d with
    | None => None
    | Some text =>
        match json_loads text with
        | None => None
        | Some raw =>
            match iter_json raw with
            | None => None
            | Some items => load_events items
            end
        end
    end in
  (ics_text, events).

(** ** fetcher.py

    The network is the outcome of each successive GET: the response body
    with its content-type header, or [None] when the attempt raises. *)

Definition network : Type := nat -> option (bytes * option str).

Fixpoint fetch_attempts (net : network) (attempt : nat) (left : nat)
  : result (bytes * option str) :=
  match left with
  | O => Raise (RuntimeError (lit "Failed to fetch FitX schedule after 3 attempts"))
  | S n =>
      match net attempt with
      | Some resp => Ok resp
      | None => fetch_attempts net (S attempt) n
      end
  end.

Definition fetch_course_page (net : network) : result (bytes * option str) :=
  fetch_attempts net O 3.

(** ** main.py *)

Definition _default_excludes : str := lit "booty x,xamba,x step,fatburn x".

Definition _parse_exclude_keywords (raw : str) : list str :=
  let items := List.map (fun s => str_lower (strip s)) (split_on COMMA raw) in
  filter (fun s => match s with [] => false | _ => true end) items.

Record config : Type := mkConfig {
  FITX_COURSE_ID : Z;
  EXCLUDE_KEYWORDS : list str
}.

(** The shared state of the service: the in-memory pair and the data
    directory. *)
Record world : Type := mkWorld {
  cache_ics : option str;
  cache_events : option (list CourseEvent);
  files : disk
}.

(** The steps of a refresh cycle, recorded as they start. *)
Inductive step : Type :=
| StepFetch | StepParse | StepFilter | StepRender | StepPersist | StepSwap.

(** [[e for (e, t) in lowered if not any(k in t for k in EXCLUDE_KEYWORDS)]] *)
Definition keep_event (keywords : list str) (e : CourseEvent) : bool :=
  negb (existsb (fun k => contains k (str_lower (title e))) keywords).

Definition filter_events (keywords : list str) (events : list CourseEvent)
  : list CourseEvent :=
  match keywords with
  | [] => events
  | _ => filter (keep_event keywords) events
  end.

Definition _update_cache (events : list CourseEvent) (ics_text : str)
  (w : world) : world * list step :=
  match save_cache events ics_text (files w) with
  | (d, Raise _) => (mkWorld (cache_ics w) (cache_events w) d, [StepPersist])
  | (d, Ok _) => (mkWorld (Some ics_text) (Some events) d, [StepPersist; StepSwap])
  end.

(** [_refresh_once]: every exception is caught and logged; the result is
    the world after the cycle and the steps the cycle started. *)
Definition _refresh_once (cfg : config) (net : network) (now : Z) (w : world)
  : world * list step :=
  match fetch_course_page net with
  | Raise _ => (w, [StepFetch])
  | Ok (data, content_type) =>
      match parse_schedule data content_type with
      | Raise _ => (w, [StepFetch; StepParse])
      | Ok events =>
          let events := filter_events (EXCLUDE_KEYWORDS cfg) events in
          let ics_text := generate_ics now (FITX_COURSE_ID cfg) events in
          let '(w', steps) := _update_cache events ics_text w in
          (w', [StepFetch; StepParse; StepFilter; StepRender] ++ steps)
      end
  end.

(** [GET /calendar.ics]: the response body. *)
Definition calendar (cfg : config) (now : Z) (w : world) : str :=
  match cache_ics w with
  | Some (c :: s) => c :: s
  | _ =>
      generate_ics now (FITX_COURSE_ID cfg)
        (match cache_events w with
         | Some (e :: es) => e :: es
         | _ => []
         end)
  end.

End Sources.

(* ===================================================================== *)
(** * Part IV: a reference library                                        *)
(* ===================================================================== *)

(** An executable instance of [PyLib], used to run the sources on concrete
    inputs.  It covers what the examples need: ASCII case mapping and
    integer literals, JSON without floats and [\u] escapes, the extended ISO
    format [YYYY-MM-DDTHH:MM:SS[+HH:MM]], and the Europe/Berlin rules in
    force since 1996 (summer time from the last Sunday of March, 01:00 UTC,
    to the last Sunday of October, 01:00 UTC).  The theorems of Part VI hold
    for every instance. *)

Module Ref.

Definition is_digit (c : char) : bool := ((48 <=? c) && (c <=? 57))%N.

Definition digit_val (c : char) : Z := Z.of_N c - 48.

Definition number_of (ds : str) : Z :=
  fold_left (fun acc c => acc * 10 + digit_val c) ds 0.

Definition all_digits (ds : str) : bool :=
  match ds with
  | [] => false
  | _ => forallb is_digit ds
  end.

Definition int_of_str (s : str) : option Z :=
  match strip s with
  | 45%N :: ds => if all_digits ds then Some (- number_of ds) else None
  | 43%N :: ds => if all_digits ds then Some (number_of ds) else None
  | ds => if all_digits ds then Some (number_of ds) else None
  end.

Definition unicode_lower (s : str) : str := List.map ascii_lower s.

(** Calendar arithmetic. *)
Definition days_before_year (y : Z) : Z :=
  let p := y - 1 in p * 365 + p / 4 - p / 100 + p / 400.

Definition ymd2ord (y m d : Z) : Z :=
  days_before_year y + days_before_month y m + d.

Definition valid_date (y m d : Z) : bool :=
  (1 <=? y) && (y <=? 9999) && (1 <=? m) && (m <=? 12) &&
  (1 <=? d) && (d <=? days_in_month y m).

Definition HOUR : Z := 3600000000.

(** Last Sunday of month [m] (31 days) of year [y], 01:00 UTC. *)
Definition last_sunday_1am (y m : Z) : Z :=
  let o := ymd2ord y m 31 in
  let o := o - (((o + 6) mod 7 + 1) mod 7) in
  (o - 1) * US_PER_DAY + HOUR.

Definition year_of_wall (w : Z) : Z :=
  let '(y, _, _) := ord2ymd (w / US_PER_DAY + 1) in y.

Definition offset_at_utc (u : Z) : Z :=
  let y := year_of_wall u in
  if (last_sunday_1am y 3 <=? u) && (u <? last_sunday_1am y 10)
  then 2 * HOUR else HOUR.

Definition berlin_fromutc (u : Z) : option datetime :=
  let w := u + offset_at_utc u in
  let y := year_of_wall u in
  let e := last_sunday_1am y 10 in
  if wall_in_range w
  then Some (mkdt w ((e <=? u) && (u <? e + HOUR)))
  else None.

(** [dt.utcoffset()] for a Berlin datetime, gap and fold included. *)
Definition utcoffset (dt : datetime) : Z :=
  let w := wall dt in
  let y := year_of_wall w in
  let s := last_sunday_1am y 3 + HOUR in
  let e := last_sunday_1am y 10 + 2 * HOUR in
  if w <? s then HOUR
  else if w <? s + HOUR then (if fold dt then 2 * HOUR else HOUR)
  else if w <? e - HOUR then 2 * HOUR
  else if w <? e then (if fold dt then HOUR else 2 * HOUR)
  else HOUR.

Definition timestamp_int (dt : datetime) : Z :=
  Z.quot (wall dt - utcoffset dt - EPOCH_WALL) 1000000.

Definition fromtimestamp_ms (ms : Z) : option Z :=
  let w := EPOCH_WALL + ms * 1000 in
  if wall_in_range w then Some w else None.

Definition astimezone_naive (w : Z) : option datetime := Some (mkdt w false).

(** Fixed-width decimal fields. *)
Definition field (ds : str) : option Z :=
  if all_digits ds then Some (number_of ds) else None.

Definition parse_offset (s : str) : option (option Z) :=
  match s with
  | [] => Some None
  | [sg; h1; h2; 58%N; m1; m2] =>
      match field [h1; h2], field [m1; m2] with
      | Some h, Some m =>
          if (h <? 24) && (m <? 60) then
            let off := h * HOUR + m * 60000000 in
            if (sg =? 43)%N then Some (Some off)
            else if (sg =? 45)%N then Some (Some (- off))
            else None
          else None
      | _, _ => None
      end
  | _ => None
  end.

Definition fromisoformat (s : str) : option rawdt :=
  match s with
  | y1 :: y2 :: y3 :: y4 :: 45%N :: mo1 :: mo2 :: 45%N :: d1 :: d2 :: 84%N
      :: h1 :: h2 :: 58%N :: mi1 :: mi2 :: 58%N :: s1 :: s2 :: rest =>
      match field [y1; y2; y3; y4], field [mo1; mo2], field [d1; d2],
            field [h1; h2], field [mi1; mi2], field [s1; s2],
            parse_offset rest with
      | Some y, Some mo, Some d, Some h, Some mi, Some se, Some off =>
          if valid_date y mo d && (h <? 24) && (mi <? 60) && (se <? 60)
          then Some (mkraw ((ymd2ord y mo d - 1) * US_PER_DAY
                            + ((h * 60 + mi) * 60 + se) * 1000000) off)
          else None
      | _, _, _, _, _, _, _ => None
      end
  | _ => None
  end.

Definition strptime (s fmt : str) : option rawdt := None.

Definition isoformat (dt : datetime) : str :=
  let w := wall dt in
  let '(y, m, d) := ord2ymd (w / US_PER_DAY + 1) in
  let secs := (w mod US_PER_DAY) / 1000000 in
  let us := w mod 1000000 in
  let off := utcoffset dt / 60000000 in
  zero_pad 4 y ++ lit "-" ++ zero_pad 2 m ++ lit "-" ++ zero_pad 2 d
  ++ lit "T" ++ zero_pad 2 (secs / 3600) ++ lit ":"
  ++ zero_pad 2 ((secs / 60) mod 60) ++ lit ":" ++ zero_pad 2 (secs mod 60)
  ++ (if us =? 0 then [] else lit "." ++ zero_pad 6 us)
  ++ lit "+" ++ zero_pad 2 (off / 60) ++ lit ":" ++ zero_pad 2 (off mod 60).

(** A JSON reader: objects, arrays, strings with the one-character
    escapes, integers and the three literals. *)
Definition QUOTE : char := 34%N.

Fixpoint skip_ws (s : str) : str :=
  match s with
  | c :: t =>
      if ((c =? 32) || (c =? 9) || (c =? 10) || (c =? 13))%N
      then skip_ws t else s
  | [] => []
  end.

Definition unescape (c : char) : option char :=
  (if (c =? 34) || (c =? 92) || (c =? 47) then Some c
   else if c =? 110 then Some 10
   else if c =? 114 then Some 13
   else if c =? 116 then Some 9
   else None)%N.

Fixpoint string_body (esc : bool) (acc : str) (s : str) : option (str * str) :=
  match s with
  | [] => None
  | c :: t =>
      if esc then
        match unescape c with
        | Some c' => string_body false (c' :: acc) t
        | None => None
        end
      else if (c =? 34)%N then Some (rev acc, t)
      else if (c =? 92)%N then string_body true acc t
      else if (c <? 32)%N then None
      else string_body false (c :: acc) t
  end.

Fixpoint span_digits (s : str) : str * str :=
  match s with
  | c :: t =>
      if is_digit c then let '(ds, r) := span_digits t in (c :: ds, r)
      else ([], s)
  | [] => ([], [])
  end.

Definition ends_number (r : str) : bool :=
  match r with
  | c :: _ => negb ((c =? 46) || (c =? 101) || (c =? 69))%N
  | [] => true
  end.

Definition parse_number (neg : bool) (s : str) : option (json * str) :=
  let '(ds, r) := span_digits s in
  match ds with
  | [] => None
  | 48%N :: _ :: _ => None
  | _ =>
      if ends_number r
      then Some (JInt (if neg then - number_of ds else number_of ds), r)
      else None
  end.

(** A later duplicate of a key replaces the value and keeps the position. *)
Fixpoint dict_put (d : list (str * json)) (k : str) (v : json)
  : list (str * json) :=
  match d with
  | [] => [(k, v)]
  | (k', v') :: t =>
      if str_eqb k' k then (k', v) :: t else (k', v') :: dict_put t k v
  end.

Fixpoint parse_value (fuel : nat) (s : str) : option (json * str) :=
  match fuel with
  | O => None
  | S f =>
      match skip_ws s with
      | [] => None
      | c :: t =>
          if (c =? 34)%N then
            match string_body false [] t with
            | Some (v, r) => Some (JStr v, r)
            | None => None
            end
          else if (c =? 123)%N then
            match skip_ws t with
            | 125%N :: r => Some (JDict [], r)
            | _ => parse_members f [] t
            end
          else if (c =? 91)%N then
            match skip_ws t with
            | 93%N :: r => Some (JList [], r)
            | _ => parse_elems f [] t
            end
          else if (c =? 45)%N then parse_number true t
          else if is_digit c then parse_number false (c :: t)
          else
            match strip_prefix (lit "null") (c :: t),
                  strip_prefix (lit "true") (c :: t),
                  strip_prefix (lit "false") (c :: t) with
            | Some r, _, _ => Some (JNull, r)
            | _, Some r, _ => Some (JBool true, r)
            | _, _, Some r => Some (JBool false, r)
            | _, _, _ => None
            end
      end
  end
with parse_elems (fuel : nat) (acc : list json) (s : str)
  : option (json * str) :=
  match fuel with
  | O => None
  | S f =>
      match parse_value f s with
      | None => None
      | Some (v, r) =>
          match skip_ws r with
          | 44%N :: r' => parse_elems f (v :: acc) r'
          | 93%N :: r' => Some (JList (rev (v :: acc)), r')
          | _ => None
          end
      end
  end
with parse_members (fuel : nat) (acc : list (str * json)) (s : str)
  : option (json * str) :=
  match fuel with
  | O => None
  | S f =>
      match skip_ws s with
      | 34%N :: t =>
          match string_body false [] t with
          | None => None
          | Some (k, r) =>
              match skip_ws r with
              | 58%N :: r1 =>
                  match parse_value f r1 with
                  | None => None
                  | Some (v, r2) =>
                      match skip_ws r2 with
                      | 44%N :: r3 => parse_members f (dict_put acc k v) r3
                      | 125%N :: r3 => Some (JDict (dict_put acc k v), r3)
                      | _ => None
                      end
                  end
              | _ => None
              end
          end
      | _ => None
      end
  end.

Definition json_loads (s : str) : option json :=
  match parse_value (S (List.length s)) s with
  | Some (v, r) => match skip_ws r with [] => Some v | _ => None end
  | None => None
  end.

(** The matching writer, with the layout of [indent=2]. *)
Definition dump_string (s : str) : str :=
  [QUOTE]
  ++ flat_map (fun c => (if (c =? 34) || (c =? 92) then [92; c]
                         else if c =? 10 then [92; 110]
                         else if c =? 13 then [92; 114]
                         else if c =? 9 then [92; 116]
                         else [c])%N) s
  ++ [QUOTE].

Definition newline_indent (level : nat) : str :=
  10%N :: repeat 32%N (2 * level).

Fixpoint dumps_at (level : nat) (v : json) : str :=
  match v with
  | JNull => lit "null"
  | JBool true => lit "true"
  | JBool false => lit "false"
  | JInt n => str_of_Z n
  | JFloat _ => lit "NaN"
  | JStr s => dump_string s
  | JList [] => lit "[]"
  | JList l =>
      lit "["
      ++ (fix items (first : bool) (vs : list json) : str :=
            match vs with
            | [] => []
            | x :: rest =>
                (if first then [] else lit ",")
                ++ newline_indent (S level) ++ dumps_at (S level) x
                ++ items false rest
            end) true l
      ++ newline_indent level ++ lit "]"
  | JDict [] => lit "{}"
  | JDict d =>
      lit "{"
      ++ (fix items (first : bool) (kvs : list (str * json)) : str :=
            match kvs with
            | [] => []
            | (k, x) :: rest =>
                (if first then [] else lit ",")
                ++ newline_indent (S level) ++ dump_string k ++ lit ": "
                ++ dumps_at (S level) x ++ items false rest
            end) true d
      ++ newline_indent level ++ lit "}"
  end.

Definition json_dumps (v : json) : str := dumps_at O v.

Definition repr_value (v : json) : str :=
  match v with
  | JList [] => lit "[]"
  | JDict [] => lit "{}"
  | _ => lit "<object>"
  end.

(** A page offers no script element, and the parser accepts every page. *)
Definition find_all_script (text : str) : option (list script) := Some [].

(** The data directory can be made and every write succeeds. *)
#[export] Instance lib : PyLib :=
  Build_PyLib unicode_lower int_of_str repr_value json_loads json_dumps
    find_all_script fromisoformat strptime berlin_fromutc astimezone_naive
    fromtimestamp_ms timestamp_int isoformat false (fun _ _ => false).

(** The same library on a system where the calendar file cannot be
    written, and with a parser that rejects every marked section
    [<![ ... ]>]. *)
Definition faulty : PyLib :=
  Build_PyLib unicode_lower int_of_str repr_value json_loads json_dumps
    (fun text => if contains (lit "<![") text then None else Some [])
    fromisoformat strptime berlin_fromutc astimezone_naive
    fromtimestamp_ms timestamp_int isoformat false
    (fun p _ => match p with CACHE_ICS => true | CACHE_JSON => false end).

End Ref.

(* ===================================================================== *)
(** * Part V: what the specification says, as definitions                 *)
(* ===================================================================== *)

(** Escaping as the specification words it: one pass over the text in
    which a backslash, a semicolon, a comma, a CR LF pair and a lone LF are
    each replaced by their escape and every other character is kept. *)
Fixpoint escape_spec (s : str) : str :=
  match s with
  | [] => []
  | c :: t =>
      if char_eqb c BACKSLASH then BACKSLASH :: BACKSLASH :: escape_spec t
      else if char_eqb c SEMICOLON then BACKSLASH :: SEMICOLON :: escape_spec t
      else if char_eqb c COMMA then BACKSLASH :: COMMA :: escape_spec t
      else if char_eqb c LF then BACKSLASH :: LOWER_N :: escape_spec t
      else if char_eqb c CR then
        match t with
        | [] => [CR]
        | c' :: t' =>
            if char_eqb c' LF then BACKSLASH :: LOWER_N :: escape_spec t'
            else CR :: escape_spec t
        end
      else c :: escape_spec t
  end.

Definition is_control (c : char) : bool := (c <? 32)%N || (c =? 127)%N.

(** The only control characters of [s] are line feeds, alone or after a
    carriage return. *)
Fixpoint only_newline_controls (s : str) : bool :=
  match s with
  | [] => true
  | c :: t =>
      if char_eqb c CR then
        match t with
        | c' :: t' => char_eqb c' LF && only_newline_controls t'
        | [] => false
        end
      else (negb (is_control c) || char_eqb c LF) && only_newline_controls t
  end.

(** [k] occurs in [t] as a substring. *)
Definition substring (k t : str) : Prop :=
  exists pre post, t = pre ++ k ++ post.

(** Unfolding a folded line: one leading space is taken off every
    continuation line and the pieces are joined. *)
Definition strip_one_space (l : str) : str :=
  match l with
  | c :: t => if char_eqb c SPACE then t else l
  | [] => []
  end.

Definition unfold_lines (physical : list str) : str :=
  match physical with
  | [] => []
  | first :: continuation => first ++ List.concat (List.map strip_one_space continuation)
  end.

(** ** The passes of [_escape_ics] and the lines of a document *)

Definition replace_char (a : char) (new : str) (c : char) : str :=
  if char_eqb a c then new else [c].

(** Replacement of the pair CR LF, as a recursion on the text. *)
Fixpoint replace_crlf (new s : str) : str :=
  match s with
  | [] => []
  | c :: t =>
      if char_eqb c CR then
        match t with
        | [] => [c]
        | c' :: t' =>
            if char_eqb c' LF then new ++ replace_crlf new t'
            else c :: replace_crlf new t
        end
      else c :: replace_crlf new t
  end.

Definition NEWLINE_ESCAPE : str := [BACKSLASH; LOWER_N].

(** What the first three replacements make of one character. *)
Definition pre_pass (c : char) : str :=
  flat_map (replace_char COMMA [BACKSLASH; COMMA])
    (flat_map (replace_char SEMICOLON [BACKSLASH; SEMICOLON])
       (replace_char BACKSLASH [BACKSLASH; BACKSLASH] c)).

Definition passes (s : str) : str :=
  flat_map (replace_char LF NEWLINE_ESCAPE)
    (replace_crlf NEWLINE_ESCAPE (flat_map pre_pass s)).

Definition continuation_line (l : str) : Prop := exists r, l = SPACE :: r.

Definition BEGIN_VEVENT : str := lit "BEGIN:VEVENT".

Definition is_begin_vevent (l : str) : bool := str_eqb l BEGIN_VEVENT.

(** The number of event blocks among some lines. *)
Definition vevent_blocks (lines : list str) : nat :=
  List.length (filter is_begin_vevent lines).

(** The physical lines of a document: [text.split("\r\n")]. *)
Definition push_char (c : char) (ls : list str) : list str :=
  match ls with
  | [] => [[c]]
  | w :: ws => (c :: w) :: ws
  end.

Fixpoint split_crlf (s : str) : list str :=
  match s with
  | [] => [[]]
  | c :: t =>
      if char_eqb c CR then
        match t with
        | c' :: t' =>
            if char_eqb c' LF then [] :: split_crlf t'
            else push_char c (split_crlf t)
        | [] => [[c]]
        end
      else push_char c (split_crlf t)
  end.

(** [s] holds no line feed. *)
Definition no_lf (s : str) : Prop := ~ In LF s.

(** [a] and [b] have equal sort keys under the key order [leb]. *)
Definition tied {A} (leb : A -> A -> bool) (a b : A) : bool :=
  leb a b && leb b a.

(** ** Durations and the deduplication dictionary *)

Section SpecDefs.

Context {L : PyLib}.

(** The value under [k] counts as a duration: present and accepted by
    [int()]. *)
Definition usable_duration (it : list (str * json)) (k : string) (d : Z) : Prop :=
  get it k <> JNull /\ py_int (get it k) = Some d.

Definition unusable_duration (it : list (str * json)) (k : string) : Prop :=
  get it k = JNull \/ py_int (get it k) = None.

(** [d] is the duration under the first key, in the order of
    [DURATION_KEYS], whose value is present and accepted by [int()]. *)
Definition duration_found (it : list (str * json)) (d : Z) : Prop :=
  exists before k after,
    DURATION_KEYS = before ++ k :: after /\
    Forall (unusable_duration it) before /\
    usable_duration it k d.

Definition no_duration (it : list (str * json)) : Prop :=
  Forall (unusable_duration it) DURATION_KEYS.

(** The outcome of [coerce_event] when the end is [m] minutes after the
    start [s]: the event, or the overflow of the addition. *)
Definition ends_after (it : list (str * json)) (s : datetime) (m : Z) : Prop :=
  match add_minutes s m with
  | Ok e => exists ev, coerce_event it = Ok (Some ev) /\ start ev = s /\ end_ ev = e
  | Raise x => coerce_event it = Raise x
  end.

(** The claim as worded: the duration is read under the first present key,
    and a value [int()] rejects, or no present key, gives 60 minutes. *)
Fixpoint first_present (it : list (str * json)) (keys : list string)
  : option json :=
  match keys with
  | [] => None
  | k :: rest =>
      match get it k with
      | JNull => first_present it rest
      | v => Some v
      end
  end.

Definition claimed_minutes (it : list (str * json)) : Z :=
  match first_present it DURATION_KEYS with
  | Some v => match py_int v with Some d => d | None => 60 end
  | None => 60
  end.

Definition end_as_claimed (it : list (str * json)) : Prop :=
  forall s ev,
    first_datetime it START_KEYS = Some s ->
    (forall k, In k END_KEYS -> parse_any_datetime (get it k) = None) ->
    coerce_event it = Ok (Some ev) ->
    wall (end_ ev) = wall s + claimed_minutes it * 60000000.

(** The key as the specification words it: the id with the integer epoch
    seconds of start and of end. *)
Definition claimed_key (e : CourseEvent) : str * Z * Z :=
  (id e, timestamp_int (start e), timestamp_int (end_ e)).

(** [e] is the last event of [events], in extraction order, with its
    claimed key. *)
Definition last_with_claimed_key (events : list CourseEvent) (e : CourseEvent)
  : Prop :=
  exists l1 l2,
    events = l1 ++ e :: l2 /\
    forall e', In e' l2 -> claimed_key e' <> claimed_key e.

(** [e] is the last event of [events] with its key. *)
Definition last_with_key (events : list CourseEvent) (e : CourseEvent) : Prop :=
  exists l1 l2,
    events = l1 ++ e :: l2 /\
    forall e', In e' l2 -> event_key e' <> event_key e.

(** The dictionary [uniq] after the loop has gone through [seen]. *)
Definition uniq_inv (seen : list CourseEvent)
  (u : list (dedup_key * CourseEvent)) : Prop :=
  NoDup (List.map fst u) /\
  (forall k e, In (k, e) u -> k = event_key e /\ last_with_key seen e) /\
  (forall e, In e seen -> In (event_key e) (List.map fst u)).

End SpecDefs.

(** ** Concrete inputs *)

Definition ten_oclock : datetime := mkdt 63852832800000000 false.

Definition titled (t : string) : CourseEvent :=
  mkEvent (lit t) (lit t) (mkdt EPOCH_WALL false) (mkdt EPOCH_WALL false)
          None None None None.

Definition record_zero_duration : list (str * json) :=
  [ (lit "start", JStr (lit "2024-06-01T10:00:00+02:00"));
    (lit "duration", JInt 0) ].

Definition record_rejected_duration : list (str * json) :=
  [ (lit "start", JStr (lit "2024-06-01T10:00:00+02:00"));
    (lit "duration", JStr (lit "abc"));
    (lit "length", JInt 30) ].

Definition record_no_duration : list (str * json) :=
  [ (lit "start", JStr (lit "2024-06-01T10:00:00+02:00")) ].

Definition yoga_a : CourseEvent :=
  mkEvent (lit "a") (lit "Yoga Flow") ten_oclock
          (mkdt 63852836400000000 false) None None None None.

Definition yoga_b : CourseEvent :=
  mkEvent (lit "b") (lit "Yoga Flow") ten_oclock
          (mkdt 63852836400000000 false) None None None None.

(** A second session of the course of [yoga_a], at noon of the same day. *)
Definition yoga_noon : CourseEvent :=
  mkEvent (lit "a") (lit "Yoga Flow") (mkdt 63852840000000000 false)
          (mkdt 63852843600000000 false) None None None None.

Definition pilates : CourseEvent :=
  mkEvent (lit "c") (lit "Pilates") ten_oclock
          (mkdt 63852836400000000 false) None None None None.

Definition yoga_studio_1 : CourseEvent :=
  mkEvent (lit "a") (lit "Yoga Flow") ten_oclock
          (mkdt 63852836400000000 false) (Some (lit "Studio 1")) None None None.

Definition yoga_studio_2 : CourseEvent :=
  mkEvent (lit "a") (lit "Yoga Flow") ten_oclock
          (mkdt 63852836400000000 false) (Some (lit "Studio 2")) None None None.

(** JSON text written with apostrophes for the quotation marks. *)
Definition json_bytes (s : string) : bytes :=
  List.map (fun b => match b with x27 => x22 | _ => b end) (blit s).

Definition default_config : config :=
  mkConfig 53 (_parse_exclude_keywords (L:=Ref.lib) _default_excludes).

Definition empty_world : world := mkWorld None None (mkDisk None None).

Definition stale_world : world :=
  mkWorld (Some (lit "BEGIN:VCALENDAR")) (Some [pilates]) (mkDisk None None).

Definition net_down : network := fun _ => None.

Definition net_serving (data : bytes) (content_type : string) : network :=
  fun _ => Some (data, Some (lit content_type)).

Definition two_courses : bytes :=
  json_bytes "{'events': [{'id': 7, 'start': '2024-06-01T10:00:00+02:00', 'title': 'Booty X Class'}, {'id': 8, 'start': '2024-06-01T12:00:00+02:00', 'title': 'Yoga Flow'}]}".

(** ** main.py: startup and the manual refresh *)

(** The answer of [POST /refresh]: 401, or 200 with the event count. *)
Inductive refresh_response : Type :=
| Unauthorized
| RefreshOk (events : nat).

(** [if REFRESH_TOKEN: if not x_refresh_token or x_refresh_token !=
    REFRESH_TOKEN: raise HTTPException(401)] *)
Definition refresh_denied (REFRESH_TOKEN x_refresh_token : option str) : bool :=
  match REFRESH_TOKEN with
  | Some (c :: t) =>
      match x_refresh_token with
      | Some (h :: hs) => negb (str_eqb (h :: hs) (c :: t))
      | _ => true
      end
  | _ => false
  end.

(** The in-memory pair and the files when the service has started.  The
    events are those of [load_cache], with unchecked optional fields. *)
Record started : Type := mkStarted {
  started_ics : option str;
  started_events : option (list CachedEvent);
  started_files : disk
}.

(** A [CourseEvent] of the parser, seen as [load_cache] would build it. *)
Definition cached_of (e : CourseEvent) : CachedEvent :=
  mkCached (id e) (title e) (start e) (end_ e)
           (opt_json (location e)) (opt_json (instructor e))
           (opt_json (room e)) (opt_json (description e)).

(** [(a.start, a.title) <= (b.start, b.title)] *)
Definition cached_leb (a b : CachedEvent) : bool :=
  if wall (cached_start a) <? wall (cached_start b) then true
  else if wall (cached_start b) <? wall (cached_start a) then false
  else str_leb (cached_title a) (cached_title b).

(** [sep.join(parts)]: an item that is not a [str] raises [TypeError]. *)
Fixpoint str_items (parts : list json) : result (list str) :=
  match parts with
  | [] => Ok []
  | JStr s :: rest => strs <- str_items rest ;; Ok (s :: strs)
  | _ :: _ => Raise TypeError
  end.

(** [_escape_ics(v)]: [v.replace] exists on a [str] only. *)
Definition escape_value (v : json) : result str :=
  match v with
  | JStr s => Ok (_escape_ics s)
  | _ => Raise AttributeError
  end.

Fixpoint collect {A B} (f : A -> result (list B)) (l : list A)
  : result (list B) :=
  match l with
  | [] => Ok []
  | a :: rest => b <- f a ;; bs <- collect f rest ;; Ok (b ++ bs)
  end.

Section Service.

Context {L : PyLib}.

(** The body of the loop of [generate_ics] on an event of the cache: the
    tests [if ev.instructor:], [if ev.room:], [if ev.description:] and
    [if ev.location:] are truth tests, an f-string formats any value with
    [str()], and only [join] and [_escape_ics] need a [str]. *)
Definition cached_desc_parts (ev : CachedEvent) : list json :=
  (if truthy (cached_instructor ev)
   then [JStr (lit "Instructor: " ++ py_str (cached_instructor ev))] else [])
  ++ (if truthy (cached_room ev)
      then [JStr (lit "Room: " ++ py_str (cached_room ev))] else [])
  ++ (if truthy (cached_description ev) then [cached_description ev] else []).

Definition cached_desc_line (ev : CachedEvent) : result (list str) :=
  match cached_desc_parts ev with
  | [] => Ok []
  | parts =>
      strs <- str_items parts ;;
      Ok [lit "DESCRIPTION:" ++ _escape_ics (join [LF] strs)]
  end.

Definition cached_location_line (ev : CachedEvent) : result (list str) :=
  if truthy (cached_location ev)
  then v <- escape_value (cached_location ev) ;; Ok [lit "LOCATION:" ++ v]
  else Ok [].

Definition cached_vevent_lines (now : Z) (course_id : Z) (ev : CachedEvent)
  : result (list str) :=
  desc <- cached_desc_line ev ;;
  loc <- cached_location_line ev ;;
  Ok ([ lit "BEGIN:VEVENT";
        lit "UID:fitx-" ++ str_of_Z course_id ++ lit "-"
          ++ _escape_ics (cached_id ev) ++ lit "@local";
        lit "DTSTAMP:" ++ _fmt_dt_utc now;
        lit "DTSTART;TZID=Europe/Berlin:" ++ _fmt_local (cached_start ev);
        lit "DTEND;TZID=Europe/Berlin:" ++ _fmt_local (cached_end ev);
        lit "SUMMARY:" ++ _escape_ics (cached_title ev) ]
      ++ desc ++ loc ++ [lit "END:VEVENT"]).

(** [generate_ics] on the events of the cache; it raises where the loop
    meets a description or a location that is true and not a [str]. *)
Definition generate_ics_cached (now : Z) (course_id : Z)
  (events : list CachedEvent) : result str :=
  body <- collect (cached_vevent_lines now course_id)
                  (sorted_by cached_leb events) ;;
  Ok (join [CR; LF]
        (folded_lines (HEADER ++ _vtz_europe_berlin ++ body
                       ++ [lit "END:VCALENDAR"]))
      ++ [CR; LF]).

(** [on_startup], as far as the shared state goes: the data directory is
    made (outside any [try]) and what [load_cache] reads becomes the
    in-memory pair. *)
Definition on_startup (d : disk) : result started :=
  _ <- ensure_data_dir ;;
  let '(ics_text, events) := load_cache d in
  Ok (mkStarted ics_text events d).

(** [GET /calendar.ics] in the state the service starts with; an exception
    of [generate_ics] leaves the handler. *)
Definition calendar_started (cfg : config) (now : Z) (s : started)
  : result str :=
  match started_ics s with
  | Some (c :: t) => Ok (c :: t)
  | _ =>
      generate_ics_cached now (FITX_COURSE_ID cfg)
        (match started_events s with
         | Some (e :: es) => e :: es
         | _ => []
         end)
  end.

Definition refresh (REFRESH_TOKEN x_refresh_token : option str) (cfg : config)
  (net : network) (now : Z) (w : world) : world * refresh_response :=
  if refresh_denied REFRESH_TOKEN x_refresh_token then (w, Unauthorized)
  else
    let w' := fst (_refresh_once cfg net now w) in
    (w', RefreshOk (List.length (match cache_events w' with
                                 | Some events => events
                                 | None => []
                                 end))).

(** A datetime that [isoformat] writes and [fromisoformat] followed by
    [astimezone(tz)] reads back. *)
Definition reads_back (dt : datetime) : Prop :=
  exists r, fromisoformat (isoformat dt) = Some r /\ astimezone_berlin r = Some dt.

End Service.

(** A calendar text that UTF-8 cannot encode: a lone surrogate. *)
Definition lone_surrogate : str := [55296%N].


(** ** Vocabulary of the further properties *)

(** Reading an escaped property value back (RFC 5545, TEXT): a backslash
    with [n] or [N] is a line feed, a backslash with any other character is
    that character. *)
Fixpoint unescape_ics (s : str) : str :=
  match s with
  | [] => []
  | c :: t =>
      if char_eqb c BACKSLASH then
        match t with
        | [] => [c]
        | c' :: t' =>
            if char_eqb c' LOWER_N || char_eqb c' 78%N
            then LF :: unescape_ics t'
            else c' :: unescape_ics t'
        end
      else c :: unescape_ics t
  end.

(** The values directly inside a list or a dict, and the values anywhere
    inside a value. *)
Inductive child : json -> json -> Prop :=
| child_item (l : list json) (v : json) : In v l -> child (JList l) v
| child_value (d : list (str * json)) (k : str) (v : json) :
    In (k, v) d -> child (JDict d) v.

Inductive within (root : json) : json -> Prop :=
| within_root : within root root
| within_child (a b : json) : within root a -> child a b -> within root b.

(** The record [it] is a dict item of a list that the dict [d] holds under
    one of the event keys. *)
Definition listed (d it : list (str * json)) : Prop :=
  exists k l,
    In k EVENT_KEYS /\ dict_get d (lit k) = Some (JList l) /\ In (JDict it) l.

(** A candidate of the permissive scan: [open], a body without [close], and
    [close]. *)
Definition bracketed (open close : char) (chunk : str) : Prop :=
  exists body, chunk = open :: body ++ [close] /\ ~ In close body.

(** An optional field is absent or not empty. *)
Definition absent_or_nonempty (o : option str) : Prop :=
  o = None \/ exists c s, o = Some (c :: s).

Definition blank_char (c : char) : bool := char_eqb c COMMA || is_space c.




Definition events_or_nil (o : option (list CourseEvent)) : list CourseEvent :=
  match o with
  | Some events => events
  | None => []
  end.

(* ===================================================================== *)
(** * Part VI: theorems                                                   *)
(* ===================================================================== *)

(** ** Strings *)

Lemma char_eqb_eq (a b : char) : char_eqb a b = true <-> a = b.
Proof. apply N.eqb_eq. Qed.

Lemma char_eqb_refl (a : char) : char_eqb a a = true.
Proof. apply N.eqb_refl. Qed.

Lemma str_eqb_eq (a b : str) : str_eqb a b = true <-> a = b.
Proof.
  revert b. induction a as [|x a IH]; intros [|y b]; simpl; split;
    try congruence; try reflexivity.
  - intros H. apply andb_prop in H as [H1 H2].
    apply char_eqb_eq in H1. apply IH in H2. congruence.
  - intros H. injection H as -> ->. rewrite char_eqb_refl. simpl.
    now apply IH.
Qed.

(** ** ics.py: [_escape_ics] *)

Lemma str_replace_single (a : char) (new s : str) :
  str_replace [a] new s = flat_map (replace_char a new) s.
Proof.
  unfold str_replace. induction s as [|c t IH]; [reflexivity|].
  cbn [replace_from flat_map]. unfold startswith, replace_char. simpl.
  destruct (char_eqb a c); simpl; now rewrite IH.
Qed.

Lemma char_eqb_sym (a b : char) : char_eqb a b = char_eqb b a.
Proof. apply N.eqb_sym. Qed.

Lemma startswith_pair (a b c : char) (t : str) :
  startswith [a; b] (c :: t) =
  char_eqb c a && match t with c' :: _ => char_eqb c' b | [] => false end.
Proof.
  unfold startswith. cbn [strip_prefix]. rewrite (char_eqb_sym a c).
  destruct (char_eqb c a); [|reflexivity]. destruct t as [|c' t']; [reflexivity|].
  rewrite (char_eqb_sym b c'). now destruct (char_eqb c' b).
Qed.

Lemma str_replace_crlf (new s : str) :
  str_replace [CR; LF] new s = replace_crlf new s.
Proof.
  unfold str_replace.
  assert (H : forall s,
             replace_from [CR; LF] new O s = replace_crlf new s /\
             forall c, replace_from [CR; LF] new O (c :: s)
                       = replace_crlf new (c :: s)).
  { clear s. induction s as [|c' t [IH1 IH2]].
    - split; [reflexivity|]. intros c.
      cbn [replace_from replace_crlf]. rewrite startswith_pair.
      rewrite andb_false_r. now destruct (char_eqb c CR).
    - split; [apply IH2|]. intros c.
      cbn [replace_from replace_crlf] in *. rewrite startswith_pair.
      destruct (char_eqb c CR); cbn [andb].
      + destruct (char_eqb c' LF).
        * cbn [List.length Nat.pred]. now rewrite IH1.
        * f_equal. apply IH2.
      + f_equal. apply IH2. }
  apply H.
Qed.

Lemma flat_map_compose {A B C} (f : B -> list C) (g : A -> list B) (l : list A) :
  flat_map f (flat_map g l) = flat_map (fun x => flat_map f (g x)) l.
Proof.
  induction l as [|x l IH]; [reflexivity|].
  cbn [flat_map]. now rewrite flat_map_app, IH.
Qed.

Lemma _escape_ics_passes (text : str) : _escape_ics text = passes text.
Proof.
  unfold _escape_ics, passes.
  rewrite !str_replace_single, str_replace_crlf.
  rewrite (flat_map_compose (replace_char SEMICOLON [BACKSLASH; SEMICOLON])).
  rewrite flat_map_compose. reflexivity.
Qed.

Lemma char_eqb_neq (a b : char) : a <> b -> char_eqb a b = false.
Proof. intros H. apply N.eqb_neq. exact H. Qed.

Ltac neq_chars :=
  repeat match goal with
         | H : ?a <> ?b |- context [char_eqb ?a ?b] =>
             rewrite (char_eqb_neq H)
         | H : ?a <> ?b |- context [char_eqb ?b ?a] =>
             rewrite (char_eqb_sym b a), (char_eqb_neq H)
         end.

Lemma pre_pass_spec (c : char) :
  pre_pass c =
  if char_eqb c BACKSLASH then [BACKSLASH; BACKSLASH]
  else if char_eqb c SEMICOLON then [BACKSLASH; SEMICOLON]
  else if char_eqb c COMMA then [BACKSLASH; COMMA]
  else [c].
Proof.
  destruct (N.eqb_spec c BACKSLASH) as [->|H1]; [reflexivity|].
  destruct (N.eqb_spec c SEMICOLON) as [->|H2]; [reflexivity|].
  destruct (N.eqb_spec c COMMA) as [->|H3]; [reflexivity|].
  unfold pre_pass, replace_char. neq_chars. cbn [flat_map app].
  neq_chars. cbn [flat_map app]. neq_chars. reflexivity.
Qed.

Lemma pre_pass_head (c : char) :
  exists h tl, pre_pass c = h :: tl /\ (h = LF -> c = LF) /\
               Forall (fun x => x = CR -> c = CR) (h :: tl).
Proof.
  rewrite pre_pass_spec.
  destruct (N.eqb_spec c BACKSLASH) as [->|H1].
  { do 2 eexists. split; [reflexivity|]. split; [discriminate|].
    repeat constructor; discriminate. }
  destruct (N.eqb_spec c SEMICOLON) as [->|H2].
  { do 2 eexists. split; [reflexivity|]. split; [discriminate|].
    repeat constructor; discriminate. }
  destruct (N.eqb_spec c COMMA) as [->|H3].
  { do 2 eexists. split; [reflexivity|]. split; [discriminate|].
    repeat constructor; discriminate. }
  neq_chars. do 2 eexists. split; [reflexivity|]. split; [tauto|].
  repeat constructor. tauto.
Qed.

Lemma replace_crlf_app (new x rest : str) :
  Forall (fun c => c <> CR) x ->
  replace_crlf new (x ++ rest) = x ++ replace_crlf new rest.
Proof.
  induction 1 as [|c x Hc _ IH]; [reflexivity|].
  cbn [app replace_crlf]. neq_chars. now rewrite IH.
Qed.

Lemma passes_cons (c : char) (s : str) :
  c <> CR ->
  passes (c :: s) = flat_map (replace_char LF NEWLINE_ESCAPE) (pre_pass c) ++ passes s.
Proof.
  intros Hc. unfold passes. cbn [flat_map].
  rewrite replace_crlf_app, flat_map_app; [reflexivity|].
  destruct (pre_pass_head c) as (h & tl & -> & _ & HF).
  eapply Forall_impl; [|exact HF]. cbn. intros a Ha E. auto.
Qed.

Lemma passes_cr_lf (t : str) :
  passes (CR :: LF :: t) = BACKSLASH :: LOWER_N :: passes t.
Proof. reflexivity. Qed.

Lemma passes_cr_other (c : char) (t : str) :
  c <> LF -> passes (CR :: c :: t) = CR :: passes (c :: t).
Proof.
  intros Hc. unfold passes. cbn [flat_map].
  destruct (pre_pass_head c) as (h & tl & -> & Hh & _).
  change (pre_pass CR) with [CR]. cbn [app replace_crlf].
  rewrite char_eqb_refl.
  assert (h <> LF) by (intros E; auto). neq_chars.
  reflexivity.
Qed.

Lemma passes_spec (s : str) : passes s = escape_spec s.
Proof.
  assert (H : passes s = escape_spec s /\
              forall c, passes (c :: s) = escape_spec (c :: s)).
  { induction s as [|c' t [IH1 IH2]].
    - split; [reflexivity|]. intros c.
      destruct (N.eqb_spec c CR) as [->|Hc]; [reflexivity|].
      rewrite passes_cons by assumption. rewrite pre_pass_spec.
      cbn [escape_spec].
      destruct (char_eqb c BACKSLASH); [reflexivity|].
      destruct (char_eqb c SEMICOLON); [reflexivity|].
      destruct (char_eqb c COMMA); [reflexivity|].
      cbn [flat_map app]. unfold replace_char. rewrite (char_eqb_sym LF c).
      destruct (char_eqb c LF); [reflexivity|]. neq_chars. reflexivity.
    - split; [apply IH2|]. intros c.
      destruct (N.eqb_spec c CR) as [->|Hc].
      + destruct (N.eqb_spec c' LF) as [->|Hc'].
        * rewrite passes_cr_lf, IH1. reflexivity.
        * rewrite passes_cr_other, IH2 by assumption.
          cbn [escape_spec]. change (char_eqb CR BACKSLASH) with false.
          cbv iota. change (char_eqb CR SEMICOLON) with false.
          change (char_eqb CR COMMA) with false.
          change (char_eqb CR LF) with false.
          change (char_eqb CR CR) with true. cbv iota.
          neq_chars. reflexivity.
      + rewrite passes_cons by assumption. rewrite pre_pass_spec, IH2.
        set (rest := escape_spec (c' :: t)).
        cbn [escape_spec]. fold rest.
        destruct (char_eqb c BACKSLASH); [reflexivity|].
        destruct (char_eqb c SEMICOLON); [reflexivity|].
        destruct (char_eqb c COMMA); [reflexivity|].
        cbn [flat_map app]. unfold replace_char. rewrite (char_eqb_sym LF c).
        destruct (char_eqb c LF); [reflexivity|]. neq_chars. reflexivity. }
  apply H.
Qed.

Lemma str_ind2 (P : str -> Prop) :
  P [] -> (forall c, P [c]) ->
  (forall c c' t, P t -> P (c' :: t) -> P (c :: c' :: t)) ->
  forall s, P s.
Proof.
  intros H0 H1 H2 s.
  assert (H : P s /\ forall c, P (c :: s)).
  { induction s as [|c' t [IH1 IH2]]; split; auto. }
  apply H.
Qed.

Lemma escape_spec_no_lf (s : str) : ~ In LF (escape_spec s).
Proof.
  induction s as [|c|c c' t IH1 IH2] using str_ind2.
  - intros [].
  - cbn [escape_spec].
    destruct (char_eqb c BACKSLASH); [cbn; intuition discriminate|].
    destruct (char_eqb c SEMICOLON); [cbn; intuition discriminate|].
    destruct (char_eqb c COMMA); [cbn; intuition discriminate|].
    destruct (char_eqb c LF) eqn:E; [cbn; intuition discriminate|].
    apply N.eqb_neq in E.
    destruct (char_eqb c CR); cbn; intuition (try discriminate; congruence).
  - remember (c' :: t) as s eqn:Es. cbn [escape_spec].
    destruct (char_eqb c BACKSLASH);
      [intros [H|[H|H]]; try discriminate; now apply IH2|].
    destruct (char_eqb c SEMICOLON);
      [intros [H|[H|H]]; try discriminate; now apply IH2|].
    destruct (char_eqb c COMMA);
      [intros [H|[H|H]]; try discriminate; now apply IH2|].
    destruct (char_eqb c LF) eqn:E;
      [intros [H|[H|H]]; try discriminate; now apply IH2|].
    apply N.eqb_neq in E.
    destruct (char_eqb c CR).
    + subst s. destruct (char_eqb c' LF).
      * intros [H|[H|H]]; try discriminate; now apply IH1.
      * intros [H|H]; try discriminate; now apply IH2.
    + intros [H|H]; [congruence|now apply IH2].
Qed.

Lemma escape_spec_no_control (s : str) :
  only_newline_controls s = true ->
  forallb (fun c => negb (is_control c)) (escape_spec s) = true.
Proof.
  induction s as [|c|c c' t IH1 IH2] using str_ind2.
  - reflexivity.
  - destruct (N.eqb_spec c BACKSLASH) as [->|H1]; [reflexivity|].
    destruct (N.eqb_spec c SEMICOLON) as [->|H2]; [reflexivity|].
    destruct (N.eqb_spec c COMMA) as [->|H3]; [reflexivity|].
    destruct (N.eqb_spec c LF) as [->|H4]; [reflexivity|].
    destruct (N.eqb_spec c CR) as [->|H5]; [discriminate|].
    cbn [only_newline_controls escape_spec]. neq_chars.
    rewrite orb_false_r, andb_true_r. cbn. intros ->. reflexivity.
  - remember (c' :: t) as s eqn:Es.
    assert (Hskip : forall x, negb (is_control x) = true ->
              (negb (is_control c) || char_eqb c LF)
                && only_newline_controls s = true ->
              forallb (fun c => negb (is_control c))
                      (BACKSLASH :: x :: escape_spec s) = true).
    { intros x Hx H. apply andb_prop in H as [_ H]. cbn [forallb].
      rewrite Hx. now apply IH2. }
    destruct (N.eqb_spec c BACKSLASH) as [->|H1]; [now apply Hskip|].
    destruct (N.eqb_spec c SEMICOLON) as [->|H2]; [now apply Hskip|].
    destruct (N.eqb_spec c COMMA) as [->|H3]; [now apply Hskip|].
    destruct (N.eqb_spec c LF) as [->|H4]; [now apply Hskip|].
    clear Hskip.
    destruct (N.eqb_spec c CR) as [->|H5].
    + subst s. cbn [only_newline_controls escape_spec].
      change (char_eqb CR BACKSLASH) with false.
      change (char_eqb CR SEMICOLON) with false.
      change (char_eqb CR COMMA) with false.
      change (char_eqb CR LF) with false.
      change (char_eqb CR CR) with true. cbv iota.
      intros H. apply andb_prop in H as [-> H]. now apply IH1.
    + cbn [only_newline_controls escape_spec]. neq_chars.
      intros H. apply andb_prop in H as [Hc H].
      rewrite orb_false_r in Hc. cbn [forallb]. rewrite Hc. now apply IH2.
Qed.

(** C7.  [_escape_ics] is the one-pass escaping of the specification:
    backslash, semicolon, comma, CR LF and lone LF are each replaced by their
    escape, and no character is escaped twice.  Its result holds no line
    feed; it holds no control character at all when the only control
    characters of the text are line feeds (alone or after a carriage
    return); the [SUMMARY] line of an event is ["SUMMARY:"] followed by the
    escaped title, as the title ["Spin, Core; Stretch<LF>Level 2"] shows. *)
Theorem escape_ics_correct :
  (forall text, _escape_ics text = escape_spec text) /\
  (forall text, ~ In LF (_escape_ics text)) /\
  (forall text, only_newline_controls text = true ->
                forallb (fun c => negb (is_control c)) (_escape_ics text) = true) /\
  (forall now course_id ev,
      In (lit "SUMMARY:" ++ escape_spec (title ev))
         (vevent_lines now course_id ev)) /\
  _escape_ics (lit "Spin, Core; Stretch" ++ [LF] ++ lit "Level 2")
  = lit "Spin\, Core\; Stretch\nLevel 2".
Proof.
  assert (E : forall text, _escape_ics text = escape_spec text).
  { intros text. now rewrite _escape_ics_passes, passes_spec. }
  split; [|split; [|split; [|split]]].
  - exact E.
  - intros text. rewrite E. apply escape_spec_no_lf.
  - intros text H. rewrite E. now apply escape_spec_no_control.
  - intros now course_id ev. unfold vevent_lines. rewrite <- E.
    apply in_or_app. left. cbn [In]. do 5 right. left. reflexivity.
  - vm_compute. reflexivity.
Qed.

Lemma escape_ics_correct_witness :
  only_newline_controls (lit "a,b" ++ [CR; LF] ++ lit "c") = true /\
  forallb (fun c => negb (is_control c))
          (_escape_ics (lit "a,b" ++ [CR; LF] ++ lit "c")) = true.
Proof.
  split; [reflexivity|].
  apply (proj1 (proj2 (proj2 escape_ics_correct))). reflexivity.
Defined.

(** ** ics.py: [_fold_line] *)

Lemma max_len_eq : max_len = 75%nat.
Proof. reflexivity. Qed.

#[local] Opaque max_len.

Lemma _fold_line_short (line : str) :
  (List.length line <= max_len)%nat -> _fold_line line = [line].
Proof.
  intros H. rewrite _fold_line_equation_1.
  destruct (le_lt_dec (List.length line) max_len); [reflexivity|lia].
Qed.

Lemma _fold_line_long (line : str) :
  (max_len < List.length line)%nat ->
  _fold_line line = firstn max_len line :: _fold_line (SPACE :: skipn max_len line).
Proof.
  intros H. rewrite _fold_line_equation_1.
  destruct (le_lt_dec (List.length line) max_len); [lia|reflexivity].
Qed.

Lemma firstn_max_cons (c : char) (l : str) :
  firstn max_len (c :: l) = c :: firstn 74 l.
Proof. rewrite max_len_eq. reflexivity. Qed.

Lemma _fold_line_shape (line : str) :
  exists conts,
    _fold_line line = firstn max_len line :: conts /\
    Forall continuation_line conts /\
    Forall (fun l => (List.length l <= max_len)%nat) (firstn max_len line :: conts) /\
    firstn max_len line ++ List.concat (List.map strip_one_space conts) = line /\
    (conts = [] <-> (List.length line <= max_len)%nat).
Proof.
  remember (List.length line) as n eqn:En. revert line En.
  induction n as [n IH] using lt_wf_ind. intros line En. subst n.
  pose proof max_len_eq as M.
  destruct (le_lt_dec (List.length line) max_len) as [Hs|Hl].
  - exists []. rewrite _fold_line_short by assumption.
    rewrite firstn_all2 by assumption.
    split; [reflexivity|]. split; [constructor|].
    split; [constructor; [assumption|constructor]|].
    split; [apply app_nil_r|]. split; auto.
  - rewrite _fold_line_long by assumption.
    destruct (IH (List.length (SPACE :: skipn max_len line)))
      with (line := SPACE :: skipn max_len line)
      as (conts & E & Hc & Hlen & Hjoin & _).
    { cbn [List.length]. rewrite length_skipn. lia. }
    { reflexivity. }
    exists (firstn max_len (SPACE :: skipn max_len line) :: conts).
    rewrite E. split; [reflexivity|]. split; [|split; [|split]].
    + constructor; [|assumption]. rewrite firstn_max_cons.
      eexists. reflexivity.
    + constructor; [|assumption]. rewrite length_firstn. lia.
    + cbn [List.map List.concat]. rewrite firstn_max_cons in Hjoin |- *.
      cbn [strip_one_space]. rewrite char_eqb_refl.
      set (X := skipn max_len line) in *.
      set (Y := firstn 74 X) in *.
      assert (Ht : Y ++ List.concat (List.map strip_one_space conts) = X)
        by (cbn [app] in Hjoin; congruence).
      rewrite Ht. apply firstn_skipn.
    + split; [discriminate|lia].
Qed.

(** No line of a document holds a line feed, so the document splits at
    CR LF into exactly the folded lines. *)

Lemma no_lf_app (a b : str) : no_lf a -> no_lf b -> no_lf (a ++ b).
Proof.
  unfold no_lf. intros Ha Hb H. apply in_app_or in H. tauto.
Qed.

Lemma no_lf_check (s : str) :
  forallb (fun c => negb (char_eqb c LF)) s = true -> no_lf s.
Proof.
  intros H Hin. rewrite forallb_forall in H. specialize (H LF Hin).
  rewrite char_eqb_refl in H. discriminate.
Qed.

Lemma no_lf_lit_app (p : string) (rest : str) :
  forallb (fun c => negb (char_eqb c LF)) (lit p) = true ->
  no_lf rest -> no_lf (lit p ++ rest).
Proof. intros H Hr. apply no_lf_app; [now apply no_lf_check|exact Hr]. Qed.

Lemma digit_char_no_lf (n : Z) : digit_char (n mod 10) <> LF.
Proof.
  unfold digit_char, LF. pose proof (Z.mod_pos_bound n 10 eq_refl). lia.
Qed.

Lemma digits_fuel_no_lf (fuel : nat) (n : Z) (acc : str) :
  no_lf acc -> no_lf (digits_fuel fuel n acc).
Proof.
  revert n acc. induction fuel as [|f IH]; intros n acc Ha; cbn [digits_fuel];
    [exact Ha|].
  assert (no_lf (digit_char (n mod 10) :: acc)).
  { intros [H|H]; [now apply (digit_char_no_lf n)|now apply Ha]. }
  destruct (n <? 10); [assumption|now apply IH].
Qed.

Lemma str_of_nonneg_no_lf (n : Z) : no_lf (str_of_nonneg n).
Proof. apply digits_fuel_no_lf. intros []. Qed.

Lemma str_of_Z_no_lf (n : Z) : no_lf (str_of_Z n).
Proof.
  unfold str_of_Z. destruct (n <? 0); [|apply str_of_nonneg_no_lf].
  apply no_lf_lit_app; [reflexivity|apply str_of_nonneg_no_lf].
Qed.

Lemma zero_pad_no_lf (width : nat) (n : Z) : no_lf (zero_pad width n).
Proof.
  unfold zero_pad. apply no_lf_app; [|apply str_of_nonneg_no_lf].
  intros H. apply repeat_spec in H. discriminate.
Qed.

Lemma strftime_basic_no_lf (w : Z) : no_lf (strftime_basic w).
Proof.
  unfold strftime_basic. destruct (ord2ymd _) as [[y m] d].
  apply no_lf_app; [apply str_of_Z_no_lf|].
  repeat (apply no_lf_app; [apply zero_pad_no_lf|]).
  apply no_lf_lit_app; [reflexivity|].
  repeat (apply no_lf_app; [apply zero_pad_no_lf|]).
  apply zero_pad_no_lf.
Qed.

Lemma _escape_ics_no_lf (text : str) : no_lf (_escape_ics text).
Proof. rewrite _escape_ics_passes, passes_spec. apply escape_spec_no_lf. Qed.

Lemma Forall_app_intro {A} (P : A -> Prop) (a b : list A) :
  Forall P a -> Forall P b -> Forall P (a ++ b).
Proof. intros Ha Hb. apply Forall_app. now split. Qed.

Lemma vevent_lines_no_lf (now course_id : Z) (ev : CourseEvent) :
  Forall no_lf (vevent_lines now course_id ev).
Proof.
  unfold vevent_lines.
  apply Forall_app_intro; [|apply Forall_app_intro; [|apply Forall_app_intro]].
  - constructor; [apply no_lf_check; reflexivity|].
    constructor.
    { apply no_lf_lit_app; [reflexivity|].
      apply no_lf_app; [apply str_of_Z_no_lf|].
      apply no_lf_lit_app; [reflexivity|].
      apply no_lf_app; [apply _escape_ics_no_lf|].
      apply no_lf_check. reflexivity. }
    constructor.
    { apply no_lf_lit_app; [reflexivity|]. unfold _fmt_dt_utc.
      apply no_lf_app; [apply strftime_basic_no_lf|].
      apply no_lf_check. reflexivity. }
    constructor.
    { apply no_lf_lit_app; [reflexivity|]. apply strftime_basic_no_lf. }
    constructor.
    { apply no_lf_lit_app; [reflexivity|]. apply strftime_basic_no_lf. }
    constructor; [|constructor].
    apply no_lf_lit_app; [reflexivity|]. apply _escape_ics_no_lf.
  - match goal with
    | |- Forall _ (match ?parts with _ => _ end) => destruct parts
    end; [constructor|].
    constructor; [|constructor].
    apply no_lf_lit_app; [reflexivity|]. apply _escape_ics_no_lf.
  - destruct (nonempty (location ev)); cbn [option_map opt_list];
      [|constructor].
    constructor; [|constructor].
    apply no_lf_lit_app; [reflexivity|]. apply _escape_ics_no_lf.
  - constructor; [|constructor]. apply no_lf_check. reflexivity.
Qed.

Lemma literal_lines_no_lf (lines : list str) :
  forallb (forallb (fun c => negb (char_eqb c LF))) lines = true ->
  Forall no_lf lines.
Proof.
  intros H. apply Forall_forall. intros l Hl. apply no_lf_check.
  rewrite forallb_forall in H. now apply H.
Qed.

Lemma ics_lines_no_lf (now course_id : Z) (events : list CourseEvent) :
  Forall no_lf (ics_lines now course_id events).
Proof.
  unfold ics_lines.
  apply Forall_app_intro; [|apply Forall_app_intro; [|apply Forall_app_intro]].
  - apply literal_lines_no_lf. vm_compute. reflexivity.
  - apply literal_lines_no_lf. vm_compute. reflexivity.
  - apply Forall_flat_map. apply Forall_forall. intros ev _.
    apply vevent_lines_no_lf.
  - apply literal_lines_no_lf. vm_compute. reflexivity.
Qed.

Lemma _fold_line_no_lf (line : str) : no_lf line -> Forall no_lf (_fold_line line).
Proof.
  remember (List.length line) as n eqn:En. revert line En.
  induction n as [n IH] using lt_wf_ind. intros line En Hl. subst n.
  pose proof max_len_eq as M.
  destruct (le_lt_dec (List.length line) max_len) as [Hs|Hg].
  - rewrite _fold_line_short by assumption. now repeat constructor.
  - rewrite _fold_line_long by assumption.
    rewrite <- (firstn_skipn max_len line) in Hl.
    constructor.
    + intros H. apply Hl, in_or_app. now left.
    + apply (IH (List.length (SPACE :: skipn max_len line))).
      * cbn [List.length]. rewrite length_skipn. lia.
      * reflexivity.
      * intros [H|H]; [discriminate|]. apply Hl, in_or_app. now right.
Qed.

Lemma split_crlf_line (l rest : str) :
  no_lf l -> split_crlf (l ++ CR :: LF :: rest) = l :: split_crlf rest.
Proof.
  induction l as [|c l' IH]; intros Hl; [reflexivity|].
  assert (Hl' : no_lf l') by (intros H; apply Hl; now right).
  cbn [app split_crlf]. rewrite (IH Hl').
  destruct (char_eqb c CR); [|reflexivity].
  destruct l' as [|c' l'']; [reflexivity|]. cbn [app].
  assert (Hc' : c' <> LF) by (intros ->; apply Hl; right; now left).
  now rewrite (char_eqb_neq Hc').
Qed.

Lemma split_crlf_join (l : str) (lines : list str) :
  Forall no_lf (l :: lines) ->
  split_crlf (join [CR; LF] (l :: lines) ++ [CR; LF]) = (l :: lines) ++ [[]].
Proof.
  revert l. induction lines as [|l2 rest IH]; intros l H;
    inversion H as [|? ? Hl Hrest]; subst.
  - cbn [join app]. now rewrite split_crlf_line.
  - change (join [CR; LF] (l :: l2 :: rest))
      with (l ++ [CR; LF] ++ join [CR; LF] (l2 :: rest)).
    rewrite <- !app_assoc. cbn [app].
    rewrite split_crlf_line by assumption.
    change (CR :: LF :: nil) with [CR; LF]. now rewrite (IH l2 Hrest).
Qed.

Lemma generate_ics_physical_lines (now course_id : Z) (events : list CourseEvent) :
  split_crlf (generate_ics now course_id events)
  = folded_lines (ics_lines now course_id events) ++ [[]].
Proof.
  unfold generate_ics.
  assert (F : Forall no_lf (folded_lines (ics_lines now course_id events))).
  { apply Forall_flat_map. eapply Forall_impl; [|apply ics_lines_no_lf].
    intros l. apply _fold_line_no_lf. }
  destruct (folded_lines (ics_lines now course_id events)) as [|l ls] eqn:E.
  - exfalso. unfold ics_lines, folded_lines in E.
    change HEADER with (lit "BEGIN:VCALENDAR" :: List.tl HEADER) in E.
    cbn [app flat_map] in E.
    destruct (_fold_line_shape (lit "BEGIN:VCALENDAR")) as (conts & Ef & _).
    rewrite Ef in E. discriminate.
  - now apply split_crlf_join.
Qed.

(** C6.  Folding a line yields physical lines of at most 75 characters; the
    first is followed by continuation lines (none when the line has at most
    75 characters) and each continuation line is a space followed by the
    next piece of the line; taking that one space off every continuation line
    and joining the pieces gives the line back.  [generate_ics] folds every
    line it emits (header, time zone block, events, footer): the physical
    lines of the document, read off at its CR LF line ends, are the folded
    lines, none exceeds 75 characters, and every emitted line is recovered by
    unfolding. *)
Theorem fold_line_correct :
  (forall line,
      Forall (fun l => (List.length l <= 75)%nat) (_fold_line line) /\
      (exists first conts,
          _fold_line line = first :: conts /\
          Forall continuation_line conts /\
          (conts = [] <-> (List.length line <= 75)%nat)) /\
      unfold_lines (_fold_line line) = line) /\
  (forall now course_id events,
      generate_ics now course_id events
      = join [CR; LF] (flat_map _fold_line (ics_lines now course_id events))
        ++ [CR; LF] /\
      split_crlf (generate_ics now course_id events)
      = flat_map _fold_line (ics_lines now course_id events) ++ [[]] /\
      Forall (fun l => (List.length l <= 75)%nat)
             (flat_map _fold_line (ics_lines now course_id events)) /\
      List.map (fun ln => unfold_lines (_fold_line ln))
               (ics_lines now course_id events)
      = ics_lines now course_id events).
Proof.
  assert (A : forall line,
      Forall (fun l => (List.length l <= 75)%nat) (_fold_line line) /\
      (exists first conts,
          _fold_line line = first :: conts /\
          Forall continuation_line conts /\
          (conts = [] <-> (List.length line <= 75)%nat)) /\
      unfold_lines (_fold_line line) = line).
  { intros line.
    destruct (_fold_line_shape line) as (conts & E & Hc & Hlen & Hjoin & Hnil).
    rewrite max_len_eq in Hlen, Hnil. rewrite E.
    split; [exact Hlen|]. split; [|exact Hjoin].
    exists (firstn max_len line), conts. auto. }
  split; [exact A|].
  intros now course_id events. split; [reflexivity|].
  split; [apply generate_ics_physical_lines|]. split.
  - apply Forall_flat_map. apply Forall_forall. intros ln _. apply A.
  - rewrite <- (map_id (ics_lines now course_id events)) at 2.
    apply map_ext. intros ln. apply A.
Qed.

(** ** main.py: the exclude-keyword filter *)

Lemma strip_prefix_spec (p s r : str) :
  strip_prefix p s = Some r <-> s = p ++ r.
Proof.
  revert s. induction p as [|x p IH]; intros s; cbn [strip_prefix app].
  - split; congruence.
  - destruct s as [|y s]; [split; discriminate|].
    destruct (N.eqb_spec x y) as [->|Hxy].
    + rewrite char_eqb_refl, IH. split; congruence.
    + rewrite (char_eqb_neq Hxy). split; [discriminate|congruence].
Qed.

Lemma startswith_spec (p s : str) :
  startswith p s = true <-> exists r, s = p ++ r.
Proof.
  unfold startswith. destruct (strip_prefix p s) as [r|] eqn:E.
  - apply strip_prefix_spec in E. split; eauto.
  - split; [discriminate|]. intros [r Hr].
    apply strip_prefix_spec in Hr. congruence.
Qed.

Lemma contains_spec (k t : str) : contains k t = true <-> substring k t.
Proof.
  unfold substring. induction t as [|c t IH]; cbn [contains].
  - rewrite orb_false_r, startswith_spec. split.
    + intros [r Hr]. exists [], r. exact Hr.
    + intros (pre & post & H). destruct pre as [|x pre]; [eauto|discriminate].
  - rewrite orb_true_iff, startswith_spec, IH. split.
    + intros [[r Hr]|(pre & post & H)].
      * exists [], r. exact Hr.
      * exists (c :: pre), post. cbn. now rewrite H.
    + intros (pre & post & H). destruct pre as [|x pre].
      * left. eauto.
      * right. exists pre, post. cbn in H. congruence.
Qed.

Section Filter.

Context {L : PyLib}.

Lemma keep_event_spec (keywords : list str) (e : CourseEvent) :
  keep_event keywords e = true <->
  forall k, In k keywords -> ~ substring k (str_lower (title e)).
Proof.
  unfold keep_event. rewrite negb_true_iff. split.
  - intros H k Hk Hs. apply contains_spec in Hs.
    assert (existsb (fun k => contains k (str_lower (title e))) keywords = true)
      by (apply existsb_exists; eauto).
    congruence.
  - intros H. apply not_true_is_false. intros Hex.
    apply existsb_exists in Hex as (k & Hk & Hc).
    apply contains_spec in Hc. exact (H k Hk Hc).
Qed.

(** C4.  The filter of the refresh cycle keeps, in their order, exactly the
    events whose lower-cased title contains none of the configured keywords
    as a substring; a successful cycle renders and caches that filtered
    list; with the default keywords the events titled "Booty X Class",
    "Yoga Flow" and "X Step Intervals" filter down to "Yoga Flow". *)
Theorem filter_events_correct :
  (forall keywords events,
      exists keep,
        filter_events keywords events = filter keep events /\
        forall e, keep e = true <->
                  forall k, In k keywords ->
                            ~ substring k (str_lower (title e))) /\
  (forall cfg net now w data content_type events,
      fetch_course_page net = Ok (data, content_type) ->
      parse_schedule data content_type = Ok events ->
      let kept := filter_events (EXCLUDE_KEYWORDS cfg) events in
      let ics_text := generate_ics now (FITX_COURSE_ID cfg) kept in
      _refresh_once cfg net now w
      = (fst (_update_cache kept ics_text w),
         [StepFetch; StepParse; StepFilter; StepRender]
           ++ snd (_update_cache kept ics_text w))) /\
  filter_events (_parse_exclude_keywords _default_excludes)
    [titled "Booty X Class"; titled "Yoga Flow"; titled "X Step Intervals"]
  = [titled "Yoga Flow"].
Proof.
  split; [|split].
  - intros keywords events. exists (keep_event keywords). split.
    + destruct keywords as [|k ks]; [|reflexivity].
      cbn [filter_events]. induction events as [|e es IH]; [reflexivity|].
      cbn [filter]. change (keep_event [] e) with true. cbv iota.
      now rewrite <- IH.
    + intros e. apply keep_event_spec.
  - intros cfg net now w data content_type events Hf Hp kept ics_text.
    unfold _refresh_once. rewrite Hf, Hp. fold kept. fold ics_text.
    now destruct (_update_cache kept ics_text w).
  - vm_compute. reflexivity.
Qed.

End Filter.

(** ** parser.py: [parse_schedule] *)

Lemma decode_replace_from_nil (bs : list N) :
  decode_replace_from O bs = [] <-> bs = [].
Proof.
  destruct bs as [|b r]; [tauto|]. cbn [decode_replace_from].
  destruct (utf8_next b r) as [[c|] n]; split; discriminate.
Qed.

Lemma decode_utf8_replace_nil (data : bytes) :
  decode_utf8_replace data = [] <-> data = [].
Proof.
  unfold decode_utf8_replace. rewrite decode_replace_from_nil.
  destruct data; split; try discriminate; reflexivity.
Qed.

Lemma no_events_not_undecodable : NO_EVENTS <> UNDECODABLE.
Proof. intros H. vm_compute in H. discriminate H. Qed.

Section Parse.

Context {L : PyLib}.

Lemma try_json_nonempty (content : str) (events : list CourseEvent) :
  try_json content = Some events -> events <> [].
Proof.
  unfold try_json. destruct (json_loads content) as [obj|]; [|discriminate].
  destruct (_build_events_from_obj obj) as [[|e es]|]; try discriminate.
  intros H. injection H as <-. discriminate.
Qed.

Lemma first_typed_nonempty (scripts : list script) (events : list CourseEvent) :
  first_typed scripts = Some events -> events <> [].
Proof.
  induction scripts as [|sc rest IH]; cbn [first_typed]; [discriminate|].
  destruct (contains _ _); [|exact IH].
  destruct (strip (script_content sc)) as [|c s]; [exact IH|].
  destruct (try_json (c :: s)) as [evs|] eqn:E; [|exact IH].
  intros H. injection H as <-. eapply try_json_nonempty; eauto.
Qed.

Lemma first_candidate_nonempty (cs : list str) (events : list CourseEvent) :
  first_candidate cs = Some events -> events <> [].
Proof.
  induction cs as [|c rest IH]; cbn [first_candidate]; [discriminate|].
  destruct (try_json c) as [evs|] eqn:E; [|exact IH].
  intros H. injection H as <-. eapply try_json_nonempty; eauto.
Qed.

(** The HTML strategies return only non-empty lists, and raise the
    "not decodable" error exactly on an empty text. *)
Lemma parse_html_nonempty (data : bytes) (events : list CourseEvent) :
  parse_html data = Ok events -> events <> [].
Proof.
  unfold parse_html. destruct (decode_utf8_replace data) as [|c text];
    [discriminate|].
  destruct (find_all_script _) as [scripts|]; [|discriminate].
  destruct (first_typed _) as [evs|] eqn:E1.
  - intros H. injection H as <-. eapply first_typed_nonempty; eauto.
  - destruct (first_candidate _) as [evs|] eqn:E2; [|discriminate].
    intros H. injection H as <-. eapply first_candidate_nonempty; eauto.
Qed.

Lemma parse_html_undecodable (data : bytes) :
  parse_html data = Raise UNDECODABLE <-> decode_utf8_replace data = [].
Proof.
  unfold parse_html. destruct (decode_utf8_replace data) as [|c text].
  - tauto.
  - split; [|discriminate].
    destruct (find_all_script _) as [scripts|]; [|discriminate].
    destruct (first_typed _); [discriminate|].
    destruct (first_candidate _); [discriminate|].
    intros H. exfalso. apply no_events_not_undecodable. congruence.
Qed.

(** C10.  On the HTML branch (the content type does not name
    [application/json] and the payload does not start with a brace or a
    bracket) [parse_schedule] raises the "not decodable as UTF-8 text" error
    exactly when the decoded text is empty, and the decoded text is empty
    exactly when the payload is: the empty payload decodes (to the empty
    string) and raises the error, and no non-empty payload raises it. *)
Theorem undecodable_iff_empty (data : bytes) (content_type : option str) :
  direct_json data content_type = false ->
  (parse_schedule data content_type = Raise UNDECODABLE
   <-> decode_utf8_replace data = []) /\
  (decode_utf8_replace data = [] <-> data = []) /\
  (data = [] -> parse_schedule data content_type = Raise UNDECODABLE) /\
  (data <> [] -> parse_schedule data content_type <> Raise UNDECODABLE).
Proof.
  intros Hd. unfold parse_schedule. rewrite Hd.
  pose proof (parse_html_undecodable data) as H1.
  pose proof (decode_utf8_replace_nil data) as H2.
  split; [exact H1|]. split; [exact H2|]. split.
  - intros E. apply H1, H2, E.
  - intros E H. apply E, H2, H1, H.
Qed.

(** C1 (the direct-JSON path).  When the payload is taken as JSON, parses,
    and the walk finds no candidate record, [parse_schedule] returns the
    empty list: the "no events found" error is not raised on this path. *)
Theorem direct_json_returns_empty (data : bytes) (content_type : option str)
  (obj : json) :
  direct_json data content_type = true ->
  json_loads (decode_utf8_replace data) = Some obj ->
  extract_events_from_json obj = [] ->
  parse_schedule data content_type = Ok [].
Proof.
  intros Hd Hj He. unfold parse_schedule. rewrite Hd, Hj.
  unfold _build_events_from_obj. rewrite He. reflexivity.
Qed.

(** Every empty result comes from the direct-JSON path. *)
Lemma parse_schedule_empty_only_direct (data : bytes) (content_type : option str) :
  parse_schedule data content_type = Ok [] ->
  direct_json data content_type = true /\
  exists obj, json_loads (decode_utf8_replace data) = Some obj /\
              _build_events_from_obj obj = Ok [].
Proof.
  unfold parse_schedule.
  destruct (direct_json data content_type).
  - destruct (json_loads _) as [obj|].
    + destruct (_build_events_from_obj obj) as [evs|e] eqn:E.
      * intros H. injection H as ->. eauto.
      * intros H. now apply parse_html_nonempty in H.
    + intros H. now apply parse_html_nonempty in H.
  - intros H. now apply parse_html_nonempty in H.
Qed.

(** ** main.py: the refresh cycle *)

Lemma fetch_course_page_raises (net : network) (e : exn) :
  fetch_course_page net = Raise e ->
  net 0%nat = None /\ net 1%nat = None /\ net 2%nat = None.
Proof.
  unfold fetch_course_page. cbn [fetch_attempts].
  destruct (net 0%nat); [discriminate|].
  destruct (net 1%nat); [discriminate|].
  destruct (net 2%nat); [discriminate|]. auto.
Qed.

(** C5.  A refresh cycle whose fetch raises stops after the fetch, and one
    whose parse raises stops after the parse: the world (the in-memory pair
    and the files of the data directory) is the one before the cycle, and
    [/calendar.ics] answers as before; when a rendered document is cached,
    that answer is the document itself, at any time. *)
Theorem failed_refresh_keeps_cache (cfg : config) (net : network) (now : Z)
  (w : world) :
  ((exists e, fetch_course_page net = Raise e) ->
   _refresh_once cfg net now w = (w, [StepFetch])) /\
  (forall data content_type,
      fetch_course_page net = Ok (data, content_type) ->
      (exists e, parse_schedule data content_type = Raise e) ->
      _refresh_once cfg net now w = (w, [StepFetch; StepParse])) /\
  ((exists e, fetch_course_page net = Raise e) \/
   (exists data content_type e,
       fetch_course_page net = Ok (data, content_type) /\
       parse_schedule data content_type = Raise e) ->
   let w' := fst (_refresh_once cfg net now w) in
   cache_ics w' = cache_ics w /\
   cache_events w' = cache_events w /\
   files w' = files w /\
   (forall t, calendar cfg t w' = calendar cfg t w) /\
   (forall c s t, cache_ics w = Some (c :: s) -> calendar cfg t w' = c :: s)).
Proof.
  assert (A : (exists e, fetch_course_page net = Raise e) ->
              _refresh_once cfg net now w = (w, [StepFetch])).
  { intros [e He]. unfold _refresh_once. now rewrite He. }
  assert (B : forall data content_type,
             fetch_course_page net = Ok (data, content_type) ->
             (exists e, parse_schedule data content_type = Raise e) ->
             _refresh_once cfg net now w = (w, [StepFetch; StepParse])).
  { intros data ct Hf [e He]. unfold _refresh_once. now rewrite Hf, He. }
  split; [exact A|]. split; [exact B|].
  intros H w'.
  assert (E : w' = w).
  { unfold w'. destruct H as [H|(data & ct & e & Hf & Hp)].
    - now rewrite (A H).
    - rewrite (B data ct Hf); eauto. }
  rewrite E. repeat split; try reflexivity.
  intros c s t Hc. unfold calendar. now rewrite Hc.
Qed.

End Parse.

(** ** parser.py: the end of a coerced event *)

Section CoerceEnd.

Context {L : PyLib}.

Lemma first_datetime_none (it : list (str * json)) (keys : list string) :
  (forall k, In k keys -> parse_any_datetime (get it k) = None) ->
  first_datetime it keys = None.
Proof.
  induction keys as [|k rest IH]; intros H; cbn [first_datetime]; [reflexivity|].
  rewrite (H k) by (left; reflexivity). apply IH.
  intros k' Hk'. apply H. now right.
Qed.

Lemma find_duration_skip (it : list (str * json)) (k : string)
  (rest : list string) :
  unusable_duration it k ->
  find_duration it (k :: rest) = find_duration it rest.
Proof.
  intros Hk. cbn [find_duration].
  destruct Hk as [Hk|Hk]; destruct (get it k); try reflexivity;
    try discriminate; now rewrite Hk.
Qed.

Lemma find_duration_hit (it : list (str * json)) (k : string)
  (rest : list string) (d : Z) :
  usable_duration it k d ->
  find_duration it (k :: rest) = Some d.
Proof.
  intros [Hk1 Hk2]. cbn [find_duration].
  destruct (get it k); try congruence; now rewrite Hk2.
Qed.

Lemma find_duration_none (it : list (str * json)) (keys : list string) :
  Forall (unusable_duration it) keys -> find_duration it keys = None.
Proof.
  induction 1 as [|k rest Hk _ IH]; [reflexivity|].
  now rewrite find_duration_skip.
Qed.

Lemma find_duration_found (it : list (str * json)) (before after : list string)
  (k : string) (d : Z) :
  Forall (unusable_duration it) before ->
  usable_duration it k d ->
  find_duration it (before ++ k :: after) = Some d.
Proof.
  intros Hb Hk. induction Hb as [|k' rest Hk' _ IH]; cbn [app].
  - now apply find_duration_hit.
  - now rewrite find_duration_skip.
Qed.

Lemma coerce_event_end (it : list (str * json)) (s : datetime) :
  first_datetime it START_KEYS = Some s ->
  first_datetime it END_KEYS = None ->
  forall m,
    m = match find_duration it DURATION_KEYS with
        | Some d => if negb (d =? 0) then d else 60
        | None => 60
        end ->
    ends_after it s m.
Proof.
  intros Hs He m Hm. unfold ends_after, coerce_event. rewrite Hs, He.
  assert (E : match find_duration it DURATION_KEYS with
              | Some dur_min =>
                  if negb (dur_min =? 0) then add_minutes s dur_min
                  else add_minutes s 60
              | None => add_minutes s 60
              end = add_minutes s m).
  { subst m. destruct (find_duration it DURATION_KEYS) as [d|]; [|reflexivity].
    now destruct (negb (d =? 0)). }
  rewrite E. destruct (add_minutes s m) as [e|x]; cbn [bind].
  - eexists. split; [reflexivity|]. split; reflexivity.
  - reflexivity.
Qed.

(** C2, as amended.  For a record whose start parses and none of whose end
    fields parses: the duration is the value under the first of
    [durationMinutes], [duration], [length], [minutes] that is present and
    that [int()] accepts (a present value [int()] rejects is passed over);
    when that duration is not zero the end is the start plus that many
    minutes, and when there is no such value the end is the start plus 60
    minutes.  The addition is the one of [datetime]: outside years 1..9999
    it raises, and so does [coerce_event]. *)
Theorem coerce_event_end_derived (it : list (str * json)) (s : datetime) :
  first_datetime it START_KEYS = Some s ->
  (forall k, In k END_KEYS -> parse_any_datetime (get it k) = None) ->
  (forall d, duration_found it d -> d <> 0 -> ends_after it s d) /\
  (no_duration it -> ends_after it s 60).
Proof.
  intros Hs He. apply first_datetime_none in He. split.
  - intros d (before & k & after & Hkeys & Hb & Hk) Hd.
    apply coerce_event_end; try assumption.
    rewrite Hkeys, (find_duration_found after Hb Hk).
    apply Z.eqb_neq in Hd. now rewrite Hd.
  - intros Hn. apply coerce_event_end; try assumption.
    now rewrite (find_duration_none Hn).
Qed.

(** What the code does with a duration of 0: the guard [if dur_min:] is
    false and the 60-minute default applies. *)
Lemma coerce_event_zero_duration (it : list (str * json)) (s : datetime) :
  first_datetime it START_KEYS = Some s ->
  (forall k, In k END_KEYS -> parse_any_datetime (get it k) = None) ->
  duration_found it 0 -> ends_after it s 60.
Proof.
  intros Hs He (before & k & after & Hkeys & Hb & Hk).
  apply first_datetime_none in He.
  apply coerce_event_end; try assumption.
  now rewrite Hkeys, (find_duration_found after Hb Hk).
Qed.

End CoerceEnd.

Lemma no_end_field (it : list (str * json)) :
  forallb (fun k => match parse_any_datetime (L:=Ref.lib) (get it k) with
                    | None => true
                    | Some _ => false
                    end) END_KEYS = true ->
  forall k, In k END_KEYS -> parse_any_datetime (L:=Ref.lib) (get it k) = None.
Proof.
  intros H k Hk. rewrite forallb_forall in H. specialize (H k Hk).
  now destruct (parse_any_datetime (get it k)).
Qed.

(** The spec's example: a start of 2024-06-01T10:00:00+02:00 with no end
    and no duration ends at 11:00:00+02:00. *)
Example coerce_event_default_end :
  exists ev, coerce_event (L:=Ref.lib) record_no_duration = Ok (Some ev) /\
             Ref.isoformat (start ev) = lit "2024-06-01T10:00:00+02:00" /\
             Ref.isoformat (end_ ev) = lit "2024-06-01T11:00:00+02:00".
Proof. eexists. split; [vm_compute; reflexivity|]. split; reflexivity. Qed.

(** C2 as worded fails on the code: a duration of 0 gives the 60-minute
    default, not an end equal to the start; and a first present duration
    that [int()] rejects does not give the default when a later key holds a
    usable one. *)
Lemma coerce_event_end_counterexample :
  ~ end_as_claimed (L:=Ref.lib) record_zero_duration /\
  ~ end_as_claimed (L:=Ref.lib) record_rejected_duration.
Proof.
  split; intros H.
  - specialize (H ten_oclock
                  (mkEvent (lit "FitX Course-1717228800") (lit "FitX Course")
                           ten_oclock (mkdt 63852836400000000 false)
                           None None None None)).
    assert (C : 63852836400000000 = 63852832800000000 + 0 * 60000000);
      [|discriminate C].
    apply H; [reflexivity| |reflexivity].
    apply no_end_field. reflexivity.
  - specialize (H ten_oclock
                  (mkEvent (lit "FitX Course-1717228800") (lit "FitX Course")
                           ten_oclock (mkdt 63852834600000000 false)
                           None None None None)).
    assert (C : 63852834600000000 = 63852832800000000 + 60 * 60000000);
      [|discriminate C].
    apply H; [reflexivity| |reflexivity].
    apply no_end_field. reflexivity.
Qed.

Lemma coerce_event_end_derived_witness :
  ends_after (L:=Ref.lib) record_rejected_duration ten_oclock 30 /\
  ends_after (L:=Ref.lib) record_no_duration ten_oclock 60.
Proof.
  split.
  - apply (proj1 (coerce_event_end_derived (L:=Ref.lib)
                    record_rejected_duration (s:=ten_oclock) eq_refl
                    (no_end_field record_rejected_duration eq_refl)));
      [|discriminate].
    exists ["durationMinutes"; "duration"]%string, "length"%string,
           ["minutes"]%string.
    split; [reflexivity|]. split.
    + constructor; [left; reflexivity|].
      constructor; [right; reflexivity|constructor].
    + split; [discriminate|reflexivity].
  - apply (proj2 (coerce_event_end_derived (L:=Ref.lib)
                    record_no_duration (s:=ten_oclock) eq_refl
                    (no_end_field record_no_duration eq_refl))).
    repeat (constructor; [left; reflexivity|]). constructor.
Defined.

(** ** The stable sort *)

Section Sorting.

Variable A : Type.
Variable leb : A -> A -> bool.
Hypothesis leb_total : forall a b, leb a b = true \/ leb b a = true.
Hypothesis leb_trans : forall a b c, leb a b = true -> leb b c = true -> leb a c = true.

Lemma insert_by_perm (x : A) (l : list A) : Permutation (insert_by leb x l) (x :: l).
Proof.
  induction l as [|y t IH]; cbn [insert_by]; [reflexivity|].
  destruct (leb x y); [reflexivity|].
  rewrite IH. apply perm_swap.
Qed.

Lemma sorted_by_perm (l : list A) : Permutation (sorted_by leb l) l.
Proof.
  induction l as [|x t IH]; cbn; [reflexivity|].
  fold (sorted_by leb t). rewrite insert_by_perm. now constructor.
Qed.

Lemma insert_by_sorted (x : A) (l : list A) :
  StronglySorted (fun a b => leb a b = true) l ->
  StronglySorted (fun a b => leb a b = true) (insert_by leb x l).
Proof.
  induction 1 as [|y t Hs IH Hy]; cbn [insert_by].
  - repeat constructor.
  - destruct (leb x y) eqn:E.
    + constructor; [now constructor|]. constructor; [exact E|].
      eapply Forall_impl; [|exact Hy]. intros z Hz. eapply leb_trans; eauto.
    + constructor; [exact IH|].
      assert (Hyx : leb y x = true) by (destruct (leb_total x y); [congruence|assumption]).
      eapply Permutation_Forall; [symmetry; apply insert_by_perm|].
      now constructor.
Qed.

Lemma sorted_by_sorted (l : list A) :
  StronglySorted (fun a b => leb a b = true) (sorted_by leb l).
Proof.
  induction l as [|x t IH]; cbn; [constructor|].
  now apply insert_by_sorted.
Qed.

(** Two sorted permutations of each other agree when the order is
    antisymmetric on their elements. *)
Lemma sorted_perm_unique (l1 l2 : list A) :
  (forall a b, In a l1 -> In b l1 ->
               leb a b = true -> leb b a = true -> a = b) ->
  StronglySorted (fun a b => leb a b = true) l1 ->
  StronglySorted (fun a b => leb a b = true) l2 ->
  Permutation l1 l2 -> l1 = l2.
Proof.
  revert l2. induction l1 as [|a t1 IH]; intros l2 Hanti S1 S2 P.
  - apply Permutation_nil in P. now subst.
  - destruct l2 as [|b t2];
      [apply Permutation_sym, Permutation_nil in P; discriminate|].
    inversion S1 as [|? ? S1' F1]; subst. inversion S2 as [|? ? S2' F2]; subst.
    assert (Hab : a = b).
    { assert (Hb : In b (a :: t1))
        by (eapply Permutation_in; [symmetry; exact P|now left]).
      assert (Ha : In a (b :: t2))
        by (eapply Permutation_in; [exact P|now left]).
      destruct Hb as [Hb|Hb]; [exact Hb|].
      destruct Ha as [Ha|Ha]; [now symmetry|].
      rewrite Forall_forall in F1, F2.
      apply Hanti; [now left|now right|now apply F1|now apply F2]. }
    subst b. f_equal. apply IH; try assumption.
    + intros x y Hx Hy. apply Hanti; now right.
    + eapply Permutation_cons_inv; exact P.
Qed.

End Sorting.

(** ** The order on events *)

Lemma str_leb_total (a b : str) : str_leb a b = true \/ str_leb b a = true.
Proof.
  revert b. induction a as [|x a IH]; intros [|y b]; cbn; auto.
  destruct (N.ltb_spec x y); [auto|].
  destruct (N.ltb_spec y x); [auto|]. apply IH.
Qed.

Lemma str_leb_trans (a b c : str) :
  str_leb a b = true -> str_leb b c = true -> str_leb a c = true.
Proof.
  revert b c. induction a as [|x a IH]; intros [|y b] [|z c]; cbn; auto;
    try discriminate.
  destruct (N.ltb_spec x y), (N.ltb_spec y z), (N.ltb_spec x z); auto;
    try lia;
    destruct (N.ltb_spec y x), (N.ltb_spec z y), (N.ltb_spec z x);
    try discriminate; try lia; eauto.
Qed.

Lemma str_leb_antisym (a b : str) :
  str_leb a b = true -> str_leb b a = true -> a = b.
Proof.
  revert b. induction a as [|x a IH]; intros [|y b]; cbn; auto;
    try discriminate.
  destruct (N.ltb_spec x y), (N.ltb_spec y x); try discriminate; try lia.
  intros H1 H2. assert (x = y) by lia. subst. f_equal. now apply IH.
Qed.

Lemma event_leb_spec (a b : CourseEvent) :
  event_leb a b = true <->
  wall (start a) < wall (start b) \/
  (wall (start a) = wall (start b) /\ str_leb (title a) (title b) = true).
Proof.
  unfold event_leb.
  destruct (Z.ltb_spec (wall (start a)) (wall (start b))).
  - split; auto.
  - destruct (Z.ltb_spec (wall (start b)) (wall (start a))).
    + split; [discriminate|]. intros [?|[? _]]; lia.
    + split; [intros; right; split; [lia|assumption]|]. intros [?|[_ ?]]; [lia|assumption].
Qed.

Lemma event_leb_total (a b : CourseEvent) :
  event_leb a b = true \/ event_leb b a = true.
Proof.
  rewrite !event_leb_spec.
  destruct (str_leb_total (title a) (title b));
    destruct (Z.lt_total (wall (start a)) (wall (start b))) as [?|[?|?]];
    auto; right; right; auto.
Qed.

Lemma event_leb_trans (a b c : CourseEvent) :
  event_leb a b = true -> event_leb b c = true -> event_leb a c = true.
Proof.
  rewrite !event_leb_spec.
  intros [H1|[H1 T1]] [H2|[H2 T2]]; try (left; lia).
  right. split; [lia|]. eapply str_leb_trans; eauto.
Qed.

(** ** parser.py: deduplication *)

Lemma key_eqb_eq (a b : dedup_key) : key_eqb a b = true <-> a = b.
Proof.
  destruct a as [[i s] e], b as [[i' s'] e']. cbn [key_eqb].
  rewrite !andb_true_iff, str_eqb_eq, !Z.eqb_eq. split.
  - intros [[-> ->] ->]. reflexivity.
  - intros H. injection H as -> -> ->. auto.
Qed.

Lemma key_eqb_refl (k : dedup_key) : key_eqb k k = true.
Proof. now apply key_eqb_eq. Qed.

Lemma key_eqb_neq (a b : dedup_key) : key_eqb a b = false <-> a <> b.
Proof.
  split.
  - intros E ->. rewrite key_eqb_refl in E. discriminate.
  - intros N. apply not_true_is_false. intros E. now apply key_eqb_eq in E.
Qed.

Lemma dict_set_keys (u : list (dedup_key * CourseEvent)) (k k' : dedup_key)
  (e : CourseEvent) :
  In k' (List.map fst (dict_set u k e)) <-> k' = k \/ In k' (List.map fst u).
Proof.
  induction u as [|[k0 e0] t IH]; cbn [dict_set List.map fst In].
  - intuition congruence.
  - destruct (key_eqb k0 k) eqn:E; cbn [List.map fst In].
    + apply key_eqb_eq in E. subst k0. intuition congruence.
    + rewrite IH. tauto.
Qed.

Lemma dict_set_nodup (u : list (dedup_key * CourseEvent)) (k : dedup_key)
  (e : CourseEvent) :
  NoDup (List.map fst u) -> NoDup (List.map fst (dict_set u k e)).
Proof.
  induction u as [|[k0 e0] t IH]; cbn [dict_set List.map fst]; intros H.
  - repeat constructor. intros [].
  - inversion H as [|? ? Hin Hnd]; subst.
    destruct (key_eqb k0 k) eqn:E; cbn [List.map fst].
    + now constructor.
    + apply key_eqb_neq in E. constructor; [|now apply IH].
      rewrite dict_set_keys. intros [->|Hk]; [now apply E|now apply Hin].
Qed.

Lemma dict_set_in (u : list (dedup_key * CourseEvent)) (k k' : dedup_key)
  (e e' : CourseEvent) :
  NoDup (List.map fst u) ->
  In (k', e') (dict_set u k e) ->
  (k' = k /\ e' = e) \/ (k' <> k /\ In (k', e') u).
Proof.
  induction u as [|[k0 e0] t IH]; cbn [dict_set List.map fst]; intros Hnd.
  - intros [H|[]]. injection H as <- <-. auto.
  - inversion Hnd as [|? ? Hin Hnd']; subst.
    destruct (key_eqb k0 k) eqn:E.
    + apply key_eqb_eq in E. subst k0. intros [H|H].
      * injection H as <- <-. auto.
      * right. split; [|now right]. intros ->. apply Hin.
        apply (in_map fst) in H. exact H.
    + apply key_eqb_neq in E. intros [H|H].
      * injection H as <- <-. right. split; [exact E|now left].
      * destruct (IH Hnd' H) as [?|[? ?]]; [auto|].
        right. split; [assumption|now right].
Qed.

Lemma dict_set_new (u : list (dedup_key * CourseEvent)) (k : dedup_key)
  (e : CourseEvent) :
  In (k, e) (dict_set u k e).
Proof.
  induction u as [|[k0 e0] t IH]; cbn [dict_set]; [now left|].
  destruct (key_eqb k0 k) eqn:E.
  - apply key_eqb_eq in E. subst k0. now left.
  - now right.
Qed.

Section Dedup.

Context {L : PyLib}.

Lemma uniq_inv_step (seen : list CourseEvent)
  (u : list (dedup_key * CourseEvent)) (x : CourseEvent) :
  uniq_inv seen u -> uniq_inv (seen ++ [x]) (dict_set u (event_key x) x).
Proof.
  intros (Hnd & Hent & Hcov). split; [|split].
  - now apply dict_set_nodup.
  - intros k e Hin. apply dict_set_in in Hin; [|assumption].
    destruct Hin as [[-> ->]|[Hne Hin]].
    + split; [reflexivity|]. exists seen, []. split; [reflexivity|]. intros e' [].
    + destruct (Hent k e Hin) as (-> & l1 & l2 & -> & Hlast).
      split; [reflexivity|]. exists l1, (l2 ++ [x]). split.
      * now rewrite <- app_assoc.
      * intros e' He'. apply in_app_or in He' as [He'|[<-|[]]];
          [now apply Hlast|congruence].
  - intros e He. rewrite dict_set_keys.
    apply in_app_or in He as [He|[<-|[]]]; [right; now apply Hcov|now left].
Qed.

Lemma uniq_inv_fold (events seen : list CourseEvent)
  (u : list (dedup_key * CourseEvent)) :
  uniq_inv seen u ->
  uniq_inv (seen ++ events)
           (fold_left (fun u e => dict_set u (event_key e) e) events u).
Proof.
  revert seen u. induction events as [|x rest IH]; intros seen u H; cbn [fold_left].
  - now rewrite app_nil_r.
  - replace (seen ++ x :: rest) with ((seen ++ [x]) ++ rest)
      by (now rewrite <- app_assoc).
    apply IH. now apply uniq_inv_step.
Qed.

Lemma dedup_inv (events : list CourseEvent) :
  uniq_inv events (fold_left (fun u e => dict_set u (event_key e) e) events []).
Proof.
  apply (uniq_inv_fold events (seen:=[]) (u:=[])).
  split; [constructor|]. split; [intros k e []|intros e []].
Qed.

Lemma dedup_keys (events : list CourseEvent) :
  List.map event_key (dedup events)
  = List.map fst (fold_left (fun u e => dict_set u (event_key e) e) events []).
Proof.
  destruct (dedup_inv events) as (_ & Hent & _). unfold dedup.
  rewrite map_map. apply map_ext_in. intros [k e] Hin.
  cbn [fst snd]. symmetry. now apply Hent.
Qed.

(** C3.  [_build_events_from_obj] passes the coerced events through
    [dedup_sort], whose key is the claimed one: the id, the integer epoch
    seconds of start and the integer epoch seconds of end.  Its result holds
    one event per such key; the event kept for a key is the last one with
    that key in extraction order; every key of the input is kept, so two
    events that differ in id, in start second or in end second both
    survive; and the result is sorted ascending by (start, title). *)
Theorem dedup_sort_correct :
  (forall obj,
      _build_events_from_obj obj
      = bind (coerce_all (extract_events_from_json obj))
             (fun events => Ok (dedup_sort events))) /\
  (forall e, event_key e = claimed_key e) /\
  (forall events,
      NoDup (List.map claimed_key (dedup_sort events)) /\
      (forall e, In e (dedup_sort events) -> last_with_claimed_key events e) /\
      (forall e, In e events ->
                 exists e', In e' (dedup_sort events) /\
                            claimed_key e' = claimed_key e) /\
      (forall a b,
          In a events -> In b events ->
          id a <> id b \/
          timestamp_int (start a) <> timestamp_int (start b) \/
          timestamp_int (end_ a) <> timestamp_int (end_ b) ->
          exists a' b',
            In a' (dedup_sort events) /\ In b' (dedup_sort events) /\
            a' <> b' /\
            claimed_key a' = claimed_key a /\ claimed_key b' = claimed_key b) /\
      StronglySorted (fun a b => event_leb a b = true) (dedup_sort events)) /\
  (forall a b,
      event_leb a b = true <->
      wall (start a) < wall (start b) \/
      (wall (start a) = wall (start b) /\ str_leb (title a) (title b) = true)).
Proof.
  split; [reflexivity|]. split; [reflexivity|]. split; [|exact event_leb_spec].
  intros events. unfold dedup_sort.
  pose proof (sorted_by_perm event_leb (dedup events)) as P.
  destruct (dedup_inv events) as (Hnd & Hent & Hcov).
  assert (Hin : forall e, In e (dedup events) ->
                          exists k, In (k, e) (fold_left (fun u e => dict_set u (event_key e) e) events [])).
  { intros e He. unfold dedup in He. apply in_map_iff in He as ([k e'] & <- & H).
    now exists k. }
  assert (Hkeep : forall e, In e events ->
                            exists e', In e' (sorted_by event_leb (dedup events)) /\
                                       claimed_key e' = claimed_key e).
  { intros e He. specialize (Hcov e He). rewrite <- dedup_keys in Hcov.
    apply in_map_iff in Hcov as (e' & Hk & He').
    exists e'. split; [|exact Hk].
    eapply Permutation_in; [symmetry; exact P|exact He']. }
  split; [|split; [|split; [|split]]].
  - change claimed_key with event_key.
    eapply Permutation_NoDup; [apply Permutation_map, Permutation_sym, P|].
    now rewrite dedup_keys.
  - intros e He. apply (Permutation_in _ P) in He.
    destruct (Hin e He) as [k Hk]. now apply (Hent k e).
  - exact Hkeep.
  - intros a b Ha Hb Hne.
    destruct (Hkeep a Ha) as (a' & Ha' & Ka).
    destruct (Hkeep b Hb) as (b' & Hb' & Kb).
    exists a', b'. repeat split; try assumption.
    intros ->. rewrite Ka in Kb. unfold claimed_key in Kb.
    injection Kb as K1 K2 K3. tauto.
  - apply sorted_by_sorted; [exact event_leb_total|exact event_leb_trans].
Qed.

End Dedup.

(** ** UTF-8: decoding what was encoded *)

Lemma to_N_byte_of_N (n : N) : (n < 256)%N -> Byte.to_N (byte_of_N n) = n.
Proof.
  intros H. unfold byte_of_N. destruct (Byte.of_N n) as [b|] eqn:E.
  - now apply Byte.to_of_N.
  - apply Byte.of_N_None_iff in E. lia.
Qed.

Ltac div_mod_lia := zify; Z.to_euclidean_division_equations; lia.

Ltac decide_tests :=
  repeat match goal with
         | |- context [(?a <? ?b)%N] => destruct (N.ltb_spec a b); try lia
         | |- context [(?a <=? ?b)%N] => destruct (N.leb_spec a b); try lia
         | |- context [(?a =? ?b)%N] => destruct (N.eqb_spec a b); try lia
         end.

Lemma some_eq {A} (a b : A) : Some a = Some b -> a = b.
Proof. congruence. Qed.

Lemma utf8_next_encode (c : char) (bs : bytes) (rest : list N) :
  encode_char c = Some bs ->
  exists b0 tl,
    List.map Byte.to_N bs = b0 :: tl /\
    utf8_next b0 (tl ++ rest) = (Some c, List.length tl).
Proof.
  unfold encode_char.
  destruct (N.ltb_spec c 128).
  { intros E. apply some_eq in E. subst bs. cbn [List.map].
    rewrite to_N_byte_of_N by lia. do 2 eexists. split; [reflexivity|].
    unfold utf8_next. destruct (N.ltb_spec c 128); [reflexivity|lia]. }
  destruct (N.ltb_spec c 2048).
  { intros E. apply some_eq in E. subst bs. cbn [List.map].
    set (q := (c / 64)%N). set (m0 := (c mod 64)%N).
    assert (q < 32 /\ 2 <= q /\ m0 < 64 /\ 64 * q + m0 = c)%N
      as (A1 & A2 & A3 & A4)
      by (unfold q, m0; div_mod_lia).
    clearbody q m0.
    rewrite !to_N_byte_of_N by lia. do 2 eexists. split; [reflexivity|].
    unfold utf8_next, is_cont. cbn [app List.length].
    decide_tests. cbn [andb]. do 2 f_equal. lia. }
  destruct ((55296 <=? c) && (c <? 57344))%N eqn:Sur; [discriminate|].
  assert (NS : (c < 55296 \/ 57344 <= c)%N).
  { apply andb_false_iff in Sur as [S|S];
      [apply N.leb_gt in S|apply N.ltb_ge in S]; lia. }
  clear Sur.
  destruct (N.ltb_spec c 65536).
  { intros E. apply some_eq in E. subst bs. cbn [List.map].
    set (q := (c / 4096)%N). set (m1 := ((c / 64) mod 64)%N).
    set (m0 := (c mod 64)%N).
    assert (q < 16 /\ m1 < 64 /\ m0 < 64 /\ (q = 0 -> 32 <= m1) /\
            (q = 13 -> m1 < 32) /\ 4096 * q + 64 * m1 + m0 = c)%N
      as (A1 & A2 & A3 & A4 & A5 & A6)
      by (unfold q, m1, m0; div_mod_lia).
    clearbody q m1 m0.
    rewrite !to_N_byte_of_N by lia. do 2 eexists. split; [reflexivity|].
    unfold utf8_next, is_cont. cbn [app List.length].
    decide_tests; cbn [andb orb negb]; decide_tests; do 2 f_equal; lia. }
  destruct (N.ltb_spec c 1114112); [|discriminate].
  intros E. apply some_eq in E. subst bs. cbn [List.map].
  set (q := (c / 262144)%N). set (m2 := ((c / 4096) mod 64)%N).
  set (m1 := ((c / 64) mod 64)%N). set (m0 := (c mod 64)%N).
  assert (q < 5 /\ m2 < 64 /\ m1 < 64 /\ m0 < 64 /\ (q = 0 -> 16 <= m2) /\
          (q = 4 -> m2 < 16) /\
          262144 * q + 4096 * m2 + 64 * m1 + m0 = c)%N
    as (A1 & A2 & A3 & A4 & A5 & A6 & A7)
    by (unfold q, m2, m1, m0; div_mod_lia).
  clearbody q m2 m1 m0.
  rewrite !to_N_byte_of_N by lia. do 2 eexists. split; [reflexivity|].
  unfold utf8_next, is_cont. cbn [app List.length].
  decide_tests; cbn [andb orb negb]; decide_tests; do 2 f_equal; lia.
Qed.

Lemma decode_strict_skip (tl rest : list N) :
  decode_strict_from (List.length tl) (tl ++ rest) = decode_strict_from O rest.
Proof.
  induction tl as [|b tl IH]; [reflexivity|].
  cbn [List.length app]. destruct rest as [|r rest'].
  - rewrite app_nil_r in *. cbn [decode_strict_from]. exact IH.
  - cbn [decode_strict_from]. exact IH.
Qed.

Lemma decode_encode_utf8 (s : str) (b : bytes) :
  encode_utf8 s = Some b -> decode_utf8_strict b = Some s.
Proof.
  unfold decode_utf8_strict. revert b.
  induction s as [|c t IH]; cbn [encode_utf8]; intros b E.
  - apply some_eq in E. subst b. reflexivity.
  - destruct (encode_char c) as [bc|] eqn:Ec; [|discriminate].
    destruct (encode_utf8 t) as [bt|]; [|discriminate].
    apply some_eq in E. subst b. rewrite map_app.
    destruct (utf8_next_encode c (List.map Byte.to_N bt) Ec)
      as (b0 & tl & -> & Hn).
    cbn [app decode_strict_from]. rewrite Hn.
    rewrite decode_strict_skip, (IH bt eq_refl). reflexivity.
Qed.

(** ** store.py: what [load_cache] reads back *)

Lemma universal_newlines_no_cr (s : str) : ~ In CR (universal_newlines s).
Proof.
  induction s as [|c|c c' t IH1 IH2] using str_ind2.
  - intros [].
  - cbn [universal_newlines]. destruct (N.eqb_spec c CR) as [->|H].
    + intros [H|[]]. discriminate.
    + rewrite (char_eqb_neq H). intros [E|[]]. congruence.
  - remember (c' :: t) as s eqn:Es. cbn [universal_newlines].
    destruct (N.eqb_spec c CR) as [->|H].
    + rewrite char_eqb_refl. subst s.
      destruct (char_eqb c' LF); intros [E|E]; try discriminate; tauto.
    + rewrite (char_eqb_neq H). intros [E|E]; [congruence|tauto].
Qed.

Section Store.

Context {L : PyLib}.

Lemma save_cache_ok (events : list CourseEvent) (ics_text : str) (d d' : disk) :
  save_cache events ics_text d = (d', Ok tt) ->
  exists jb ib,
    encode_utf8 (json_dumps (JList (List.map event_to_json events))) = Some jb /\
    encode_utf8 ics_text = Some ib /\
    d' = mkDisk (Some jb) (Some ib).
Proof.
  unfold save_cache.
  destruct ensure_data_dir; [|discriminate].
  destruct (encode_utf8 (json_dumps _)) as [jb|]; [|discriminate].
  unfold atomic_write.
  destruct (write_fails CACHE_JSON jb); [discriminate|].
  destruct (encode_utf8 ics_text) as [ib|]; [|discriminate].
  destruct (write_fails CACHE_ICS ib); [discriminate|].
  intros H. exists jb, ib. split; [reflexivity|]. split; [reflexivity|].
  cbn [cache_json_file cache_ics_file] in H. congruence.
Qed.

Lemma save_cache_ok_dir (events : list CourseEvent) (ics_text : str)
  (d d' : disk) :
  save_cache events ics_text d = (d', Ok tt) -> ensure_data_dir = Ok tt.
Proof.
  unfold save_cache. destruct ensure_data_dir as [[]|e]; [reflexivity|].
  discriminate.
Qed.

(** C9 (the calendar text).  After a [save_cache] that returns,
    [load_cache] yields the saved text with every CR LF and every CR turned
    into LF, so a text holding a carriage return is not read back
    identically; every document [generate_ics] produces holds one. *)
Theorem load_cache_translates_newlines :
  (forall events ics_text d d',
      save_cache events ics_text d = (d', Ok tt) ->
      fst (load_cache d') = Some (universal_newlines ics_text) /\
      (In CR ics_text -> fst (load_cache d') <> Some ics_text)) /\
  (forall now course_id events, In CR (generate_ics now course_id events)) /\
  universal_newlines (lit "BEGIN:VCALENDAR" ++ [CR; LF])
  = lit "BEGIN:VCALENDAR" ++ [LF].
Proof.
  split; [|split; [|reflexivity]].
  - intros events ics_text d d' H.
    apply save_cache_ok in H as (jb & ib & _ & Hi & ->).
    assert (E : fst (load_cache (mkDisk (Some jb) (Some ib)))
                = Some (universal_newlines ics_text)).
    { unfold load_cache, read_text. cbn [fst read_bytes cache_ics_file].
      now rewrite (decode_encode_utf8 _ Hi). }
    split; [exact E|]. intros Hcr. rewrite E. intros Heq.
    apply some_eq in Heq. rewrite <- Heq in Hcr.
    now apply universal_newlines_no_cr in Hcr.
  - intros now course_id events. unfold generate_ics.
    apply in_or_app. right. now left.
Qed.

End Store.

(** The event list of a saved cache is read back as saved (reference
    library, text without carriage return). *)
Example load_cache_events_example :
  load_cache (L:=Ref.lib)
    (fst (save_cache (L:=Ref.lib) [pilates; yoga_studio_1]
            (lit "BEGIN:VCALENDAR") (mkDisk None None)))
  = (Some (lit "BEGIN:VCALENDAR"),
     Some (List.map cached_of [pilates; yoga_studio_1])).
Proof. vm_compute. reflexivity. Qed.

Lemma load_cache_translates_newlines_witness :
  save_cache (L:=Ref.lib) [] (lit "BEGIN:VCALENDAR" ++ [CR; LF])
             (mkDisk None None)
  = (mkDisk (Some (blit "[]"))
            (Some (blit "BEGIN:VCALENDAR" ++ [x0d; x0a])), Ok tt) /\
  fst (load_cache (L:=Ref.lib)
         (mkDisk (Some (blit "[]"))
                 (Some (blit "BEGIN:VCALENDAR" ++ [x0d; x0a]))))
  = Some (lit "BEGIN:VCALENDAR" ++ [LF]).
Proof.
  split; [reflexivity|].
  apply (proj1 (proj1 (load_cache_translates_newlines (L:=Ref.lib))
                  [] (lit "BEGIN:VCALENDAR" ++ [CR; LF])
                  (mkDisk None None) _ eq_refl)).
Defined.

(** ** ics.py: the event blocks of [generate_ics] *)

Section Stability.

Variable A : Type.
Variable leb : A -> A -> bool.
Hypothesis leb_trans : forall a b c, leb a b = true -> leb b c = true -> leb a c = true.

Lemma insert_by_tied (k x : A) (l : list A) :
  filter (tied leb k) (insert_by leb x l)
  = if tied leb k x then x :: filter (tied leb k) l
    else filter (tied leb k) l.
Proof.
  induction l as [|y t IH]; cbn [insert_by filter]; [reflexivity|].
  destruct (leb x y) eqn:Exy; cbn [filter]; [reflexivity|].
  rewrite IH. destruct (tied leb k x) eqn:Ekx; [|reflexivity].
  destruct (tied leb k y) eqn:Eky; [|reflexivity].
  unfold tied in Ekx, Eky. apply andb_prop in Ekx as [K1 K2].
  apply andb_prop in Eky as [K3 K4].
  rewrite (leb_trans K2 K3) in Exy. discriminate.
Qed.

Lemma sorted_by_stable (k : A) (l : list A) :
  filter (tied leb k) (sorted_by leb l) = filter (tied leb k) l.
Proof.
  induction l as [|x t IH]; [reflexivity|].
  unfold sorted_by in *. cbn [fold_right filter].
  rewrite insert_by_tied, IH. reflexivity.
Qed.

End Stability.

Lemma is_begin_vevent_length (l : str) :
  is_begin_vevent l = true -> List.length l = 12%nat.
Proof.
  unfold is_begin_vevent. intros H. apply str_eqb_eq in H. now subst l.
Qed.

Lemma is_begin_vevent_head (c : char) (rest : str) :
  c <> 66%N -> is_begin_vevent (c :: rest) = false.
Proof.
  intros H. unfold is_begin_vevent, BEGIN_VEVENT.
  change (lit "BEGIN:VEVENT") with (66%N :: lit "EGIN:VEVENT").
  cbn [str_eqb]. now rewrite (char_eqb_neq H).
Qed.

Lemma not_begin_long (l : str) :
  (12 < List.length l)%nat -> is_begin_vevent l = false.
Proof.
  intros H. apply not_true_is_false. intros E.
  apply is_begin_vevent_length in E. lia.
Qed.

Lemma filter_begin_continuation (conts : list str) :
  Forall continuation_line conts -> filter is_begin_vevent conts = [].
Proof.
  induction 1 as [|l t [r ->] _ IH]; [reflexivity|].
  cbn [filter]. rewrite is_begin_vevent_head by discriminate. exact IH.
Qed.

Lemma filter_begin_fold_line (l : str) :
  filter is_begin_vevent (_fold_line l) = filter is_begin_vevent [l].
Proof.
  destruct (_fold_line_shape l) as (conts & -> & Hc & _ & _ & Hnil).
  pose proof max_len_eq as M.
  cbn [filter]. rewrite (filter_begin_continuation Hc).
  destruct (le_lt_dec (List.length l) max_len) as [Hs|Hl].
  - now rewrite firstn_all2.
  - rewrite (not_begin_long l) by lia.
    rewrite not_begin_long; [reflexivity|]. rewrite length_firstn. lia.
Qed.

Lemma filter_begin_folded (lines : list str) :
  filter is_begin_vevent (folded_lines lines) = filter is_begin_vevent lines.
Proof.
  unfold folded_lines. induction lines as [|l t IH]; [reflexivity|].
  cbn [flat_map]. rewrite filter_app, filter_begin_fold_line, IH.
  cbn [filter]. now destruct (is_begin_vevent l).
Qed.

Lemma not_begin_literal (p : string) (rest : str) :
  match lit p with
  | c :: _ => negb (char_eqb c 66%N)
  | [] => false
  end = true ->
  is_begin_vevent (lit p ++ rest) = false.
Proof.
  destruct (lit p) as [|c q]; [discriminate|]. intros H.
  apply negb_true_iff, N.eqb_neq in H. cbn [app].
  now apply is_begin_vevent_head.
Qed.

Lemma vevent_lines_one_block (now course_id : Z) (ev : CourseEvent) :
  vevent_blocks (vevent_lines now course_id ev) = 1%nat.
Proof.
  unfold vevent_blocks, vevent_lines. rewrite !filter_app. cbn [filter].
  change (is_begin_vevent (lit "BEGIN:VEVENT")) with true. cbv iota.
  rewrite !not_begin_literal by reflexivity.
  change (is_begin_vevent (lit "END:VEVENT")) with false. cbv iota.
  rewrite !length_app. cbn [List.length].
  assert (D : forall parts : list str,
             filter is_begin_vevent
               match parts with
               | [] => []
               | _ => [lit "DESCRIPTION:" ++ _escape_ics (join [LF] parts)]
               end = []).
  { intros [|x xs]; [reflexivity|]. cbn [filter].
    now rewrite not_begin_literal. }
  rewrite D. destruct (nonempty (location ev)) as [s|]; cbn [option_map opt_list filter].
  - rewrite not_begin_literal by reflexivity. reflexivity.
  - reflexivity.
Qed.

Lemma vevent_blocks_events (now course_id : Z) (events : list CourseEvent) :
  vevent_blocks (flat_map (vevent_lines now course_id) events)
  = List.length events.
Proof.
  induction events as [|e t IH]; [reflexivity|].
  unfold vevent_blocks in *. cbn [flat_map List.length].
  rewrite filter_app, length_app, IH.
  pose proof (vevent_lines_one_block now course_id e) as H.
  unfold vevent_blocks in H. now rewrite H.
Qed.

Lemma vevent_blocks_ics (now course_id : Z) (events : list CourseEvent) :
  vevent_blocks (folded_lines (ics_lines now course_id events))
  = List.length events.
Proof.
  unfold vevent_blocks. rewrite filter_begin_folded. unfold ics_lines.
  rewrite !filter_app, !length_app.
  change (filter is_begin_vevent HEADER) with (@nil str).
  change (filter is_begin_vevent _vtz_europe_berlin) with (@nil str).
  change (filter is_begin_vevent [lit "END:VCALENDAR"]) with (@nil str).
  cbn [List.length]. rewrite Nat.add_0_r.
  fold (vevent_blocks (flat_map (vevent_lines now course_id)
                                (sorted_by event_leb events))).
  rewrite vevent_blocks_events.
  apply Permutation_length, sorted_by_perm.
Qed.

(** C8, as amended.  [generate_ics] emits one [VEVENT] block per input
    event, in the order of the stable sort of the input by (start, title):
    the sorted list is a permutation of the input, ascending, and events
    with equal (start, title) keep their input order.  For a fixed
    [DTSTAMP] moment two permutations of an event list give the same
    document when no two different events of the list have the same
    (start, title). *)
Theorem generate_ics_sorted_blocks :
  (forall now course_id events,
      ics_lines now course_id events
      = HEADER ++ _vtz_europe_berlin
        ++ flat_map (vevent_lines now course_id) (sorted_by event_leb events)
        ++ [lit "END:VCALENDAR"] /\
      vevent_blocks (folded_lines (ics_lines now course_id events))
      = List.length events /\
      Permutation (sorted_by event_leb events) events /\
      StronglySorted (fun a b => event_leb a b = true)
                     (sorted_by event_leb events) /\
      forall k, filter (tied event_leb k) (sorted_by event_leb events)
                = filter (tied event_leb k) events) /\
  (forall now course_id l1 l2,
      Permutation l1 l2 ->
      (forall a b, In a l1 -> In b l1 ->
                   wall (start a) = wall (start b) -> title a = title b ->
                   a = b) ->
      generate_ics now course_id l1 = generate_ics now course_id l2).
Proof.
  split.
  - intros now course_id events. split; [reflexivity|].
    split; [apply vevent_blocks_ics|]. split; [apply sorted_by_perm|].
    split.
    + apply sorted_by_sorted; [exact event_leb_total|exact event_leb_trans].
    + intros k. apply sorted_by_stable. exact event_leb_trans.
  - intros now course_id l1 l2 P Hdistinct.
    assert (E : sorted_by event_leb l1 = sorted_by event_leb l2).
    { apply sorted_perm_unique with (leb := event_leb).
      - intros a b Ha Hb Hab Hba.
        apply (Permutation_in _ (sorted_by_perm event_leb l1)) in Ha, Hb.
        apply event_leb_spec in Hab, Hba.
        destruct Hab as [Hab|[Hab Tab]]; destruct Hba as [Hba|[Hba Tba]];
          try lia.
        apply Hdistinct; try assumption. now apply str_leb_antisym.
      - apply sorted_by_sorted; [exact event_leb_total|exact event_leb_trans].
      - apply sorted_by_sorted; [exact event_leb_total|exact event_leb_trans].
      - rewrite (sorted_by_perm event_leb l1), (sorted_by_perm event_leb l2).
        exact P. }
    unfold generate_ics, ics_lines. now rewrite E.
Qed.

(** C8 as worded fails on the code: two events with the same start and
    title and different ids are emitted in their input order. *)
Lemma generate_ics_permutation_counterexample :
  ~ (forall now course_id l1 l2,
        Permutation l1 l2 ->
        generate_ics now course_id l1 = generate_ics now course_id l2).
Proof.
  intros H.
  specialize (H 0 53 [yoga_a; yoga_b] [yoga_b; yoga_a] (perm_swap _ _ _)).
  vm_compute in H. discriminate H.
Qed.

Lemma generate_ics_sorted_blocks_witness :
  generate_ics 0 53 [yoga_a; pilates] = generate_ics 0 53 [pilates; yoga_a].
Proof.
  apply (proj2 generate_ics_sorted_blocks 0 53 [yoga_a; pilates]
           [pilates; yoga_a] (perm_swap _ _ _)).
  intros a b [<-|[<-|[]]] [<-|[<-|[]]] Hs Ht;
    try reflexivity; vm_compute in Ht; discriminate Ht.
Defined.

(** ** The theorems at concrete inputs *)

Lemma direct_json_returns_empty_witness :
  direct_json (L:=Ref.lib) (blit "{}") (Some (lit "application/json")) = true /\
  parse_schedule (L:=Ref.lib) (blit "{}") (Some (lit "application/json")) = Ok [].
Proof.
  split; [reflexivity|].
  apply (direct_json_returns_empty (L:=Ref.lib) (blit "{}")
           (Some (lit "application/json")) (obj:=JDict []));
    reflexivity.
Defined.

Lemma undecodable_iff_empty_witness :
  parse_schedule (L:=Ref.lib) [] (Some (lit "text/html")) = Raise UNDECODABLE /\
  parse_schedule (L:=Ref.lib) (blit "<html></html>") (Some (lit "text/html"))
  <> Raise UNDECODABLE.
Proof.
  split.
  - apply (proj1 (proj2 (proj2
             (undecodable_iff_empty (L:=Ref.lib) [] (Some (lit "text/html"))
                eq_refl)))).
    reflexivity.
  - apply (proj2 (proj2 (proj2
             (undecodable_iff_empty (L:=Ref.lib) (blit "<html></html>")
                (Some (lit "text/html")) eq_refl)))).
    discriminate.
Defined.

Lemma failed_refresh_keeps_cache_witness :
  _refresh_once (L:=Ref.lib) default_config net_down 0 stale_world
  = (stale_world, [StepFetch]) /\
  _refresh_once (L:=Ref.lib) default_config
                (net_serving (blit "<html></html>") "text/html") 0 stale_world
  = (stale_world, [StepFetch; StepParse]).
Proof.
  split.
  - apply (proj1 (failed_refresh_keeps_cache (L:=Ref.lib) default_config
                    net_down 0 stale_world)).
    eexists. reflexivity.
  - apply (proj1 (proj2 (failed_refresh_keeps_cache (L:=Ref.lib)
                           default_config
                           (net_serving (blit "<html></html>") "text/html")
                           0 stale_world))
             (blit "<html></html>") (Some (lit "text/html")) eq_refl).
    eexists. reflexivity.
Defined.

Lemma filter_events_correct_witness :
  exists events,
    parse_schedule (L:=Ref.lib) two_courses (Some (lit "application/json"))
    = Ok events /\
    List.map title events = [lit "Booty X Class"; lit "Yoga Flow"] /\
    _refresh_once (L:=Ref.lib) default_config
                  (net_serving two_courses "application/json") 0 empty_world
    = (let kept := filter_events (L:=Ref.lib) (EXCLUDE_KEYWORDS default_config) events in
       let ics_text := generate_ics 0 (FITX_COURSE_ID default_config) kept in
       (fst (_update_cache (L:=Ref.lib) kept ics_text empty_world),
        [StepFetch; StepParse; StepFilter; StepRender]
          ++ snd (_update_cache (L:=Ref.lib) kept ics_text empty_world))).
Proof.
  eexists. split; [vm_compute; reflexivity|]. split; [vm_compute; reflexivity|].
  apply (proj1 (proj2 (filter_events_correct (L:=Ref.lib)))
           default_config (net_serving two_courses "application/json")
           0 empty_world two_courses (Some (lit "application/json"))).
  - reflexivity.
  - vm_compute. reflexivity.
Defined.

Lemma dedup_sort_correct_witness :
  dedup_sort (L:=Ref.lib) [yoga_studio_1; pilates; yoga_studio_2]
  = [pilates; yoga_studio_2] /\
  last_with_claimed_key (L:=Ref.lib) [yoga_studio_1; pilates; yoga_studio_2]
                        yoga_studio_2 /\
  event_key (L:=Ref.lib) yoga_a = (lit "a", 1717228800, 1717232400) /\
  event_key (L:=Ref.lib) yoga_noon = (lit "a", 1717236000, 1717239600) /\
  dedup_sort (L:=Ref.lib) [yoga_noon; yoga_a] = [yoga_a; yoga_noon] /\
  exists a' b',
    In a' (dedup_sort (L:=Ref.lib) [yoga_noon; yoga_a]) /\
    In b' (dedup_sort (L:=Ref.lib) [yoga_noon; yoga_a]) /\ a' <> b'.
Proof.
  pose proof (proj1 (proj2 (proj2 (dedup_sort_correct (L:=Ref.lib))))) as H.
  split; [vm_compute; reflexivity|]. split.
  - apply (proj1 (proj2 (H [yoga_studio_1; pilates; yoga_studio_2]))
             yoga_studio_2).
    vm_compute. right. left. reflexivity.
  - split; [vm_compute; reflexivity|]. split; [vm_compute; reflexivity|].
    split; [vm_compute; reflexivity|].
    destruct (proj1 (proj2 (proj2 (proj2 (H [yoga_noon; yoga_a]))))
                yoga_noon yoga_a) as (a' & b' & Ha & Hb & Hne & _).
    + left. reflexivity.
    + right. left. reflexivity.
    + right. left. vm_compute. discriminate.
    + exists a', b'. split; [exact Ha|]. split; [exact Hb|exact Hne].
Defined.

(* ===================================================================== *)
(** * Part VII: further properties of the sources                         *)
(* ===================================================================== *)

(** ** parser.py: [coerce_event] *)

Lemma digits_fuel_nonempty (fuel : nat) (n : Z) (acc : str) :
  acc <> [] -> digits_fuel fuel n acc <> [].
Proof.
  revert n acc. induction fuel as [|f IH]; intros n acc Ha; cbn [digits_fuel];
    [exact Ha|].
  destruct (n <? 10); [discriminate|]. apply IH. discriminate.
Qed.

Lemma str_of_nonneg_nonempty (n : Z) : str_of_nonneg n <> [].
Proof.
  unfold str_of_nonneg. cbn [digits_fuel].
  destruct (n <? 10); [discriminate|]. apply digits_fuel_nonempty. discriminate.
Qed.

Lemma str_of_Z_nonempty (n : Z) : str_of_Z n <> [].
Proof.
  unfold str_of_Z. destruct (n <? 0); [discriminate|].
  apply str_of_nonneg_nonempty.
Qed.

Section Coerce.

Context {L : PyLib}.

Lemma parse_any_datetime_null : parse_any_datetime JNull = None.
Proof. reflexivity. Qed.

Lemma first_datetime_absent (it : list (str * json)) (keys : list string) :
  (forall k, In k keys -> get it k = JNull) -> first_datetime it keys = None.
Proof.
  intros H. apply first_datetime_none. intros k Hk. now rewrite (H k Hk).
Qed.

(** The fields of a coerced event, as [coerce_event] computes them. *)
Lemma coerce_event_fields (it : list (str * json)) (ev : CourseEvent) :
  coerce_event it = Ok (Some ev) ->
  exists s e,
    first_datetime it START_KEYS = Some s /\
    let title :=
      py_or (get it "title") (py_or (get it "name") (py_or (get it "courseName")
        (py_or (get it "course") (JStr (lit "FitX Course"))))) in
    ev = mkEvent
           (py_str
              (py_or (get it "id") (py_or (get it "eventId") (py_or (get it "uid")
                 (JStr (py_str title ++ lit "-" ++ str_of_Z (timestamp_int s)))))))
           (py_str title) s e
           (opt_or (_coerce_str (get it "location"))
              (opt_or (_coerce_str (get it "place"))
                 (opt_or (_coerce_str (get it "studio")) None)))
           (opt_or (_coerce_str (get it "instructor"))
              (opt_or (_coerce_str (get it "trainer"))
                 (opt_or (_coerce_str (get it "coach")) None)))
           (opt_or (_coerce_str (get it "room"))
              (opt_or (_coerce_str (get it "hall")) None))
           (opt_or (_coerce_str (get it "description"))
              (opt_or (_coerce_str (get it "details")) None)).
Proof.
  unfold coerce_event.
  destruct (first_datetime it START_KEYS) as [s|]; [|discriminate].
  match goal with
  | |- bind ?r _ = _ -> _ => destruct r as [e|x]; cbn [bind]; [|discriminate]
  end.
  intros H. exists s, e. split; [reflexivity|]. cbv zeta. congruence.
Qed.

(** X1.  [coerce_event] discards a record exactly when none of its start
    fields parses (in particular when it has none of them); an end field
    that parses is taken as it is, with no duration read and no error; and
    the only error is the overflow of a derived end. *)
Theorem coerce_event_outcomes (it : list (str * json)) :
  (coerce_event it = Ok None <-> first_datetime it START_KEYS = None) /\
  ((forall k, In k START_KEYS -> get it k = JNull) -> coerce_event it = Ok None) /\
  (forall s e,
      first_datetime it START_KEYS = Some s ->
      first_datetime it END_KEYS = Some e ->
      exists ev, coerce_event it = Ok (Some ev) /\ start ev = s /\ end_ ev = e) /\
  (forall x,
      coerce_event it = Raise x ->
      x = OverflowError /\ first_datetime it END_KEYS = None /\
      exists s, first_datetime it START_KEYS = Some s).
Proof.
  assert (A : coerce_event it = Ok None <-> first_datetime it START_KEYS = None).
  { unfold coerce_event.
    destruct (first_datetime it START_KEYS) as [s|]; [|tauto].
    match goal with
    | |- bind ?r _ = _ <-> _ => destruct r; cbn [bind]
    end; split; discriminate. }
  split; [exact A|]. split; [|split].
  - intros H. apply A. now apply first_datetime_absent.
  - intros s e Hs He. unfold coerce_event. rewrite Hs, He. cbn [bind].
    eexists. split; [reflexivity|]. split; reflexivity.
  - intros x. unfold coerce_event.
    destruct (first_datetime it START_KEYS) as [s|]; [|discriminate].
    destruct (first_datetime it END_KEYS) as [e|]; cbn [bind]; [discriminate|].
    assert (D : forall m (k : datetime -> result (option CourseEvent)),
               (forall e, k e <> Raise x) ->
               bind (add_minutes s m) k = Raise x -> x = OverflowError).
    { intros m k Hk. unfold add_minutes.
      destruct (wall_in_range _); cbn [bind]; [intros H; now apply Hk in H|].
      congruence. }
    intros H. split; [|split; [reflexivity|eauto]].
    destruct (find_duration it DURATION_KEYS) as [d|];
      [destruct (negb (d =? 0))|];
      (eapply D; [|exact H]; discriminate).
Qed.

Lemma truthy_py_str (v : json) :
  (forall v, repr_value v <> []) -> truthy v = true -> py_str v <> [].
Proof.
  intros Hr. destruct v as [|b|n|f|s|l|d]; cbn [truthy py_str]; intros H;
    try discriminate; try apply Hr.
  - subst b. discriminate.
  - apply str_of_Z_nonempty.
  - destruct s; [discriminate H|discriminate].
Qed.

Lemma truthy_py_or (a b : json) : truthy b = true -> truthy (py_or a b) = true.
Proof. intros H. unfold py_or. now destruct (truthy a) eqn:E. Qed.

(** X2.  When [str()] never gives the empty string, every coerced event has
    a non-empty id and a non-empty title. *)
Theorem coerce_event_id_title_nonempty :
  (forall v, repr_value v <> []) ->
  forall it ev, coerce_event it = Ok (Some ev) -> id ev <> [] /\ title ev <> [].
Proof.
  intros Hr it ev H. apply coerce_event_fields in H as (s & e & _ & H).
  cbv zeta in H. subst ev. cbn [id title].
  split; apply (truthy_py_str _ Hr); repeat apply truthy_py_or;
    [|reflexivity].
  cbn [truthy]. now destruct (py_str _).
Qed.

Lemma opt_or_absent_or_nonempty (a b : option str) :
  absent_or_nonempty b -> absent_or_nonempty (opt_or a b).
Proof.
  intros Hb. unfold opt_or. destruct a as [[|c s]|]; try exact Hb.
  right. eauto.
Qed.

(** X3.  The optional fields of a coerced event (location, instructor, room,
    description) are absent or non-empty: an empty string is never stored. *)
Theorem coerce_event_optional_fields (it : list (str * json)) (ev : CourseEvent) :
  coerce_event it = Ok (Some ev) ->
  absent_or_nonempty (location ev) /\ absent_or_nonempty (instructor ev) /\
  absent_or_nonempty (room ev) /\ absent_or_nonempty (description ev).
Proof.
  intros H. apply coerce_event_fields in H as (s & e & _ & H).
  cbv zeta in H. subst ev. cbn [location instructor room description].
  repeat split; repeat apply opt_or_absent_or_nonempty; now left.
Qed.

(** X4.  Integers as datetimes.  An integer up to 10^12 counts seconds:
    outside the seconds of years 1 to 9999 it is rejected, and inside it
    parses exactly when the conversion of that UTC instant to Europe/Berlin
    succeeds, which it does not near the end of year 9999.  So the
    millisecond timestamps up to 10^12 (instants before 2001-09-09) are
    read as seconds.  A larger integer is handed over as milliseconds. *)
Theorem parse_any_datetime_int (v : Z) :
  (v <= 1000000000000 ->
   parse_any_datetime (JInt v)
   = if (-62135596800 <=? v) && (v <? 253402300800)
     then berlin_fromutc (EPOCH_WALL + v * 1000000)
     else None) /\
  (v <= 1000000000000 ->
   forall d,
     parse_any_datetime (JInt v) = Some d <->
     -62135596800 <= v < 253402300800 /\
     berlin_fromutc (EPOCH_WALL + v * 1000000) = Some d) /\
  (v < -62135596800 \/ 253402300800 <= v <= 1000000000000 ->
   parse_any_datetime (JInt v) = None) /\
  (1000000000000 < v ->
   parse_any_datetime (JInt v)
   = match fromtimestamp_ms v with
     | Some w => berlin_fromutc w
     | None => None
     end).
Proof.
  assert (A : v <= 1000000000000 ->
              parse_any_datetime (JInt v)
              = if (-62135596800 <=? v) && (v <? 253402300800)
                then berlin_fromutc (EPOCH_WALL + v * 1000000)
                else None).
  { unfold parse_any_datetime, _parse_iso, _parse_epoch. cbn [py_int].
    intros Hv. destruct (Z.ltb_spec 1000000000000 v); [lia|].
    unfold wall_in_range, EPOCH_WALL, MAXWALL, MAXORDINAL, US_PER_DAY.
    destruct (Z.leb_spec 0 (719162 * 86400000000 + v * 1000000)),
             (Z.ltb_spec (719162 * 86400000000 + v * 1000000)
                         (3652059 * 86400000000)),
             (Z.leb_spec (-62135596800) v), (Z.ltb_spec v 253402300800);
      cbn [andb]; try reflexivity; lia. }
  split; [exact A|]. split; [|split].
  - intros Hv d. rewrite (A Hv).
    destruct (Z.leb_spec (-62135596800) v) as [Lo|Lo],
             (Z.ltb_spec v 253402300800) as [Hi|Hi];
      cbn [andb]; split; try discriminate; try (intros [? _]; lia).
    + intros E. split; [lia|exact E].
    + intros [_ E]. exact E.
  - intros Hv. rewrite A by lia.
    destruct (Z.leb_spec (-62135596800) v), (Z.ltb_spec v 253402300800);
      cbn [andb]; try reflexivity; lia.
  - unfold parse_any_datetime, _parse_iso, _parse_epoch. cbn [py_int].
    intros Hv. destruct (Z.ltb_spec 1000000000000 v); [reflexivity|lia].
Qed.

End Coerce.

Lemma parse_any_datetime_int_witness :
  parse_any_datetime (L:=Ref.lib) (JInt 1717228800) = Some ten_oclock /\
  parse_any_datetime (L:=Ref.lib) (JInt 253402297200) = None /\
  parse_any_datetime (L:=Ref.lib) (JInt 1000000000000) = None.
Proof.
  split; [|split].
  - apply (proj1 (proj2 (@parse_any_datetime_int Ref.lib 1717228800))).
    + discriminate.
    + split; [lia|]. vm_compute. reflexivity.
  - rewrite (proj1 (@parse_any_datetime_int Ref.lib 253402297200))
      by discriminate.
    vm_compute. reflexivity.
  - apply (proj1 (proj2 (proj2 (@parse_any_datetime_int Ref.lib
                                  1000000000000)))).
    right. lia.
Defined.

Lemma ref_repr_value_nonempty (v : json) : Ref.repr_value v <> [].
Proof.
  destruct v as [| | | | |[|x l]|[|x d]]; cbn [Ref.repr_value]; discriminate.
Qed.

Lemma coerce_event_id_title_nonempty_witness :
  exists ev,
    coerce_event (L:=Ref.lib) record_no_duration = Ok (Some ev) /\
    id ev <> [] /\ title ev <> [].
Proof.
  eexists. split; [vm_compute; reflexivity|].
  apply (coerce_event_id_title_nonempty (L:=Ref.lib) ref_repr_value_nonempty
           record_no_duration).
  vm_compute. reflexivity.
Defined.

Lemma coerce_event_optional_fields_witness :
  exists ev,
    coerce_event (L:=Ref.lib)
      [ (lit "start", JInt 1717200000); (lit "location", JStr []);
        (lit "place", JStr (lit "Studio 3")); (lit "room", JStr []) ]
    = Ok (Some ev) /\
    absent_or_nonempty (location ev) /\ absent_or_nonempty (instructor ev) /\
    absent_or_nonempty (room ev) /\ absent_or_nonempty (description ev).
Proof.
  eexists. split; [vm_compute; reflexivity|].
  apply (coerce_event_optional_fields (L:=Ref.lib)
           [ (lit "start", JInt 1717200000); (lit "location", JStr []);
             (lit "place", JStr (lit "Studio 3")); (lit "room", JStr []) ]).
  vm_compute. reflexivity.
Defined.

(** ** parser.py: [extract_events_from_json] *)

Lemma json_nested_ind (P : json -> Prop) :
  P JNull -> (forall b, P (JBool b)) -> (forall n, P (JInt n)) ->
  (forall f, P (JFloat f)) -> (forall s, P (JStr s)) ->
  (forall l, Forall P l -> P (JList l)) ->
  (forall d, Forall (fun kv => P (snd kv)) d -> P (JDict d)) ->
  forall v, P v.
Proof.
  intros Hn Hb Hi Hf Hs Hl Hd.
  fix IH 1. intros [|b|n|f|s|l|d].
  - exact Hn.
  - apply Hb.
  - apply Hi.
  - apply Hf.
  - apply Hs.
  - apply Hl. induction l as [|x t IHl]; constructor; [apply IH|exact IHl].
  - apply Hd. induction d as [|[k x] t IHd]; constructor; [apply IH|exact IHd].
Qed.

(** The direct hits of [walk] on a dict. *)
Lemma in_dict_items (it : list (str * json)) (l : list json) :
  In it (dict_items l) <-> In (JDict it) l.
Proof.
  unfold dict_items. rewrite in_flat_map. split.
  - intros (x & Hx & Hit). destruct x; try contradiction.
    destruct Hit as [<-|[]]. exact Hx.
  - intros H. exists (JDict it). split; [exact H|now left].
Qed.

Lemma walk_list (l : list json) : walk (JList l) = flat_map walk l.
Proof.
  cbn [walk]. induction l as [|v rest IH]; [reflexivity|].
  cbn [flat_map]. now rewrite <- IH.
Qed.

Lemma walk_dict (d : list (str * json)) :
  walk (JDict d)
  = flat_map (fun k => match dict_get d (lit k) with
                       | Some (JList l) => dict_items l
                       | _ => []
                       end) EVENT_KEYS
    ++ flat_map (fun kv => walk (snd kv)) d.
Proof.
  cbn [walk]. f_equal. induction d as [|[k v] rest IH]; [reflexivity|].
  cbn [flat_map snd]. now rewrite <- IH.
Qed.

Lemma in_walk_hits (d it : list (str * json)) :
  In it (flat_map (fun k => match dict_get d (lit k) with
                            | Some (JList l) => dict_items l
                            | _ => []
                            end) EVENT_KEYS)
  <-> listed d it.
Proof.
  unfold listed. rewrite in_flat_map. split.
  - intros (k & Hk & H). destruct (dict_get d (lit k)) as [[| | | | |l|]|] eqn:E;
      try contradiction.
    exists k, l. split; [exact Hk|]. split; [exact E|].
    now apply in_dict_items.
  - intros (k & l & Hk & E & H). exists k. split; [exact Hk|].
    rewrite E. now apply in_dict_items.
Qed.

Lemma within_trans (a b c : json) : within a b -> within b c -> within a c.
Proof.
  intros Hab Hbc. induction Hbc as [|x y _ IH Hxy]; [exact Hab|].
  eapply within_child; eauto.
Qed.

Lemma walk_child (a b : json) (it : list (str * json)) :
  child a b -> In it (walk b) -> In it (walk a).
Proof.
  intros [l v Hv|d k v Hv] Hit.
  - rewrite walk_list, in_flat_map. eauto.
  - rewrite walk_dict. apply in_or_app. right. rewrite in_flat_map.
    exists (k, v). split; [exact Hv|exact Hit].
Qed.

(** X5.  [extract_events_from_json] collects exactly the records listed
    under an event key at any depth: a record is found if and only if some
    dict inside the data (the data itself included) holds, under one of
    [events], [appointments], [schedule], [courseSchedule], [times],
    [sessions], [payload], a list of which the record is a dict item. *)
Theorem extract_events_from_json_spec (obj : json) (it : list (str * json)) :
  In it (extract_events_from_json obj) <->
  exists d, within obj (JDict d) /\ listed d it.
Proof.
  unfold extract_events_from_json. split.
  - induction obj as [|b|n|f|s|l IH|d IH] using json_nested_ind;
      try (intros H; contradiction).
    + rewrite walk_list, in_flat_map. intros (v & Hv & Hit).
      rewrite Forall_forall in IH. destruct (IH v Hv Hit) as (d & Hw & Hl).
      exists d. split; [|exact Hl].
      eapply within_trans; [|exact Hw].
      eapply within_child; [apply within_root|now constructor].
    + rewrite walk_dict. intros H.
      apply in_app_or in H as [H|H].
      * exists d. split; [apply within_root|now apply in_walk_hits].
      * rewrite in_flat_map in H. destruct H as ([k v] & Hv & Hit).
        rewrite Forall_forall in IH.
        destruct (IH (k, v) Hv Hit) as (d' & Hw & Hl).
        exists d'. split; [|exact Hl].
        eapply within_trans; [|exact Hw].
        eapply within_child; [apply within_root|].
        econstructor. exact Hv.
  - intros (d & Hw & Hl).
    assert (Hd : In it (walk (JDict d))).
    { rewrite walk_dict. apply in_or_app. left. now apply in_walk_hits. }
    clear Hl. induction Hw as [|a b _ IH Hab]; [exact Hd|].
    apply IH. eapply walk_child; eauto.
Qed.

(** ** parser.py: the permissive scan *)

Lemma take_through_spec (close : char) (t body : str) :
  take_through close t = Some body ->
  exists pre, body = pre ++ [close] /\ ~ In close pre.
Proof.
  revert body. induction t as [|c t IH]; intros body; cbn [take_through];
    [discriminate|].
  destruct (N.eqb_spec c close) as [->|Hc].
  - rewrite char_eqb_refl. intros H. apply some_eq in H. subst body.
    exists []. split; [reflexivity|intros []].
  - rewrite (char_eqb_neq Hc).
    destruct (take_through close t) as [b|]; cbn [option_map]; [|discriminate].
    intros H. apply some_eq in H. subst body.
    destruct (IH b eq_refl) as (pre & -> & Hpre).
    exists (c :: pre). split; [reflexivity|].
    intros [E|E]; [congruence|now apply Hpre].
Qed.

Lemma finditer_from_shape (skip : nat) (s : str) :
  Forall (fun chunk => bracketed LBRACE RBRACE chunk \/
                       bracketed LBRACKET RBRACKET chunk)
         (finditer_from skip s).
Proof.
  revert skip. induction s as [|c t IH]; intros skip; cbn [finditer_from];
    [constructor|].
  destruct skip as [|k]; [|apply IH].
  destruct (N.eqb_spec c LBRACE) as [->|Hb].
  - rewrite char_eqb_refl.
    destruct (take_through RBRACE t) as [body|] eqn:E; [|apply IH].
    constructor; [|apply IH]. left.
    destruct (take_through_spec _ _ E) as (pre & -> & Hpre). now exists pre.
  - rewrite (char_eqb_neq Hb).
    destruct (N.eqb_spec c LBRACKET) as [->|Hk].
    + rewrite char_eqb_refl.
      destruct (take_through RBRACKET t) as [body|] eqn:E; [|apply IH].
      constructor; [|apply IH]. right.
      destruct (take_through_spec _ _ E) as (pre & -> & Hpre). now exists pre.
    + rewrite (char_eqb_neq Hk). apply IH.
Qed.

(** X6.  Every candidate of the permissive scan is an opening brace and the
    text up to the next closing brace, or an opening bracket and the text
    up to the next closing bracket, and has at least 10 characters: a
    candidate never reaches past the first closing character, so an object
    holding a nested object is never extracted whole. *)
Theorem scan_candidates_shape (scripts : list script) :
  Forall (fun chunk =>
            (bracketed LBRACE RBRACE chunk \/
             bracketed LBRACKET RBRACKET chunk) /\
            (10 <= List.length chunk)%nat)
         (scan_candidates scripts).
Proof.
  unfold scan_candidates. apply Forall_flat_map. apply Forall_forall.
  intros sc _. destruct (strip (script_content sc)) as [|c s]; [constructor|].
  apply Forall_forall. intros chunk H. apply filter_In in H as [Hin Hlen].
  split.
  - pose proof (finditer_from_shape O (c :: s)) as F.
    rewrite Forall_forall in F. now apply F.
  - apply negb_true_iff, Nat.ltb_ge in Hlen. exact Hlen.
Qed.

(** ** parser.py: the errors of [parse_schedule] *)

Section ParseErrors.

Context {L : PyLib}.

Lemma parse_html_raises (data : bytes) (e : exn) :
  parse_html data = Raise e ->
  (e = UNDECODABLE /\ data = []) \/
  (e = NO_EVENTS /\ data <> [] /\
   exists scripts, find_all_script (decode_utf8_replace data) = Some scripts) \/
  (e = ParserRejectedMarkup /\ data <> [] /\
   find_all_script (decode_utf8_replace data) = None).
Proof.
  unfold parse_html.
  destruct (decode_utf8_replace data) as [|c text] eqn:E.
  - intros H. left. split; [congruence|now apply decode_utf8_replace_nil].
  - assert (Hd : data <> []) by (intros ->; discriminate E).
    destruct (find_all_script (c :: text)) as [scripts|].
    + destruct (first_typed _); [discriminate|].
      destruct (first_candidate _); [discriminate|].
      intros H. right. left. split; [congruence|]. split; [exact Hd|].
      now exists scripts.
    + intros H. right. right. split; [congruence|]. now split.
Qed.

(** X7.  [parse_schedule] raises one of three errors: "not decodable" for
    the empty payload; "no events found" for a payload that is not empty
    and whose markup the HTML parser accepts; and the parser's own error
    when it rejects the markup, since [BeautifulSoup(...)] stands outside
    every [try].  An error inside the coercion of a record (the overflow of
    a derived end) never leaves it.  Whenever the direct path does not
    apply or its [json.loads] fails, rejected markup does raise. *)
Theorem parse_schedule_raises (data : bytes) (content_type : option str) :
  (forall e,
      parse_schedule data content_type = Raise e ->
      (e = UNDECODABLE /\ data = []) \/
      (e = NO_EVENTS /\ data <> [] /\
       exists scripts,
         find_all_script (decode_utf8_replace data) = Some scripts) \/
      (e = ParserRejectedMarkup /\ data <> [] /\
       find_all_script (decode_utf8_replace data) = None)) /\
  (data <> [] ->
   find_all_script (decode_utf8_replace data) = None ->
   direct_json data content_type = false \/
   json_loads (decode_utf8_replace data) = None ->
   parse_schedule data content_type = Raise ParserRejectedMarkup).
Proof.
  split.
  - intros e. unfold parse_schedule.
    destruct (direct_json data content_type); [|apply parse_html_raises].
    destruct (json_loads _) as [obj|]; [|apply parse_html_raises].
    destruct (_build_events_from_obj obj);
      [discriminate|apply parse_html_raises].
  - intros Hd Hf Hj.
    assert (E : parse_html data = Raise ParserRejectedMarkup).
    { unfold parse_html.
      destruct (decode_utf8_replace data) as [|c text] eqn:Et.
      - now apply decode_utf8_replace_nil in Et.
      - now rewrite Hf. }
    unfold parse_schedule. destruct Hj as [-> | ->]; [exact E|].
    now destruct (direct_json data content_type).
Qed.

End ParseErrors.

Lemma parse_schedule_raises_witness :
  parse_schedule (L:=Ref.lib) (blit "<html></html>") None = Raise NO_EVENTS /\
  parse_schedule (L:=Ref.faulty) (blit "<![x y]>") None
  = Raise ParserRejectedMarkup.
Proof.
  split; [vm_compute; reflexivity|].
  apply (proj2 (@parse_schedule_raises Ref.faulty (blit "<![x y]>") None)).
  - discriminate.
  - vm_compute. reflexivity.
  - left. vm_compute. reflexivity.
Defined.

(** ** fetcher.py: [fetch_course_page] *)

(** X8.  [fetch_course_page] returns the response of the first of three
    attempts that succeeds, raises exactly when all three fail, and makes
    no fourth attempt. *)
Theorem fetch_course_page_spec (net : network) :
  (forall r,
      fetch_course_page net = Ok r <->
      net 0%nat = Some r \/
      (net 0%nat = None /\ net 1%nat = Some r) \/
      (net 0%nat = None /\ net 1%nat = None /\ net 2%nat = Some r)) /\
  ((exists e, fetch_course_page net = Raise e) <->
   net 0%nat = None /\ net 1%nat = None /\ net 2%nat = None) /\
  (forall net' : network,
      (forall i, (i < 3)%nat -> net' i = net i) ->
      fetch_course_page net' = fetch_course_page net).
Proof.
  unfold fetch_course_page. cbn [fetch_attempts]. split; [|split].
  - intros r. destruct (net 0%nat) as [r0|]; [|destruct (net 1%nat) as [r1|];
      [|destruct (net 2%nat) as [r2|]]]; split; intros H;
      try discriminate; try (apply some_eq in H; subst);
      try (injection H as ->); auto;
      destruct H as [H|[[H1 H2]|(H1 & H2 & H3)]]; congruence.
  - destruct (net 0%nat), (net 1%nat), (net 2%nat); split;
      try (intros [e H]; discriminate); try (intros (H1 & H2 & H3); discriminate);
      auto.
    intros _. eexists. reflexivity.
  - intros net' H. rewrite (H 0%nat), (H 1%nat), (H 2%nat) by lia. reflexivity.
Qed.

(** ** main.py: keywords and the filter *)

Lemma lstrip_spaces (s : str) :
  Forall (fun c => is_space c = true) s -> lstrip s = [].
Proof.
  induction 1 as [|c t Hc _ IH]; [reflexivity|].
  cbn [lstrip]. now rewrite Hc.
Qed.

Lemma strip_spaces (s : str) :
  Forall (fun c => is_space c = true) s -> strip s = [].
Proof. intros H. unfold strip. now rewrite (lstrip_spaces H). Qed.

Lemma split_on_blank (raw : str) :
  Forall (fun c => blank_char c = true) raw ->
  Forall (Forall (fun c => is_space c = true)) (split_on COMMA raw).
Proof.
  induction 1 as [|c t Hc _ IH]; cbn [split_on]; [repeat constructor|].
  destruct (N.eqb_spec c COMMA) as [->|Hn].
  - rewrite char_eqb_refl. now constructor.
  - rewrite (char_eqb_neq Hn).
    assert (Hs : is_space c = true).
    { unfold blank_char in Hc. rewrite (char_eqb_neq Hn) in Hc. exact Hc. }
    destruct (split_on COMMA t) as [|w ws]; [repeat constructor; exact Hs|].
    inversion IH; subst. constructor; [now constructor|assumption].
Qed.

Section Keywords.

Context {L : PyLib}.

Lemma filter_events_filter (keywords : list str) (events : list CourseEvent) :
  filter_events keywords events = filter (keep_event keywords) events.
Proof.
  destruct keywords as [|k ks]; [|reflexivity].
  cbn [filter_events]. induction events as [|e es IH]; [reflexivity|].
  cbn [filter]. change (keep_event [] e) with true. cbv iota. now rewrite <- IH.
Qed.

(** X9.  A keyword setting made only of commas and white space gives no
    keyword, and then the filter keeps every event. *)
Theorem blank_keywords_keep_all (raw : str) :
  forallb blank_char raw = true ->
  _parse_exclude_keywords raw = [] /\
  forall events, filter_events (_parse_exclude_keywords raw) events = events.
Proof.
  intros H.
  assert (E : _parse_exclude_keywords raw = []).
  { unfold _parse_exclude_keywords.
    assert (F : Forall (Forall (fun c => is_space c = true)) (split_on COMMA raw)).
    { apply split_on_blank. apply Forall_forall. intros c Hc.
      rewrite forallb_forall in H. now apply H. }
    induction F as [|w ws Hw _ IH]; [reflexivity|].
    cbn [List.map filter]. rewrite (strip_spaces Hw).
    change (str_lower []) with (@nil char). exact IH. }
  split; [exact E|]. intros events. now rewrite E.
Qed.

Lemma keep_event_app (k1 k2 : list str) (e : CourseEvent) :
  keep_event (k1 ++ k2) e = keep_event k1 e && keep_event k2 e.
Proof. unfold keep_event. now rewrite existsb_app, negb_orb. Qed.

Lemma filter_andb {A} (f g : A -> bool) (l : list A) :
  filter (fun x => f x && g x) l = filter g (filter f l).
Proof.
  induction l as [|x t IH]; [reflexivity|]. cbn [filter].
  destruct (f x); cbn [andb filter]; [|exact IH].
  destruct (g x); now rewrite IH.
Qed.

(** X10.  Filtering by two keyword lists at once is filtering by one and
    then by the other, in either order; filtering twice by the same list
    changes nothing more. *)
Theorem filter_events_compose (k1 k2 : list str) (events : list CourseEvent) :
  filter_events (k1 ++ k2) events = filter_events k2 (filter_events k1 events) /\
  filter_events k2 (filter_events k1 events)
  = filter_events k1 (filter_events k2 events) /\
  filter_events k1 (filter_events k1 events) = filter_events k1 events.
Proof.
  rewrite !filter_events_filter.
  assert (A : forall a b,
             filter (keep_event b) (filter (keep_event a) events)
             = filter (fun e => keep_event a e && keep_event b e) events)
    by (intros; now rewrite filter_andb).
  split; [|split].
  - rewrite A. apply filter_ext. intros e. apply keep_event_app.
  - rewrite !A. apply filter_ext. intros e. apply andb_comm.
  - rewrite A. apply filter_ext. intros e. now destruct (keep_event k1 e).
Qed.

End Keywords.

Lemma blank_keywords_keep_all_witness :
  _parse_exclude_keywords (L:=Ref.lib) (lit " , ,,") = [] /\
  forall events,
    filter_events (L:=Ref.lib) (_parse_exclude_keywords (L:=Ref.lib) (lit " , ,,"))
                  events = events.
Proof.
  apply (blank_keywords_keep_all (L:=Ref.lib) (lit " , ,,")). reflexivity.
Defined.

(** ** parser.py and ics.py: sorted, deduplicated lists *)

Lemma sorted_by_sorted_id {A} (leb : A -> A -> bool) (l : list A) :
  StronglySorted (fun a b => leb a b = true) l -> sorted_by leb l = l.
Proof.
  induction 1 as [|x t Hs IH Hx]; [reflexivity|].
  unfold sorted_by in *. cbn [fold_right]. rewrite IH.
  destruct t as [|y t']; [reflexivity|]. cbn [insert_by].
  inversion Hx as [|? ? Hxy _]; subst. now rewrite Hxy.
Qed.

Lemma StronglySorted_filter {A} (R : A -> A -> Prop) (f : A -> bool)
  (l : list A) :
  StronglySorted R l -> StronglySorted R (filter f l).
Proof.
  induction 1 as [|x t Hs IH Hx]; [constructor|]. cbn [filter].
  destruct (f x); [|exact IH]. constructor; [exact IH|].
  apply Forall_forall. intros y Hy. apply filter_In in Hy as [Hy _].
  rewrite Forall_forall in Hx. now apply Hx.
Qed.

Lemma dict_set_fresh (u : list (dedup_key * CourseEvent)) (k : dedup_key)
  (e : CourseEvent) :
  ~ In k (List.map fst u) -> dict_set u k e = u ++ [(k, e)].
Proof.
  induction u as [|[k' e'] t IH]; intros H; [reflexivity|].
  cbn [dict_set app]. cbn [List.map fst In] in H.
  assert (Hne : k' <> k) by tauto.
  apply key_eqb_neq in Hne. rewrite Hne. f_equal. apply IH. tauto.
Qed.

Section SortedResults.

Context {L : PyLib}.

Lemma dedup_fold_distinct (l : list CourseEvent)
  (u : list (dedup_key * CourseEvent)) :
  NoDup (List.map event_key l) ->
  (forall e, In e l -> ~ In (event_key e) (List.map fst u)) ->
  fold_left (fun u e => dict_set u (event_key e) e) l u
  = u ++ List.map (fun e => (event_key e, e)) l.
Proof.
  revert u. induction l as [|x t IH]; intros u Hnd Hu; cbn [fold_left List.map].
  - now rewrite app_nil_r.
  - inversion Hnd as [|? ? Hx Hnd']; subst.
    rewrite dict_set_fresh by (apply Hu; now left).
    rewrite IH; [now rewrite <- app_assoc|exact Hnd'|].
    intros e He. rewrite map_app, in_app_iff. cbn [List.map fst In].
    intros [H|[H|[]]].
    + apply (Hu e); [now right|exact H].
    + apply Hx. rewrite H. now apply in_map.
Qed.

Lemma dedup_distinct (l : list CourseEvent) :
  NoDup (List.map event_key l) -> dedup l = l.
Proof.
  intros H. unfold dedup. rewrite (@dedup_fold_distinct l [] H).
  - cbn [app]. rewrite map_map. cbn [snd]. apply map_id.
  - intros e _ [].
Qed.

Lemma dedup_sort_sorted (events : list CourseEvent) :
  StronglySorted (fun a b => event_leb a b = true) (dedup_sort events).
Proof.
  unfold dedup_sort.
  apply sorted_by_sorted; [exact event_leb_total|exact event_leb_trans].
Qed.

Lemma dedup_sort_distinct (events : list CourseEvent) :
  NoDup (List.map event_key (dedup_sort events)).
Proof.
  unfold dedup_sort.
  eapply Permutation_NoDup;
    [apply Permutation_map, Permutation_sym, sorted_by_perm|].
  rewrite dedup_keys. apply (dedup_inv events).
Qed.

(** X11.  Deduplicating and sorting is idempotent, and a list that is
    already sorted with distinct keys passes through unchanged (it is
    neither reordered nor shortened). *)
Theorem dedup_sort_idempotent :
  (forall events, dedup_sort (dedup_sort events) = dedup_sort events) /\
  (forall events,
      StronglySorted (fun a b => event_leb a b = true) events ->
      NoDup (List.map event_key events) ->
      dedup_sort events = events).
Proof.
  assert (A : forall events,
      StronglySorted (fun a b => event_leb a b = true) events ->
      NoDup (List.map event_key events) ->
      dedup_sort events = events).
  { intros events Hs Hn. unfold dedup_sort.
    rewrite (dedup_distinct _ Hn). now apply sorted_by_sorted_id. }
  split; [|exact A].
  intros events. apply A; [apply dedup_sort_sorted|apply dedup_sort_distinct].
Qed.

Lemma build_events_result (obj : json) (events : list CourseEvent) :
  _build_events_from_obj obj = Ok events ->
  exists coerced, events = dedup_sort coerced.
Proof.
  unfold _build_events_from_obj.
  destruct (coerce_all _) as [coerced|]; cbn [bind]; [|discriminate].
  intros H. exists coerced. congruence.
Qed.

Lemma try_json_result (content : str) (events : list CourseEvent) :
  try_json content = Some events -> exists coerced, events = dedup_sort coerced.
Proof.
  unfold try_json. destruct (json_loads content) as [obj|]; [|discriminate].
  destruct (_build_events_from_obj obj) as [[|e es]|] eqn:E; try discriminate.
  intros H. apply some_eq in H. subst events. now apply build_events_result in E.
Qed.

Lemma first_typed_result (scripts : list script) (events : list CourseEvent) :
  first_typed scripts = Some events -> exists coerced, events = dedup_sort coerced.
Proof.
  induction scripts as [|sc rest IH]; cbn [first_typed]; [discriminate|].
  destruct (contains _ _); [|exact IH].
  destruct (strip (script_content sc)) as [|c s]; [exact IH|].
  destruct (try_json (c :: s)) as [evs|] eqn:E; [|exact IH].
  intros H. apply some_eq in H. subst evs. now apply try_json_result in E.
Qed.

Lemma first_candidate_result (cs : list str) (events : list CourseEvent) :
  first_candidate cs = Some events -> exists coerced, events = dedup_sort coerced.
Proof.
  induction cs as [|c rest IH]; cbn [first_candidate]; [discriminate|].
  destruct (try_json c) as [evs|] eqn:E; [|exact IH].
  intros H. apply some_eq in H. subst evs. now apply try_json_result in E.
Qed.

Lemma parse_schedule_result (data : bytes) (content_type : option str)
  (events : list CourseEvent) :
  parse_schedule data content_type = Ok events ->
  exists coerced, events = dedup_sort coerced.
Proof.
  assert (H : parse_html data = Ok events ->
              exists coerced, events = dedup_sort coerced).
  { unfold parse_html. destruct (decode_utf8_replace data); [discriminate|].
    destruct (find_all_script _) as [scripts|]; [|discriminate].
    destruct (first_typed _) as [evs|] eqn:E1.
    - intros H. injection H as ->. now apply first_typed_result in E1.
    - destruct (first_candidate _) as [evs|] eqn:E2; [|discriminate].
      intros H. injection H as ->. now apply first_candidate_result in E2. }
  unfold parse_schedule. destruct (direct_json _ _); [|exact H].
  destruct (json_loads _) as [obj|]; [|exact H].
  destruct (_build_events_from_obj obj) as [evs|] eqn:E; [|exact H].
  intros H'. injection H' as ->. now apply build_events_result in E.
Qed.

(** X12.  Whatever strategy finds them, the events [parse_schedule] returns
    are sorted ascending by (start, title) and no two of them share the key
    (id, epoch seconds of start, epoch seconds of end). *)
Theorem parse_schedule_sorted_distinct (data : bytes) (content_type : option str)
  (events : list CourseEvent) :
  parse_schedule data content_type = Ok events ->
  StronglySorted (fun a b => event_leb a b = true) events /\
  NoDup (List.map event_key events).
Proof.
  intros H. apply parse_schedule_result in H as [coerced ->].
  split; [apply dedup_sort_sorted|apply dedup_sort_distinct].
Qed.

(** X13.  In a refresh cycle the sort inside [generate_ics] moves nothing:
    the parsed and filtered list is already in the order of the event
    blocks, so the cached event list and the cached document agree in
    order. *)
Theorem refresh_order_kept (data : bytes) (content_type : option str)
  (events : list CourseEvent) (keywords : list str) :
  parse_schedule data content_type = Ok events ->
  sorted_by event_leb (filter_events keywords events)
  = filter_events keywords events /\
  forall now course_id,
    ics_lines now course_id (filter_events keywords events)
    = HEADER ++ _vtz_europe_berlin
      ++ flat_map (vevent_lines now course_id) (filter_events keywords events)
      ++ [lit "END:VCALENDAR"].
Proof.
  intros H. apply parse_schedule_result in H as [coerced ->].
  assert (E : sorted_by event_leb (filter_events keywords (dedup_sort coerced))
              = filter_events keywords (dedup_sort coerced)).
  { apply sorted_by_sorted_id. rewrite filter_events_filter.
    apply StronglySorted_filter, dedup_sort_sorted. }
  split; [exact E|]. intros now course_id. unfold ics_lines. now rewrite E.
Qed.

End SortedResults.

Lemma dedup_sort_idempotent_witness :
  dedup_sort (L:=Ref.lib) [pilates; yoga_b] = [pilates; yoga_b].
Proof.
  apply (proj2 (dedup_sort_idempotent (L:=Ref.lib)) [pilates; yoga_b]).
  - repeat constructor.
  - vm_compute. repeat constructor; cbn [In]; intuition discriminate.
Defined.

Lemma parse_schedule_sorted_distinct_witness :
  exists events,
    parse_schedule (L:=Ref.lib) two_courses None = Ok events /\
    StronglySorted (fun a b => event_leb a b = true) events /\
    NoDup (List.map (event_key (L:=Ref.lib)) events).
Proof.
  eexists. split; [vm_compute; reflexivity|].
  apply (parse_schedule_sorted_distinct (L:=Ref.lib) two_courses None).
  vm_compute. reflexivity.
Defined.

Lemma refresh_order_kept_witness :
  exists events,
    parse_schedule (L:=Ref.lib) two_courses None = Ok events /\
    sorted_by event_leb
      (filter_events (L:=Ref.lib) (EXCLUDE_KEYWORDS default_config) events)
    = filter_events (L:=Ref.lib) (EXCLUDE_KEYWORDS default_config) events.
Proof.
  eexists. split; [vm_compute; reflexivity|].
  apply (proj1 (refresh_order_kept (L:=Ref.lib) two_courses None
                  (EXCLUDE_KEYWORDS default_config)
                  ltac:(vm_compute; reflexivity))).
Defined.

(** ** ics.py: reading the escaped text back *)

Lemma replace_crlf_no_cr (new s : str) : ~ In CR s -> replace_crlf new s = s.
Proof.
  induction s as [|c t IH]; intros H; [reflexivity|].
  cbn [replace_crlf].
  assert (Hc : c <> CR) by (intros ->; apply H; now left).
  rewrite (char_eqb_neq Hc). f_equal. apply IH. intros Hin. apply H. now right.
Qed.

Lemma unescape_escape_spec (s : str) :
  unescape_ics (escape_spec s) = replace_crlf [LF] s.
Proof.
  induction s as [|c|c c' t IH1 IH2] using str_ind2.
  - reflexivity.
  - destruct (N.eqb_spec c BACKSLASH) as [->|H1]; [reflexivity|].
    destruct (N.eqb_spec c SEMICOLON) as [->|H2]; [reflexivity|].
    destruct (N.eqb_spec c COMMA) as [->|H3]; [reflexivity|].
    destruct (N.eqb_spec c LF) as [->|H4]; [reflexivity|].
    destruct (N.eqb_spec c CR) as [->|H5]; [reflexivity|].
    cbn [escape_spec replace_crlf unescape_ics]. neq_chars.
    cbn [unescape_ics]. neq_chars. reflexivity.
  - remember (c' :: t) as s eqn:Es.
    assert (Hq : forall x,
               char_eqb x LOWER_N || char_eqb x 78%N = false ->
               unescape_ics (BACKSLASH :: x :: escape_spec s)
               = x :: unescape_ics (escape_spec s)).
    { intros x Hx. cbn [unescape_ics]. rewrite char_eqb_refl. now rewrite Hx. }
    destruct (N.eqb_spec c BACKSLASH) as [->|H1].
    { change (escape_spec (BACKSLASH :: s))
        with (BACKSLASH :: BACKSLASH :: escape_spec s).
      rewrite Hq by reflexivity. rewrite IH2. reflexivity. }
    destruct (N.eqb_spec c SEMICOLON) as [->|H2].
    { change (escape_spec (SEMICOLON :: s))
        with (BACKSLASH :: SEMICOLON :: escape_spec s).
      rewrite Hq by reflexivity. rewrite IH2. reflexivity. }
    destruct (N.eqb_spec c COMMA) as [->|H3].
    { change (escape_spec (COMMA :: s))
        with (BACKSLASH :: COMMA :: escape_spec s).
      rewrite Hq by reflexivity. rewrite IH2. reflexivity. }
    destruct (N.eqb_spec c LF) as [->|H4].
    { change (escape_spec (LF :: s))
        with (BACKSLASH :: LOWER_N :: escape_spec s).
      cbn [unescape_ics]. rewrite char_eqb_refl.
      change (char_eqb LOWER_N LOWER_N || char_eqb LOWER_N 78%N) with true.
      cbv iota. rewrite IH2. reflexivity. }
    destruct (N.eqb_spec c CR) as [->|H5].
    { subst s. destruct (N.eqb_spec c' LF) as [->|H6].
      - change (escape_spec (CR :: LF :: t))
          with (BACKSLASH :: LOWER_N :: escape_spec t).
        cbn [unescape_ics]. rewrite char_eqb_refl.
        change (char_eqb LOWER_N LOWER_N || char_eqb LOWER_N 78%N) with true.
        cbv iota. rewrite IH1. reflexivity.
      - assert (E : escape_spec (CR :: c' :: t) = CR :: escape_spec (c' :: t)).
        { cbn [escape_spec]. change (char_eqb CR BACKSLASH) with false.
          change (char_eqb CR SEMICOLON) with false.
          change (char_eqb CR COMMA) with false.
          change (char_eqb CR LF) with false.
          change (char_eqb CR CR) with true. cbv iota. neq_chars. reflexivity. }
        rewrite E. cbn [unescape_ics]. change (char_eqb CR BACKSLASH) with false.
        cbv iota. rewrite IH2. cbn [replace_crlf]. rewrite char_eqb_refl.
        neq_chars. reflexivity. }
    assert (E : escape_spec (c :: s) = c :: escape_spec s).
    { cbn [escape_spec]. neq_chars. reflexivity. }
    rewrite E. cbn [unescape_ics replace_crlf]. neq_chars.
    now rewrite IH2.
Qed.

(** X14.  Reading an escaped value back gives the text with every CR LF
    turned into a line feed; a text without carriage return is read back
    as it was, so two such texts that differ are escaped differently. *)
Theorem unescape_escape_ics :
  (forall text, unescape_ics (_escape_ics text) = replace_crlf [LF] text) /\
  (forall text, ~ In CR text -> unescape_ics (_escape_ics text) = text) /\
  (forall a b, ~ In CR a -> ~ In CR b -> _escape_ics a = _escape_ics b -> a = b).
Proof.
  assert (A : forall text, unescape_ics (_escape_ics text) = replace_crlf [LF] text).
  { intros text. rewrite _escape_ics_passes, passes_spec.
    apply unescape_escape_spec. }
  assert (B : forall text, ~ In CR text -> unescape_ics (_escape_ics text) = text).
  { intros text H. rewrite A. now apply replace_crlf_no_cr. }
  split; [exact A|]. split; [exact B|].
  intros a b Ha Hb E. rewrite <- (B a Ha), <- (B b Hb). now rewrite E.
Qed.

(** ** ics.py: how many lines a fold gives *)

Lemma fold_short_lines (lines : list str) :
  Forall (fun l => (List.length l <= max_len)%nat) lines ->
  flat_map _fold_line lines = lines.
Proof.
  induction 1 as [|l t Hl _ IH]; [reflexivity|].
  cbn [flat_map]. rewrite (_fold_line_short _ Hl), IH. reflexivity.
Qed.

Lemma fold_line_count_ind (line : str) :
  let k := List.length (_fold_line line) in
  (1 <= k)%nat /\
  (List.length line <= 75 + 74 * (k - 1))%nat /\
  (1 < k -> 75 + 74 * (k - 2) < List.length line)%nat /\
  List.length (List.concat (_fold_line line)) = (List.length line + (k - 1))%nat.
Proof.
  cbv zeta. remember (List.length line) as n eqn:En. revert line En.
  induction n as [n IH] using lt_wf_ind. intros line En. subst n.
  pose proof max_len_eq as M.
  destruct (le_lt_dec (List.length line) max_len) as [Hs|Hl].
  - rewrite _fold_line_short by assumption.
    cbn [List.length List.concat]. rewrite app_nil_r. lia.
  - rewrite _fold_line_long by assumption.
    assert (Hr : List.length (SPACE :: skipn max_len line)
                 = (List.length line - 74)%nat)
      by (cbn [List.length]; rewrite length_skipn; lia).
    destruct (IH (List.length line - 74)%nat ltac:(lia)
                (SPACE :: skipn max_len line) (eq_sym Hr))
      as (K1 & K2 & K3 & K4).
    set (rest := _fold_line (SPACE :: skipn max_len line)) in *.
    cbn [List.length List.concat]. rewrite length_app, length_firstn, K4.
    cbn [List.length] in *. rewrite ?length_skipn in *.
    repeat split; lia.
Qed.

(** X15.  A line of [n] characters folds into the least number [k] of
    lines with [n <= 75 + 74 (k - 1)]; the folded lines hold the [n]
    characters and one added space per continuation line; folding the
    folded lines again changes nothing. *)
Theorem fold_line_count (line : str) :
  let k := List.length (_fold_line line) in
  (1 <= k)%nat /\
  (List.length line <= 75 + 74 * (k - 1))%nat /\
  (1 < k -> 75 + 74 * (k - 2) < List.length line)%nat /\
  List.length (List.concat (_fold_line line)) = (List.length line + (k - 1))%nat /\
  flat_map _fold_line (_fold_line line) = _fold_line line.
Proof.
  cbv zeta. destruct (fold_line_count_ind line) as (K1 & K2 & K3 & K4).
  repeat (split; [assumption|]).
  apply fold_short_lines.
  destruct (_fold_line_shape line) as (conts & -> & _ & H & _). exact H.
Qed.

(** ** ics.py: the frame of a document *)

Lemma join_frame (sep a e : str) (middle : list str) :
  join sep (a :: middle ++ [e])
  = a ++ sep ++ flat_map (fun l => l ++ sep) middle ++ e.
Proof.
  revert a. induction middle as [|m rest IH]; intros a; [reflexivity|].
  change (join sep (a :: (m :: rest) ++ [e]))
    with (a ++ sep ++ join sep (m :: rest ++ [e])).
  rewrite IH. cbn [flat_map]. now rewrite <- !app_assoc.
Qed.

(** X16.  Every document [generate_ics] produces, whatever the events,
    begins with the line [BEGIN:VCALENDAR] and ends with the line
    [END:VCALENDAR], each closed by CR LF. *)
Theorem generate_ics_frame (now course_id : Z) (events : list CourseEvent) :
  exists middle,
    generate_ics now course_id events
    = lit "BEGIN:VCALENDAR" ++ [CR; LF] ++ middle
      ++ lit "END:VCALENDAR" ++ [CR; LF].
Proof.
  pose proof max_len_eq as M.
  set (inner := List.tl HEADER ++ _vtz_europe_berlin
                ++ flat_map (vevent_lines now course_id)
                            (sorted_by event_leb events)).
  assert (E : folded_lines (ics_lines now course_id events)
              = lit "BEGIN:VCALENDAR" :: flat_map _fold_line inner
                ++ [lit "END:VCALENDAR"]).
  { unfold folded_lines, ics_lines.
    change HEADER with (lit "BEGIN:VCALENDAR" :: List.tl HEADER).
    cbn [app flat_map].
    rewrite (_fold_line_short (lit "BEGIN:VCALENDAR")) by (rewrite M; cbn; lia).
    cbn [app]. f_equal.
    replace (List.tl HEADER ++ _vtz_europe_berlin
             ++ flat_map (vevent_lines now course_id)
                         (sorted_by event_leb events)
             ++ [lit "END:VCALENDAR"])
      with (inner ++ [lit "END:VCALENDAR"])
      by (unfold inner; now rewrite <- !app_assoc).
    rewrite flat_map_app. cbn [flat_map].
    rewrite (_fold_line_short (lit "END:VCALENDAR")) by (rewrite M; cbn; lia).
    now rewrite app_nil_r. }
  unfold generate_ics. rewrite E, join_frame.
  exists (flat_map (fun l => l ++ [CR; LF]) (flat_map _fold_line inner)).
  now rewrite <- !app_assoc.
Qed.

(** ** main.py and store.py: the refresh cycle, the cache and startup *)

Lemma generate_ics_nonempty (now course_id : Z) (events : list CourseEvent) :
  exists c s, generate_ics now course_id events = c :: s.
Proof.
  unfold generate_ics.
  destruct (join [CR; LF] _) as [|c s]; cbn [app]; eauto.
Qed.

Lemma universal_newlines_no_cr_id (s : str) :
  ~ In CR s -> universal_newlines s = s.
Proof.
  induction s as [|c t IH]; intros H; [reflexivity|].
  cbn [universal_newlines].
  assert (Hc : c <> CR) by (intros ->; apply H; now left).
  rewrite (char_eqb_neq Hc). f_equal. apply IH. intros Hin. apply H. now right.
Qed.

Section Cycle.

Context {L : PyLib}.

(** X17.  A refresh cycle whose fetch, parse and save all succeed runs all
    six steps and leaves the filtered events and the document rendered from
    them both in memory and on disk; [/calendar.ics] then answers with that
    document, at any time. *)
Theorem successful_refresh (cfg : config) (net : network) (now : Z) (w : world)
  (data : bytes) (content_type : option str) (events : list CourseEvent)
  (d' : disk) :
  fetch_course_page net = Ok (data, content_type) ->
  parse_schedule data content_type = Ok events ->
  save_cache (filter_events (EXCLUDE_KEYWORDS cfg) events)
             (generate_ics now (FITX_COURSE_ID cfg)
                (filter_events (EXCLUDE_KEYWORDS cfg) events))
             (files w) = (d', Ok tt) ->
  let kept := filter_events (EXCLUDE_KEYWORDS cfg) events in
  let ics_text := generate_ics now (FITX_COURSE_ID cfg) kept in
  _refresh_once cfg net now w
  = (mkWorld (Some ics_text) (Some kept) d',
     [StepFetch; StepParse; StepFilter; StepRender; StepPersist; StepSwap]) /\
  (forall t, calendar cfg t (mkWorld (Some ics_text) (Some kept) d') = ics_text) /\
  (exists b, cache_ics_file d' = Some b /\ decode_utf8_strict b = Some ics_text).
Proof.
  intros Hf Hp Hs kept ics_text. split; [|split].
  - unfold _refresh_once. rewrite Hf, Hp. fold kept. fold ics_text.
    unfold _update_cache. fold kept in Hs. fold ics_text in Hs. now rewrite Hs.
  - intros t. unfold calendar. cbn [cache_ics].
    destruct (generate_ics_nonempty now (FITX_COURSE_ID cfg) kept) as (c & s & E).
    fold ics_text in E. now rewrite E.
  - apply save_cache_ok in Hs as (jb & ib & _ & Hi & ->).
    exists ib. split; [reflexivity|]. now apply decode_encode_utf8.
Qed.

(** X18.  When [save_cache] raises, [_update_cache] does not swap the
    in-memory pair, so [/calendar.ics] answers as before, and the calendar
    file on disk is the old one.  The error is an [OSError] (the directory
    or a write) or a [UnicodeEncodeError]; the disk is untouched, or
    already holds the new JSON file beside the old calendar file, and then
    the calendar text could not be encoded or its write failed. *)
Theorem failed_persist_keeps_memory (events : list CourseEvent) (ics_text : str)
  (w : world) (d' : disk) (e : exn) :
  save_cache events ics_text (files w) = (d', Raise e) ->
  _update_cache events ics_text w
  = (mkWorld (cache_ics w) (cache_events w) d', [StepPersist]) /\
  (forall cfg t, calendar cfg t (fst (_update_cache events ics_text w))
                 = calendar cfg t w) /\
  cache_ics_file d' = cache_ics_file (files w) /\
  (e = OSError \/ e = UnicodeEncodeError) /\
  (d' = files w \/
   exists jb,
     encode_utf8 (json_dumps (JList (List.map event_to_json events))) = Some jb /\
     d' = mkDisk (Some jb) (cache_ics_file (files w)) /\
     (encode_utf8 ics_text = None \/
      exists ib, encode_utf8 ics_text = Some ib /\
                 write_fails CACHE_ICS ib = true)).
Proof.
  intros Hs.
  assert (E : _update_cache events ics_text w
              = (mkWorld (cache_ics w) (cache_events w) d', [StepPersist])).
  { unfold _update_cache. now rewrite Hs. }
  split; [exact E|]. split; [intros cfg t; now rewrite E|].
  unfold save_cache, ensure_data_dir, atomic_write in Hs.
  destruct mkdir_fails.
  { injection Hs as <- <-. split; [reflexivity|]. split; [now left|now left]. }
  destruct (encode_utf8 (json_dumps _)) as [jb|].
  2:{ injection Hs as <- <-. split; [reflexivity|]. split; [now right|now left]. }
  destruct (write_fails CACHE_JSON jb).
  { injection Hs as <- <-. split; [reflexivity|]. split; [now left|now left]. }
  destruct (encode_utf8 ics_text) as [ib|].
  - destruct (write_fails CACHE_ICS ib) eqn:Ew; [|discriminate].
    injection Hs as <- <-. split; [reflexivity|]. split; [now left|].
    right. exists jb. split; [reflexivity|]. split; [reflexivity|].
    right. now exists ib.
  - injection Hs as <- <-. split; [reflexivity|]. split; [now right|].
    right. exists jb. split; [reflexivity|]. split; [reflexivity|]. now left.
Qed.

(** X19.  [POST /refresh] is refused exactly when a non-empty token is
    configured and the header is not that token; a refused request leaves
    the world as it is; an accepted one runs one cycle and reports the
    number of events then cached, which is the previous number when the
    fetch fails. *)
Theorem refresh_authorization (REFRESH_TOKEN x_refresh_token : option str)
  (cfg : config) (net : network) (now : Z) (w : world) :
  (refresh_denied REFRESH_TOKEN x_refresh_token = true <->
   exists c t, REFRESH_TOKEN = Some (c :: t) /\ x_refresh_token <> Some (c :: t)) /\
  (refresh_denied REFRESH_TOKEN x_refresh_token = true ->
   refresh REFRESH_TOKEN x_refresh_token cfg net now w = (w, Unauthorized)) /\
  (refresh_denied REFRESH_TOKEN x_refresh_token = false ->
   refresh REFRESH_TOKEN x_refresh_token cfg net now w
   = (fst (_refresh_once cfg net now w),
      RefreshOk (List.length
                   (events_or_nil
                      (cache_events (fst (_refresh_once cfg net now w))))))) /\
  (refresh_denied REFRESH_TOKEN x_refresh_token = false ->
   (exists e, fetch_course_page net = Raise e) ->
   refresh REFRESH_TOKEN x_refresh_token cfg net now w
   = (w, RefreshOk (List.length (events_or_nil (cache_events w))))).
Proof.
  split; [|split; [|split]].
  - unfold refresh_denied. destruct REFRESH_TOKEN as [[|c t]|].
    + split; [discriminate|]. intros (c & t & H & _). discriminate.
    + destruct x_refresh_token as [[|h hs]|].
      * split; [|reflexivity]. intros _. exists c, t. split; [reflexivity|discriminate].
      * rewrite negb_true_iff. split.
        -- intros H. exists c, t. split; [reflexivity|]. intros E.
           apply some_eq in E. apply str_eqb_eq in E. congruence.
        -- intros (c' & t' & E & Hne). apply some_eq in E.
           apply not_true_is_false. intros Heq. apply str_eqb_eq in Heq.
           apply Hne. now rewrite Heq, E.
      * split; [|reflexivity]. intros _. exists c, t. split; [reflexivity|discriminate].
    + split; [discriminate|]. intros (c & t & H & _). discriminate.
  - intros H. unfold refresh. now rewrite H.
  - intros H. unfold refresh. now rewrite H.
  - intros H [e He]. unfold refresh. rewrite H. unfold _refresh_once.
    now rewrite He.
Qed.

(** X20.  A calendar text without carriage return that [save_cache] has
    written is read back unchanged by [load_cache]; the service starts on
    that disk whenever the data directory can be made, and when it has
    started the text is the cached document and, when not empty, is what
    [/calendar.ics] serves. *)
Theorem saved_text_read_back (events : list CourseEvent) (ics_text : str)
  (d d' : disk) :
  save_cache events ics_text d = (d', Ok tt) ->
  ~ In CR ics_text ->
  fst (load_cache d') = Some ics_text /\
  (exists s, on_startup d' = Ok s) /\
  (forall s,
      on_startup d' = Ok s ->
      started_ics s = Some ics_text /\
      started_files s = d' /\
      (ics_text <> [] ->
       forall cfg t, calendar_started cfg t s = Ok ics_text)).
Proof.
  intros Hs Hcr. pose proof (save_cache_ok_dir _ _ _ Hs) as Hdir.
  apply save_cache_ok in Hs as (jb & ib & _ & Hi & ->).
  assert (E : read_text CACHE_ICS (mkDisk (Some jb) (Some ib)) = Some ics_text).
  { unfold read_text. cbn [read_bytes cache_ics_file].
    rewrite (decode_encode_utf8 _ Hi). cbn [option_map].
    now rewrite universal_newlines_no_cr_id. }
  split; [unfold load_cache; now rewrite E|].
  split.
  { unfold on_startup. rewrite Hdir. cbn [bind].
    destruct (load_cache _) as [a b]. eauto. }
  intros s Hs. unfold on_startup in Hs.
  destruct ensure_data_dir; [|discriminate]. cbn [bind] in Hs.
  unfold load_cache in Hs. rewrite E in Hs. injection Hs as <-.
  cbn [started_ics started_files]. split; [reflexivity|].
  split; [reflexivity|].
  intros Hne cfg t. unfold calendar_started. cbn [started_ics].
  destruct ics_text; [contradiction|reflexivity].
Qed.


Lemma insert_by_map {A B} (f : A -> B) (lebA : A -> A -> bool)
  (lebB : B -> B -> bool) (x : A) (l : list A) :
  (forall a b, lebB (f a) (f b) = lebA a b) ->
  insert_by lebB (f x) (List.map f l) = List.map f (insert_by lebA x l).
Proof.
  intros H. induction l as [|y t IH]; [reflexivity|].
  cbn [List.map insert_by]. rewrite H.
  destruct (lebA x y); [reflexivity|]. cbn [List.map]. now rewrite IH.
Qed.

Lemma sorted_by_map {A B} (f : A -> B) (lebA : A -> A -> bool)
  (lebB : B -> B -> bool) (l : list A) :
  (forall a b, lebB (f a) (f b) = lebA a b) ->
  sorted_by lebB (List.map f l) = List.map f (sorted_by lebA l).
Proof.
  intros H. unfold sorted_by. induction l as [|x t IH]; [reflexivity|].
  cbn [List.map fold_right]. rewrite IH. now apply insert_by_map.
Qed.

Lemma collect_ok {A B} (f : A -> result (list B)) (g : A -> list B)
  (l : list A) :
  (forall a, f a = Ok (g a)) -> collect f l = Ok (flat_map g l).
Proof.
  intros H. induction l as [|a t IH]; [reflexivity|].
  cbn [collect flat_map]. rewrite H, IH. reflexivity.
Qed.

Lemma collect_map {A B C} (f : B -> result (list C)) (h : A -> B)
  (l : list A) :
  collect f (List.map h l) = collect (fun a => f (h a)) l.
Proof.
  induction l as [|a t IH]; [reflexivity|].
  cbn [List.map collect]. now rewrite IH.
Qed.



Lemma cached_vevent_lines_of (now course_id : Z) (e : CourseEvent) :
  cached_vevent_lines now course_id (cached_of e)
  = Ok (vevent_lines now course_id e).
Proof.
  destruct e as [i t s e lo ins ro de].
  destruct lo as [[|? ?]|], ins as [[|? ?]|], ro as [[|? ?]|],
           de as [[|? ?]|]; reflexivity.
Qed.

Lemma generate_ics_cached_of (now course_id : Z) (events : list CourseEvent) :
  generate_ics_cached now course_id (List.map cached_of events)
  = Ok (generate_ics now course_id events).
Proof.
  unfold generate_ics_cached, generate_ics, ics_lines.
  rewrite (sorted_by_map cached_of event_leb cached_leb) by reflexivity.
  rewrite collect_map.
  rewrite (collect_ok _ (vevent_lines now course_id))
    by apply cached_vevent_lines_of.
  reflexivity.
Qed.









(** X22.  An empty result of [parse_schedule] can only come from the
    direct-JSON path: the strategies on HTML return a list only when it is
    not empty. *)
Theorem empty_result_only_direct (data : bytes) (content_type : option str) :
  parse_schedule data content_type = Ok [] ->
  direct_json data content_type = true /\
  (forall events, parse_html data = Ok events -> events <> []) /\
  exists obj, json_loads (decode_utf8_replace data) = Some obj /\
              _build_events_from_obj obj = Ok [].
Proof.
  intros H. split; [|split].
  - unfold parse_schedule in H. destruct (direct_json data content_type);
      [reflexivity|]. now apply parse_html_nonempty in H.
  - intros events. apply parse_html_nonempty.
  - unfold parse_schedule in H. destruct (direct_json data content_type).
    + destruct (json_loads _) as [obj|]; [|now apply parse_html_nonempty in H].
      destruct (_build_events_from_obj obj) as [evs|] eqn:E;
        [|now apply parse_html_nonempty in H].
      injection H as ->. eauto.
    + now apply parse_html_nonempty in H.
Qed.

End Cycle.

Lemma successful_refresh_witness :
  exists events,
    parse_schedule (L:=Ref.lib) two_courses (Some (lit "application/json"))
    = Ok events /\
    exists d',
      _refresh_once (L:=Ref.lib) default_config
                    (net_serving two_courses "application/json") 0 empty_world
      = (mkWorld
           (Some (generate_ics 0 (FITX_COURSE_ID default_config)
                    (filter_events (L:=Ref.lib)
                       (EXCLUDE_KEYWORDS default_config) events)))
           (Some (filter_events (L:=Ref.lib)
                    (EXCLUDE_KEYWORDS default_config) events)) d',
         [StepFetch; StepParse; StepFilter; StepRender; StepPersist; StepSwap]).
Proof.
  eexists. split; [vm_compute; reflexivity|]. eexists.
  match goal with
  | |- _ = (mkWorld (Some ?t) (Some ?k) _, _) =>
      pose proof (@successful_refresh Ref.lib default_config
                    (net_serving two_courses "application/json") 0 empty_world
                    two_courses (Some (lit "application/json")) _
                    (fst (save_cache (L:=Ref.lib) k t (files empty_world)))
                    eq_refl
                    ltac:(vm_compute; reflexivity)
                    ltac:(vm_compute; reflexivity)) as H
  end.
  cbv zeta in H. exact (proj1 H).
Defined.

Lemma failed_persist_keeps_memory_witness :
  _update_cache (L:=Ref.lib) [] lone_surrogate empty_world
  = (mkWorld None None (mkDisk (Some (blit "[]")) None), [StepPersist]) /\
  _update_cache (L:=Ref.faulty) [] (lit "BEGIN:VCALENDAR") empty_world
  = (mkWorld None None (mkDisk (Some (blit "[]")) None), [StepPersist]).
Proof.
  split.
  - apply (proj1 (@failed_persist_keeps_memory Ref.lib [] lone_surrogate
                    empty_world (mkDisk (Some (blit "[]")) None)
                    UnicodeEncodeError eq_refl)).
  - apply (proj1 (@failed_persist_keeps_memory Ref.faulty []
                    (lit "BEGIN:VCALENDAR") empty_world
                    (mkDisk (Some (blit "[]")) None) OSError eq_refl)).
Defined.

Lemma not_in_existsb (c : char) (s : str) :
  existsb (char_eqb c) s = false -> ~ In c s.
Proof.
  intros H Hin. assert (E : existsb (char_eqb c) s = true).
  { apply existsb_exists. exists c. split; [exact Hin|apply char_eqb_refl]. }
  congruence.
Qed.

Lemma saved_text_read_back_witness :
  fst (load_cache (L:=Ref.lib)
         (mkDisk (Some (blit "[]")) (Some (blit "BEGIN:VCALENDAR"))))
  = Some (lit "BEGIN:VCALENDAR") /\
  exists s,
    on_startup (L:=Ref.lib)
      (mkDisk (Some (blit "[]")) (Some (blit "BEGIN:VCALENDAR"))) = Ok s /\
    calendar_started (L:=Ref.lib) default_config 0 s
    = Ok (lit "BEGIN:VCALENDAR").
Proof.
  destruct (@saved_text_read_back Ref.lib [] (lit "BEGIN:VCALENDAR")
              (mkDisk None None)
              (mkDisk (Some (blit "[]")) (Some (blit "BEGIN:VCALENDAR")))
              eq_refl
              (not_in_existsb CR (lit "BEGIN:VCALENDAR") eq_refl))
    as (H1 & [s Hs] & H3).
  split; [exact H1|]. exists s. split; [exact Hs|].
  destruct (H3 s Hs) as (_ & _ & H). apply H. discriminate.
Defined.


Lemma empty_result_only_direct_witness :
  direct_json (L:=Ref.lib) (blit "[]") None = true.
Proof.
  apply (proj1 (@empty_result_only_direct Ref.lib (blit "[]") None
                  ltac:(vm_compute; reflexivity))).
Defined.

(** ** The codec: valid UTF-8 under both error handlers *)

Lemma decode_strict_replace_from (skip : nat) (bs : list N) (s : str) :
  decode_strict_from skip bs = Some s -> decode_replace_from skip bs = s.
Proof.
  revert skip s. induction bs as [|b r IH]; intros skip s;
    cbn [decode_strict_from decode_replace_from].
  - intros H. now apply some_eq in H.
  - destruct skip as [|k]; [|apply IH].
    destruct (utf8_next b r) as [[c|] n]; [|discriminate].
    destruct (decode_strict_from n r) as [t|] eqn:E; [|discriminate].
    intros H. apply some_eq in H. subst s. f_equal. now apply IH.
Qed.

(** X23.  On bytes that the strict decoder accepts, the replacing decoder
    of [parse_schedule] gives the same text; so a text that [encode("utf-8")]
    accepted is what [parse_schedule] works on when it receives those
    bytes. *)
Theorem valid_utf8_decodes_alike (s : str) (data : bytes) :
  (decode_utf8_strict data = Some s -> decode_utf8_replace data = s) /\
  (encode_utf8 s = Some data -> decode_utf8_replace data = s).
Proof.
  assert (A : decode_utf8_strict data = Some s -> decode_utf8_replace data = s)
    by apply decode_strict_replace_from.
  split; [exact A|]. intros H. apply A. now apply decode_encode_utf8.
Qed.

(** ** store.py: the event list of the cache *)

Section EventsBack.

Context {L : PyLib}.

Lemma load_event_to_json (e : CourseEvent) :
  reads_back (start e) -> reads_back (end_ e) ->
  load_event (event_to_json e) = Some (cached_of e).
Proof.
  destruct e as [i t s e lo ins ro de]. cbn [start end_].
  intros (r1 & F1 & A1) (r2 & F2 & A2).
  unfold load_event, event_to_json, cached_of.
  cbn [id title start end_ location instructor room description].
  assert (Hs : load_datetime
                 [ (lit "id", JStr i); (lit "title", JStr t);
                   (lit "start", JStr (isoformat s));
                   (lit "end", JStr (isoformat e));
                   (lit "location", opt_json lo);
                   (lit "instructor", opt_json ins);
                   (lit "room", opt_json ro);
                   (lit "description", opt_json de) ] "start" = Some s).
  { unfold load_datetime.
    change (dict_get _ (lit "start")) with (Some (JStr (isoformat s))).
    cbv beta iota. now rewrite F1. }
  assert (He : load_datetime
                 [ (lit "id", JStr i); (lit "title", JStr t);
                   (lit "start", JStr (isoformat s));
                   (lit "end", JStr (isoformat e));
                   (lit "location", opt_json lo);
                   (lit "instructor", opt_json ins);
                   (lit "room", opt_json ro);
                   (lit "description", opt_json de) ] "end" = Some e).
  { unfold load_datetime.
    change (dict_get _ (lit "end")) with (Some (JStr (isoformat e))).
    cbv beta iota. now rewrite F2. }
  rewrite Hs, He. unfold load_optional, get, get_default.
  change (dict_get _ (lit "location")) with (Some (opt_json lo)).
  change (dict_get _ (lit "instructor")) with (Some (opt_json ins)).
  change (dict_get _ (lit "room")) with (Some (opt_json ro)).
  change (dict_get _ (lit "description")) with (Some (opt_json de)).
  change (dict_get _ (lit "id")) with (Some (JStr i)).
  change (dict_get _ (lit "title")) with (Some (JStr t)).
  reflexivity.
Qed.

Lemma load_events_to_json (events : list CourseEvent) :
  Forall (fun e => reads_back (start e) /\ reads_back (end_ e)) events ->
  load_events (List.map event_to_json events)
  = Some (List.map cached_of events).
Proof.
  induction 1 as [|e es [Hs He] _ IH]; [reflexivity|].
  cbn [List.map load_events]. now rewrite (load_event_to_json e Hs He), IH.
Qed.

(** X24.  The events that [save_cache] has written are the events that
    [load_cache] returns, with the same fields, and so the cached events
    of the service once it has started, when the JSON library reads its own
    output back, that output holds no carriage return, and each start and
    end is read back from its ISO text; with no calendar text in memory,
    [/calendar.ics] then serves the document of these events. *)
Theorem saved_events_read_back (events : list CourseEvent) (ics_text : str)
  (d d' : disk) :
  save_cache events ics_text d = (d', Ok tt) ->
  ~ In CR (json_dumps (JList (List.map event_to_json events))) ->
  json_loads (json_dumps (JList (List.map event_to_json events)))
  = Some (JList (List.map event_to_json events)) ->
  Forall (fun e => reads_back (start e) /\ reads_back (end_ e)) events ->
  snd (load_cache d') = Some (List.map cached_of events) /\
  (exists s, on_startup d' = Ok s) /\
  (forall s,
      on_startup d' = Ok s ->
      started_events s = Some (List.map cached_of events)) /\
  (forall cfg t,
      calendar_started cfg t
        (mkStarted None (Some (List.map cached_of events)) d')
      = Ok (generate_ics t (FITX_COURSE_ID cfg) events)).
Proof.
  intros Hs Hcr Hj Hdt. pose proof (save_cache_ok_dir _ _ _ Hs) as Hdir.
  apply save_cache_ok in Hs as (jb & ib & Hjb & _ & ->).
  assert (E : snd (load_cache (mkDisk (Some jb) (Some ib)))
              = Some (List.map cached_of events)).
  { unfold load_cache, read_text. cbn [snd read_bytes cache_json_file].
    rewrite (decode_encode_utf8 _ Hjb). cbn [option_map].
    rewrite universal_newlines_no_cr_id by exact Hcr.
    rewrite Hj. cbn [iter_json]. now apply load_events_to_json. }
  split; [exact E|]. split; [|split].
  - unfold on_startup. rewrite Hdir. cbn [bind].
    destruct (load_cache _) as [a b]. eauto.
  - intros s Hs. unfold on_startup in Hs.
    destruct ensure_data_dir; [|discriminate]. cbn [bind] in Hs.
    destruct (load_cache _) as [ics evs]. cbn [snd] in E. subst evs.
    now injection Hs as <-.
  - intros cfg t. unfold calendar_started. cbn [started_ics started_events].
    destruct events as [|e es]; cbn [List.map].
    + apply (generate_ics_cached_of t (FITX_COURSE_ID cfg) []).
    + apply (generate_ics_cached_of t (FITX_COURSE_ID cfg) (e :: es)).
Qed.

End EventsBack.

Lemma saved_events_read_back_witness :
  snd (load_cache (L:=Ref.lib)
         (fst (save_cache (L:=Ref.lib) [pilates; yoga_studio_1]
                 (lit "BEGIN:VCALENDAR") (mkDisk None None))))
  = Some (List.map cached_of [pilates; yoga_studio_1]).
Proof.
  refine (proj1 (@saved_events_read_back Ref.lib [pilates; yoga_studio_1]
                   (lit "BEGIN:VCALENDAR") (mkDisk None None) _ _ _ _ _)).
  - vm_compute. reflexivity.
  - apply not_in_existsb. vm_compute. reflexivity.
  - vm_compute. reflexivity.
  - repeat constructor; eexists; (split; [vm_compute; reflexivity|]);
      vm_compute; reflexivity.
Defined.
